(** * vballheatmap: the annotation surface and the client-side image pipeline

    A shallow embedding of the TypeScript sources

    - [src/utils/imageUtils.ts]       (validateImageFile, compressImage, convertToBase64)
    - [src/services/geminiApi.ts]     (analyzeImageWithGemini)
    - [src/types/index.ts]            (AnalysisResult, UploadProgress, ApiError)
    - the [useImageAnalysis] hook     (analyzeImage, clearResults, removeResult)
    - [src/components/AnnotationCanvas.tsx] (handleCanvasClick)

    and the properties of them that the specification states.

    Conventions of the embedding.

    - JavaScript numbers are IEEE 754 binary64 values; they are modelled by
      Rocq's primitive floats, which are the same format with the same
      correctly rounded operations.  Byte counts, HTTP status codes and
      timestamps are integers and are modelled in [Z].
    - An [async] function is taken from its call to the settlement of the
      promise it returns: it yields a value or throws.  What the browser
      and the network answer on the way (image decoding, the file reader,
      [fetch], the clock, [Math.random]) is read from a [World].
    - The React state of the hook, the browser's blob URL store and the
      pending timers are threaded explicitly, together with a trace of
      the calls and updates the hook makes.
    - A JavaScript string is kept as the bytes of its UTF-8 encoding (a
      lone surrogate as the three bytes of its code point), so that every
      string has one model and an ASCII text is its own; [JS.length]
      counts UTF-16 code units on it.  The needles the sources search for
      and split at are ASCII, for which bytes and code units agree.
    - What the engine computes from its own tables is read from the
      [World] too: the decimal form of a number ([Number::toString]) and
      [toLowerCase] on a text that is not all ASCII. *)

From Stdlib Require Import ZArith List String Ascii Bool Lia Floats Uint63.
From Stdlib Require Import DecimalString DecimalZ.
Import ListNotations.

Set Warnings "-inexact-float,-register-all".
Local Open Scope string_scope.
Local Open Scope Z_scope.

(** ** A small JavaScript prelude *)

Module JS.

(** [Number.prototype.toString] at an integer. *)
Definition string_of_Z (n : Z) : string :=
  NilZero.string_of_int (Z.to_int n).

(** [s.length]: the number of UTF-16 code units.  In the UTF-8 encoding a
    byte below 0x80 or from 0xC0 on starts a character, which takes one
    code unit, or two when that byte is from 0xF0 on (a character beyond
    U+FFFF). *)
Fixpoint length (s : string) : nat :=
  match s with
  | EmptyString => 0%nat
  | String c s' =>
      let b := nat_of_ascii c in
      ((if (b <? 128) || (192 <=? b) then 1 else 0)
       + (if 240 <=? b then 1 else 0) + length s')%nat
  end.

(** The text consists of ASCII characters only. *)
Fixpoint isAscii (s : string) : bool :=
  match s with
  | EmptyString => true
  | String c s' => (nat_of_ascii c <? 128)%nat && isAscii s'
  end.

(** [s[0]] on a string that is not empty: its first code unit, as a
    string.  That is the first character, or, for a character beyond
    U+FFFF, the first half of its surrogate pair. *)
Definition firstCodeUnit (s : string) : string :=
  let byte (n : nat) := String (ascii_of_nat n) EmptyString in
  match s with
  | String c0 (String c1 (String c2 (String c3 _))) =>
      let b0 := nat_of_ascii c0 in
      if (b0 <? 128)%nat then String c0 EmptyString
      else if (b0 <? 224)%nat then String c0 (String c1 EmptyString)
      else if (b0 <? 240)%nat then
        String c0 (String c1 (String c2 EmptyString))
      else
        (* the code point less 0x10000, without its last ten bits *)
        let top := ((b0 mod 8) * 256 + (nat_of_ascii c1 mod 64) * 4
                    + (nat_of_ascii c2 mod 64) / 16 - 64)%nat in
        (byte 237%nat ++ byte (160 + top / 64)%nat
         ++ byte (128 + top mod 64)%nat)%string
  | String c0 (String c1 (String c2 EmptyString)) =>
      let b0 := nat_of_ascii c0 in
      if (b0 <? 128)%nat then String c0 EmptyString
      else if (b0 <? 224)%nat then String c0 (String c1 EmptyString)
      else s
  | String c0 (String c1 EmptyString) =>
      if (nat_of_ascii c0 <? 128)%nat then String c0 EmptyString else s
  | _ => s
  end.

(** [Array.prototype.includes] on an array of strings (strict equality). *)
Definition includes_elem (l : list string) (s : string) : bool :=
  existsb (String.eqb s) l.

(** [String.prototype.includes]: [sub] occurs somewhere in [s]. *)
Fixpoint includes (s sub : string) : bool :=
  if prefix sub s then true
  else match s with
       | EmptyString => false
       | String _ s' => includes s' sub
       end.

(** [Array.prototype.findIndex]: the first index whose element satisfies
    [p], and [-1] when there is none. *)
Fixpoint findIndex {A : Type} (p : A -> bool) (l : list A) : Z :=
  match l with
  | [] => -1
  | a :: l' =>
      if p a then 0
      else let i := findIndex p l' in
           if i =? -1 then -1 else i + 1
  end.

(** [arr.filter((_, index) => keep index)], the elements numbered from
    [start]. *)
Fixpoint filter_index {A : Type} (keep : Z -> bool) (start : Z) (l : list A)
  : list A :=
  match l with
  | [] => []
  | a :: l' =>
      if keep start then a :: filter_index keep (start + 1) l'
      else filter_index keep (start + 1) l'
  end.

(** [a || b] on optional strings whose empty string is falsy. *)
Definition or_string (a : option string) (b : string) : string :=
  match a with
  | Some s => if String.eqb s "" then b else s
  | None => b
  end.

End JS.

(** ** src/utils/imageUtils.ts: the file validator *)

(** The fields of a DOM [File] the pipeline reads. *)
Record File := mkFile {
  file_name : string;
  file_type : string;     (* declared MIME type *)
  file_size : Z           (* byte count *)
}.

Module ImageUtils.

Record Validation := mkValidation {
  isValid : bool;
  error : option string
}.

Definition validTypes : list string :=
  ["image/jpeg"; "image/png"; "image/webp"].

Definition maxSize : Z := 10 * 1024 * 1024.

Definition invalidTypeMessage : string :=
  "Invalid file type. Please upload JPEG, PNG, or WebP images only.".

Definition tooLargeMessage : string :=
  "File size too large. Please upload images smaller than 10MB.".

Definition validateImageFile (file : File) : Validation :=
  if negb (JS.includes_elem validTypes (file_type file)) then
    {| isValid := false; error := Some invalidTypeMessage |}
  else if file_size file >? maxSize then
    {| isValid := false; error := Some tooLargeMessage |}
  else
    {| isValid := true; error := None |}.

(** The declared type is one of the three accepted MIME types. *)
Definition accepted_type (t : string) : Prop :=
  t = "image/jpeg" \/ t = "image/png" \/ t = "image/webp".

End ImageUtils.

(** ** Values, thrown errors and results *)

(** A parsed JSON document, as [Response.json()] yields it.  Numbers are
    binary64, as [JSON.parse] reads them; a JavaScript value that may also
    be [undefined] is an [option JSON]. *)
Inductive JSON : Type :=
| JNull
| JBool (b : bool)
| JNum (x : float)
| JStr (s : string)
| JArr (items : list JSON)
| JObj (fields : list (string * JSON)).

Module Value.

(** JavaScript truthiness. *)
Definition truthy (v : JSON) : bool :=
  match v with
  | JNull => false
  | JBool b => b
  | JNum x => negb ((x =? 0)%float || PrimFloat.is_nan x)
  | JStr s => negb (String.eqb s "")
  | JArr _ | JObj _ => true
  end.

Definition truthy_opt (v : option JSON) : bool :=
  match v with
  | Some j => truthy j
  | None => false
  end.

(** The last binding of a key: [JSON.parse] lets a later duplicate win. *)
Fixpoint lookup (k : string) (fields : list (string * JSON)) : option JSON :=
  match fields with
  | [] => None
  | (k', v) :: rest =>
      match lookup k rest with
      | Some v' => Some v'
      | None => if String.eqb k k' then Some v else None
      end
  end.

End Value.

(** src/types/index.ts: [class ApiError extends Error]. *)
Record ApiError := mkApiError {
  api_message : string;
  api_code : option JSON;
  api_details : option JSON
}.

(** What a [throw] or a rejected promise carries.  The sources look only at
    the class ([instanceof ApiError], [instanceof TypeError],
    [instanceof Error]) and at [message]. *)
Inductive Exn : Type :=
| ThrownApiError (e : ApiError)
| ThrownTypeError (message : string)
| ThrownError (message : string)        (* [Error] and its other subclasses *)
| ThrownValue (v : JSON).               (* a thrown value that is no [Error] *)

Inductive Result (A : Type) : Type :=
| Ok (a : A)
| Throw (e : Exn).
Arguments Ok {A} a.
Arguments Throw {A} e.

Module Res.

Definition bind {A B : Type} (r : Result A) (k : A -> Result B) : Result B :=
  match r with
  | Ok a => k a
  | Throw e => Throw e
  end.

(** [try { body } catch (e) { handler e }]. *)
Definition try_catch {A : Type} (body : Result A) (handler : Exn -> Result A)
  : Result A :=
  match body with
  | Ok a => Ok a
  | Throw e => handler e
  end.

End Res.

Notation "x <- c ;; k" := (Res.bind c (fun x => k))
  (at level 61, c at next level, right associativity).

Module Value_access.

(** [Array.prototype.join]: the elements converted to strings, [null]
    giving the empty string, with commas between them. *)
Definition joinElements (elementToString : JSON -> Result string)
  : list JSON -> Result string :=
  fix join (l : list JSON) : Result string :=
    match l with
    | [] => Ok ""
    | x :: l' =>
        sx <- match x with
              | JNull => Ok ""
              | _ => elementToString x
              end ;;
        match l' with
        | [] => Ok sx
        | _ :: _ => rest <- join l' ;; Ok (sx ++ "," ++ rest)
        end
    end.

(** The abstract operation ToString, which the [Error] constructor
    applies to its message; [print] is [Number::toString].  An array is
    joined with commas.  An
    object parsed from JSON inherits [toString] and [valueOf] from
    [Object.prototype], unless a key of its own hides them: a key
    [toString] of its own holds a JSON value, which cannot be called, and
    the inherited or hidden [valueOf] gives no primitive value, so that
    the conversion throws a TypeError (in the wording of V8); without
    such a key the inherited [toString] answers. *)
Fixpoint toString (print : float -> string) (v : JSON) : Result string :=
  match v with
  | JNull => Ok "null"
  | JBool true => Ok "true"
  | JBool false => Ok "false"
  | JNum x => Ok (print x)
  | JStr s => Ok s
  | JArr items => joinElements (toString print) items
  | JObj fields =>
      match Value.lookup "toString" fields with
      | Some _ =>
          Throw (ThrownTypeError "Cannot convert object to primitive value")
      | None => Ok "[object Object]"
      end
  end.

(** [v.k] for the keys the sources read (none of them is defined on a
    prototype): reading a property of [null] throws a TypeError, an
    object gives its own field, every other value gives [undefined]. *)
Definition getProp (v : JSON) (k : string) : Result (option JSON) :=
  match v with
  | JNull =>
      Throw (ThrownTypeError
               ("Cannot read properties of null (reading '" ++ k ++ "')"))
  | JObj fields => Ok (Value.lookup k fields)
  | _ => Ok None
  end.

(** [v?.k]: [undefined] when [v] is [null] or [undefined]. *)
Definition getPropOpt (v : option JSON) (k : string) : option JSON :=
  match v with
  | None | Some JNull => None
  | Some (JObj fields) => Value.lookup k fields
  | Some _ => None
  end.

(** [v?.[0]]: the first element of an array, the field [0] of an object,
    the first code unit of a string. *)
Definition getIndex0Opt (v : option JSON) : option JSON :=
  match v with
  | None | Some JNull => None
  | Some (JArr items) => hd_error items
  | Some (JObj fields) => Value.lookup "0" fields
  | Some (JStr (String c s)) => Some (JStr (JS.firstCodeUnit (String c s)))
  | Some _ => None
  end.

End Value_access.

(** ** The browser and the network, as the pipeline meets them *)

(** The body [analyzeImageWithGemini] posts, before [JSON.stringify]. *)
Record RequestBody := mkRequestBody {
  rb_text : string;
  rb_mime_type : string;
  rb_data : string;
  rb_temperature : float;
  rb_topK : Z;
  rb_topP : Z;
  rb_maxOutputTokens : Z
}.

Record Request := mkRequest {
  req_url : string;
  req_method : string;
  req_content_type : string;
  req_body : RequestBody
}.

(** A fetch [Response]: its status and what [response.json()] settles to. *)
Record Response := mkResponse {
  resp_status : Z;
  resp_json : Result JSON
}.

(** [response.ok]: the status is in the range 200 to 299. *)
Definition resp_ok (r : Response) : bool :=
  (200 <=? resp_status r) && (resp_status r <=? 299).

(** What a [FileReader] reports for [readAsDataURL]. *)
Inductive ReaderEvent : Type :=
| ReaderLoad (result : option string)   (* [None]: the result is no string *)
| ReaderError (message : option string) (* [reader.error?.message] *)
| ReaderAbort.

(** Everything outside the sources that one run consults. *)
Record World := mkWorld {
  getContext2d : bool;                      (* [canvas.getContext('2d')] is not null *)
  decodeImage : File -> option (Z * Z);     (* the image loads with this width and height, or [error] fires *)
  drawImage : File -> Z -> Z -> option string;  (* [drawImage] or [toBlob] throws, and the template literal prints what was thrown as this text *)
  toBlob : File -> Z -> Z -> float -> option Z; (* size of the encoded blob, or a null blob *)
  readAsDataURL : File -> ReaderEvent;
  apiKey : option string;                   (* [import.meta.env.VITE_GEMINI_API_KEY] *)
  fetch : Request -> Result Response;
  dateNow : Z;                              (* [Date.now()] *)
  newDate : Z;                              (* the time value of [new Date()], which is read next *)
  mathRandom : float;                       (* [Math.random()] *)
  numberToString : float -> string;         (* [Number::toString] *)
  lowerCase : string -> string              (* [toLowerCase] on a text that is not all ASCII *)
}.

(** The browser's blob URL store: [URL.createObjectURL] mints a fresh URL
    that stays live until [URL.revokeObjectURL] is called on it. *)
Record BlobStore := mkBlobStore {
  minted : Z;               (* how many URLs were created so far *)
  live : list string        (* created and not yet revoked *)
}.

Module URL.

Definition createObjectURL (st : BlobStore) : string * BlobStore :=
  let url := "blob:" ++ JS.string_of_Z (minted st) in
  (url, {| minted := minted st + 1; live := url :: live st |}).

Definition revokeObjectURL (url : string) (st : BlobStore) : BlobStore :=
  {| minted := minted st;
     live := filter (fun u => negb (String.eqb u url)) (live st) |}.

End URL.

(** ** src/services/geminiApi.ts *)

Module GeminiApi.

Definition tab : string := String (ascii_of_nat 9) EmptyString.
Definition newline : string := String (ascii_of_nat 10) EmptyString.
Definition dquote : string := String (ascii_of_nat 34) EmptyString.

Definition GEMINI_API_ENDPOINT : string :=
  "https://generativelanguage.googleapis.com/v1beta/models/gemini-2.5-flash:generateContent".

Definition defaultPrompt : string :=
  String.concat newline [
    EmptyString;
    EmptyString;
    tab ++ tab ++ "Context:";
    tab ++ tab ++ "Students are drawing on a heatmap based on their team's gameplay where:";
    tab ++ tab ++ "- successful points are drawn using O";
    tab ++ tab ++ "- unsuccessful points are drawn using X";
    EmptyString;
    "----";
    tab ++ tab ++ "Your Role:";
    "    Act as a PE teacher teaching concepts of net/ barrier games to primary school student on the following concept based on the heat map they drew for their team's game play:";
    EmptyString;
    "Send the ball into space that is located close to the net, deep to the sides, or between the 2 opponents to force the opponent away from his central base position";
    EmptyString;
    "As the teacher, provide 3 to 5 succinct pointers on the students' gameplay based on their heat map.";
    "——";
    "Act as a coach and provide an analysis of the gameplay based on the heat map of the court:";
    "<number of Os> / <number of Xs + number of Os>";
    "include any other insights";
    EmptyString;
    "————-";
    "Note:";
    "DO NOT provide feedback regarding the correct/ incorrect marking of X and O because your feedback should be focused on their gameplay not annotation";
    EmptyString;
    "Negative Examples:";
    dquote ++ "Good job marking the successful and unsuccessful groundings with O and X! 👍 I can see you placed them in the correct zone." ++ dquote;
    EmptyString;
    dquote ++ "Good job marking X for unsuccessful groundings and O for successful ones! 👍 You put them in the right areas of the court." ++ dquote;
    "————";
    "  "
  ].

Definition apiError (message : string) (code : option JSON)
           (details : option JSON) : Exn :=
  ThrownApiError (mkApiError message code details).

(** [a || fallback] where the result becomes the message of an [Error]:
    the constructor converts it to a string, which can throw. *)
Definition message_or (print : float -> string) (v : option JSON)
           (fallback : string) : Result string :=
  match v with
  | Some j =>
      if Value.truthy j then Value_access.toString print j else Ok fallback
  | None => Ok fallback
  end.

(** [a || fallback] where the result is kept as a value. *)
Definition value_or (v : option JSON) (fallback : JSON) : JSON :=
  match v with
  | Some j => if Value.truthy j then j else fallback
  | None => fallback
  end.

(** The [if (!response.ok)] block. *)
Definition failedResponse (w : World) (response : Response) : Result JSON :=
  let errorData :=
    match resp_json response with
    | Ok j => j
    | Throw _ => JObj []                (* [.catch(() => ({}))] *)
    end in
  if resp_status response =? 400 then
    Throw (apiError "Invalid request. Please check your image format and try again."
                    (Some (JStr "INVALID_REQUEST")) None)
  else if resp_status response =? 401 then
    Throw (apiError "Invalid API key. Please check your Gemini API key configuration."
                    (Some (JStr "INVALID_API_KEY")) None)
  else if resp_status response =? 403 then
    Throw (apiError "API access forbidden. Please check your API key permissions."
                    (Some (JStr "FORBIDDEN")) None)
  else if resp_status response =? 429 then
    Throw (apiError "Rate limit exceeded. Please wait a moment and try again."
                    (Some (JStr "RATE_LIMIT")) None)
  else
    err <- Value_access.getProp errorData "error" ;;
    message <- message_or (numberToString w)
                 (Value_access.getPropOpt err "message")
                 ("API request failed with status "
                    ++ JS.string_of_Z (resp_status response)) ;;
    Throw (apiError message
             (Some (value_or (Value_access.getPropOpt err "code")
                             (JStr "API_ERROR")))
             (Value_access.getPropOpt err "details")).

(** The rest of the [try] block, for a response with [response.ok]. *)
Definition readAnalysis (w : World) (response : Response) : Result JSON :=
  data <- resp_json response ;;
  candidates <- Value_access.getProp data "candidates" ;;
  let text :=
    Value_access.getPropOpt
      (Value_access.getIndex0Opt
         (Value_access.getPropOpt
            (Value_access.getPropOpt
               (Value_access.getIndex0Opt candidates) "content")
            "parts"))
      "text" in
  let otherwise : Result JSON :=
    err <- Value_access.getProp data "error" ;;
    if Value.truthy_opt err then
      message <- message_or (numberToString w)
                   (Value_access.getPropOpt err "message")
                   "API returned an error" ;;
      Throw (apiError message (Value_access.getPropOpt err "code") None)
    else
      Throw (apiError
               "Invalid response format from Gemini API - no analysis text found"
               None None) in
  match text with
  | Some t =>
      if Value.truthy_opt candidates && Value.truthy t then Ok t
      else otherwise
  | None => otherwise
  end.

(** The [catch (error)] block around the request. *)
Definition onRequestError (error : Exn) : Result JSON :=
  match error with
  | ThrownApiError _ => Throw error
  | ThrownTypeError message =>
      if JS.includes message "fetch" then
        Throw (apiError
                 "Network error. Please check your internet connection and try again."
                 (Some (JStr "NETWORK_ERROR")) None)
      else
        Throw (apiError "Failed to analyze image. Please try again later."
                        (Some (JStr "UNKNOWN_ERROR")) None)
  | _ =>
      Throw (apiError "Failed to analyze image. Please try again later."
                      (Some (JStr "UNKNOWN_ERROR")) None)
  end.

Definition buildRequest (key base64Image mimeType prompt : string) : Request :=
  {| req_url := GEMINI_API_ENDPOINT ++ "?key=" ++ key;
     req_method := "POST";
     req_content_type := "application/json";
     req_body :=
       {| rb_text := prompt;
          rb_mime_type := mimeType;
          rb_data := base64Image;
          rb_temperature := 0.4%float;
          rb_topK := 32;
          rb_topP := 1;
          rb_maxOutputTokens := 2048 |} |}.

(** [!apiKey || apiKey === 'your_gemini_api_key_here']. *)
Definition configuredKey (w : World) : option string :=
  match apiKey w with
  | None => None
  | Some key =>
      if String.eqb key "" || String.eqb key "your_gemini_api_key_here"
      then None else Some key
  end.

Definition analyzeImageWithGemini (w : World) (base64Image mimeType : string)
           (customPrompt : option string) : Result JSON :=
  match configuredKey w with
  | None =>
      Throw (apiError
               "Gemini API key not configured. Please add your API key to the environment variables."
               None None)
  | Some key =>
      let prompt := JS.or_string customPrompt defaultPrompt in
      Res.try_catch
        (response <- fetch w (buildRequest key base64Image mimeType prompt) ;;
         if negb (resp_ok response) then failedResponse w response
         else readAnalysis w response)
        onRequestError
  end.

End GeminiApi.

(** ** src/utils/imageUtils.ts: compression and base64 encoding *)

Module Number.

Local Open Scope float_scope.

(** An integer attribute such as [img.width], read as a number. *)
Definition of_Z (n : Z) : float := PrimFloat.of_uint63 (Uint63.of_Z n).

(** [Math.min] of two numbers: NaN if either is NaN, and -0 below +0. *)
Definition min (a b : float) : float :=
  if PrimFloat.is_nan a || PrimFloat.is_nan b then nan
  else if a <? b then a
  else if b <? a then b
  else if PrimFloat.get_sign a then a else b.

(** The integer part of a finite number, [sign(x) * floor(abs(x))]. *)
Definition truncate (x : float) : Z :=
  match Prim2SF x with
  | S754_finite s m e =>
      let a := Z.shiftl (Zpos m) e in
      if s then (- a)%Z else a
  | _ => 0%Z
  end.

(** Web IDL conversion of a number to [unsigned long]. *)
Definition toUnsignedLong (x : float) : Z :=
  (truncate x mod 2 ^ 32)%Z.

End Number.

Module Canvas.

(** Assigning a number to [canvas.width] or [canvas.height]: the value is
    converted to [unsigned long]; one above 2147483647 is replaced by the
    attribute's default. *)
Definition setDimension (default : Z) (x : float) : Z :=
  let v := Number.toUnsignedLong x in
  if v <=? 2147483647 then v else default.

End Canvas.

Module Compress.

Local Open Scope float_scope.

(** The body of [img.onload] up to the two assignments to the canvas:
    the size of the canvas the image is drawn on. *)
Definition canvasSize (imgWidth imgHeight : Z) (maxWidth : float) : Z * Z :=
  let ratio := Number.min (maxWidth / Number.of_Z imgWidth)
                          (maxWidth / Number.of_Z imgHeight) in
  (Canvas.setDimension 300 (Number.of_Z imgWidth * ratio),
   Canvas.setDimension 150 (Number.of_Z imgHeight * ratio)).

(** [compressImage(file, maxWidth, quality)], the promise it returns
    taken at its settlement, with its effect on the blob URL store. *)
Definition compressImage (w : World) (file : File) (maxWidth quality : float)
           (store : BlobStore) : Result File * BlobStore :=
  if negb (getContext2d w) then
    (Throw (ThrownError "Canvas context not available"), store)
  else
    let '(objectUrl, store1) := URL.createObjectURL store in
    (* [img.src = objectUrl]; the wrapped [onload] and [onerror] both
       revoke the URL before they run the original handler *)
    let store2 := URL.revokeObjectURL objectUrl store1 in
    match decodeImage w file with
    | None =>
        (Throw (ThrownError "Failed to load image for compression"), store2)
    | Some (imgWidth, imgHeight) =>
        let '(cw, ch) := canvasSize imgWidth imgHeight maxWidth in
        match drawImage w file cw ch with
        | Some drawError =>
            (Throw (ThrownError ("Failed to draw image on canvas: "
                                   ++ drawError)), store2)
        | None =>
            let blob :=
              if (cw =? 0)%Z || (ch =? 0)%Z then None   (* a canvas with no pixels *)
              else toBlob w file cw ch quality in
            match blob with
            | Some size =>
                (Ok {| file_name := file_name file;
                       file_type := file_type file;
                       file_size := size |}, store2)
            | None =>
                (Throw (ThrownError
                          "Failed to compress image - blob creation failed"),
                 store2)
            end
        end
    end.

Definition defaultMaxWidth : float := 1920.
Definition defaultQuality : float := 0.8.

End Compress.

Module Base64.

(** [result.split(',')[1]]: the text between the first and the second
    comma, [None] (undefined) when there is no comma. *)
Fixpoint upToComma (s : string) : string :=
  match s with
  | EmptyString => EmptyString
  | String c s' =>
      if Ascii.eqb c ","%char then EmptyString else String c (upToComma s')
  end.

Fixpoint afterFirstComma (s : string) : option string :=
  match s with
  | EmptyString => None
  | String c s' =>
      if Ascii.eqb c ","%char then Some (upToComma s')
      else afterFirstComma s'
  end.

(** [convertToBase64(file)], the promise taken at its settlement.  The
    argument is a [File], so the [instanceof File] guard passes. *)
Definition convertToBase64 (w : World) (file : File) : Result string :=
  if (file_size file =? 0)%Z then Throw (ThrownError "File is empty")
  else
    match readAsDataURL w file with
    | ReaderLoad (Some result) =>
        match afterFirstComma result with
        | Some base64Data =>
            if String.eqb base64Data "" then
              Throw (ThrownError "Failed to extract base64 data from file")
            else Ok base64Data
        | None =>
            Throw (ThrownError "Failed to extract base64 data from file")
        end
    | ReaderLoad None => Throw (ThrownError "FileReader result is not a string")
    | ReaderError message =>
        Throw (ThrownError ("FileReader error: "
                              ++ JS.or_string message "Unknown error"))
    | ReaderAbort => Throw (ThrownError "File reading was aborted")
    end.

End Base64.

(** ** src/types/index.ts: the hook's data *)

Inductive Status : Type := idle | uploading | analyzing | complete | error.

Record UploadProgress := mkProgress {
  progress : Z;
  status : Status;
  message : option string
}.

Record AnalysisResult := mkResult {
  id : string;
  timestamp : Z;
  imageUrl : string;
  fileName : string;
  analysis : string;
  confidence : float;
  tags : list string
}.

(** ** The [useImageAnalysis] hook *)

Module ImageAnalysis.

(** The three [useState] cells. *)
Record HookState := mkHook {
  results : list AnalysisResult;
  progressState : UploadProgress;
  errorState : option string
}.

(** A pending [setTimeout]: its delay and the progress value its callback
    passes to [setProgress]. *)
Record Timer := mkTimer {
  delay : Z;
  resetTo : UploadProgress
}.

(** The updates and calls the hook makes during a run, in order. *)
Inductive Event : Type :=
| SetProgress (p : UploadProgress)
| CallCompress (file : File)
| CallConvert (file : File)
| CallGemini (base64Image mimeType : string) (customPrompt : option string)
| ConsoleWarn (e : Exn)
| ConsoleError (e : Exn).

(** The page: the hook's state, the blob URL store, the pending timers
    (oldest first) and the events so far (oldest first). *)
Record Page := mkPage {
  hook : HookState;
  store : BlobStore;
  timers : list Timer;
  trace : list Event
}.

Definition initialHook : HookState :=
  {| results := [];
     progressState := {| progress := 0; status := idle; message := None |};
     errorState := None |}.

Definition initialPage : Page :=
  {| hook := initialHook;
     store := {| minted := 0; live := [] |};
     timers := [];
     trace := [] |}.

(** *** Statements that read or change the page, and may throw *)

Definition M (A : Type) : Type := Page -> Result A * Page.

Definition ret {A : Type} (a : A) : M A := fun pg => (Ok a, pg).

Definition throw {A : Type} (e : Exn) : M A := fun pg => (Throw e, pg).

Definition bind {A B : Type} (c : M A) (k : A -> M B) : M B :=
  fun pg =>
    match c pg with
    | (Ok a, pg') => k a pg'
    | (Throw e, pg') => (Throw e, pg')
    end.

Definition tryCatch {A : Type} (body : M A) (handler : Exn -> M A) : M A :=
  fun pg =>
    match body pg with
    | (Ok a, pg') => (Ok a, pg')
    | (Throw e, pg') => handler e pg'
    end.

Definition lift {A : Type} (r : Result A) : M A := fun pg => (r, pg).

Definition withStore {A : Type} (f : BlobStore -> A * BlobStore) : M A :=
  fun pg =>
    let '(a, st) := f (store pg) in
    (Ok a, {| hook := hook pg; store := st;
              timers := timers pg; trace := trace pg |}).

Definition emit (ev : Event) : M unit :=
  fun pg =>
    (Ok tt, {| hook := hook pg; store := store pg;
               timers := timers pg; trace := trace pg ++ [ev] |}).

Definition updateHook (f : HookState -> HookState) : M unit :=
  fun pg =>
    (Ok tt, {| hook := f (hook pg); store := store pg;
               timers := timers pg; trace := trace pg |}).

Definition setProgress (p : UploadProgress) : M unit :=
  bind (updateHook (fun h => {| results := results h;
                                 progressState := p;
                                 errorState := errorState h |}))
       (fun _ => emit (SetProgress p)).

Definition setError (e : option string) : M unit :=
  updateHook (fun h => {| results := results h;
                          progressState := progressState h;
                          errorState := e |}).

Definition setResults (f : list AnalysisResult -> list AnalysisResult)
  : M unit :=
  updateHook (fun h => {| results := f (results h);
                          progressState := progressState h;
                          errorState := errorState h |}).

Definition setTimeout (resetTo : UploadProgress) (delay : Z) : M unit :=
  fun pg =>
    (Ok tt, {| hook := hook pg; store := store pg;
               timers := timers pg ++ [mkTimer delay resetTo];
               trace := trace pg |}).

End ImageAnalysis.

Notation "'let*' x ':=' c 'in' k" := (ImageAnalysis.bind c (fun x => k))
  (at level 10, x name, c at level 100, k at level 200).
Notation "c ';;;' k" := (ImageAnalysis.bind c (fun _ => k))
  (at level 100, k at level 200, right associativity).

Module Hook.

Import ImageAnalysis.

(** The letters A to Z lowered, every other character kept. *)
Definition lowerChar (c : ascii) : ascii :=
  let n := nat_of_ascii c in
  if (65 <=? n)%nat && (n <=? 90)%nat then ascii_of_nat (n + 32) else c.

Fixpoint lowerAscii (s : string) : string :=
  match s with
  | EmptyString => EmptyString
  | String c s' => String (lowerChar c) (lowerAscii s')
  end.

(** [String.prototype.toLowerCase].  On a text of ASCII characters only
    it lowers the letters A to Z and keeps the rest; on any other text the
    result comes from the engine's Unicode tables, [lower] (which turn,
    for one, the Kelvin sign U+212A into the letter k). *)
Definition toLowerCase (lower : string -> string) (s : string) : string :=
  if JS.isAscii s then lowerAscii s else lower s.

Definition commonTags : list string :=
  [ "portrait"; "landscape"; "nature"; "urban"; "indoor"; "outdoor";
    "people"; "animals"; "architecture"; "food"; "technology"; "art";
    "colorful"; "monochrome"; "bright"; "dark"; "vintage"; "modern" ].

(** [extractTags(analysis)].  The argument is whatever the client returned;
    only a string has [toLowerCase]. *)
Definition extractTags (lower : string -> string) (analysis : JSON)
  : Result (list string) :=
  match analysis with
  | JStr text =>
      let lowerAnalysis := toLowerCase lower text in
      Ok (firstn 5 (filter (fun tag => JS.includes lowerAnalysis tag)
                           commonTags))
  | _ => Throw (ThrownTypeError "analysis.toLowerCase is not a function")
  end.

(** The [analysis] field of the result.  The result is built once
    [extractTags] has returned, which it does for a string only. *)
Definition analysisText (analysis : JSON) : string :=
  match analysis with
  | JStr text => text
  | _ => EmptyString
  end.

(** [Math.random() * 0.2 + 0.8]. *)
Definition simulatedConfidence (r : float) : float :=
  (r * 0.2 + 0.8)%float.

Definition compressionThreshold : Z := 2 * 1024 * 1024.

(** The [try] block of [analyzeImage]. *)
Definition analyzeSteps (w : World) (file : File)
           (customPrompt : option string) : M AnalysisResult :=
  (* Validate file *)
  let validation := ImageUtils.validateImageFile file in
  if negb (ImageUtils.isValid validation) then
    throw (ThrownError (JS.or_string (ImageUtils.error validation)
                                     "Invalid file"))
  else
    setProgress {| progress := 20; status := uploading;
                   message := Some "Compressing image..." |} ;;;
    (* Compress image if needed *)
    let* compressedFile :=
      tryCatch
        (if file_size file >? compressionThreshold then
           emit (CallCompress file) ;;;
           let* settled :=
             withStore (Compress.compressImage w file
                          Compress.defaultMaxWidth Compress.defaultQuality) in
           lift settled
         else ret file)
        (fun compressionError =>
           emit (ConsoleWarn compressionError) ;;;
           ret file) in
    setProgress {| progress := 40; status := uploading;
                   message := Some "Converting to base64..." |} ;;;
    (* Convert to base64 *)
    let* base64Image :=
      tryCatch
        (emit (CallConvert compressedFile) ;;;
         lift (Base64.convertToBase64 w compressedFile))
        (fun conversionError =>
           emit (ConsoleError conversionError) ;;;
           throw (ThrownError
                    "Failed to process image. Please try with a different image.")) in
    setProgress {| progress := 60; status := analyzing;
                   message := Some "Analyzing with Gemini AI..." |} ;;;
    (* Analyze with Gemini *)
    let* analysis :=
      tryCatch
        (emit (CallGemini base64Image (file_type compressedFile) customPrompt) ;;;
         lift (GeminiApi.analyzeImageWithGemini w base64Image
                 (file_type compressedFile) customPrompt))
        (fun apiError =>
           emit (ConsoleError apiError) ;;;
           match apiError with
           | ThrownApiError _ => throw apiError
           | _ => throw (ThrownError
                           "Failed to analyze image with AI. Please try again.")
           end) in
    setProgress {| progress := 90; status := analyzing;
                   message := Some "Processing results..." |} ;;;
    (* Create result: the fields are evaluated in the order written *)
    let* url := withStore URL.createObjectURL in
    let* tagList := lift (extractTags (lowerCase w) analysis) in
    let result :=
      {| id := JS.string_of_Z (dateNow w);
         timestamp := newDate w;
         imageUrl := url;
         fileName := file_name file;
         analysis := analysisText analysis;
         confidence := simulatedConfidence (mathRandom w);
         tags := tagList |} in
    setResults (fun prev => result :: prev) ;;;
    setProgress {| progress := 100; status := complete;
                   message := Some "Analysis complete!" |} ;;;
    (* Reset progress after a delay *)
    setTimeout {| progress := 0; status := idle; message := None |} 2000 ;;;
    ret result.

(** The [catch (err)] block of [analyzeImage]. *)
Definition onAnalysisError (err : Exn) : M (option AnalysisResult) :=
  emit (ConsoleError err) ;;;
  let errorMessage :=
    match err with
    | ThrownApiError e => api_message e
    | ThrownTypeError m | ThrownError m => m
    | ThrownValue _ => "An unexpected error occurred"
    end in
  setError (Some errorMessage) ;;;
  setProgress {| progress := 0; status := error;
                 message := Some errorMessage |} ;;;
  ret None.

(** [analyzeImage(file, customPrompt)]: one run, from the call to the
    settlement of the promise it returns ([None] is [null]). *)
Definition analyzeImage (w : World) (file : File)
           (customPrompt : option string) (pg : Page)
  : option AnalysisResult * Page :=
  let run : M (option AnalysisResult) :=
    setError None ;;;
    setProgress {| progress := 0; status := uploading;
                   message := Some "Validating file..." |} ;;;
    tryCatch
      (let* result := analyzeSteps w file customPrompt in ret (Some result))
      onAnalysisError in
  match run pg with
  | (Ok r, pg') => (r, pg')
  | (Throw _, pg') => (None, pg')     (* not reached: the handler returns *)
  end.

Definition clearResults (pg : Page) : Page :=
  snd ((setResults (fun _ => []) ;;; setError None) pg).

Definition removeResult (rid : string) (pg : Page) : Page :=
  snd (setResults
         (fun prev => filter (fun result => negb (String.eqb (id result) rid))
                             prev) pg).

(** A pending timer comes due: its callback runs. *)
Definition fireTimer (pg : Page) : Page :=
  match timers pg with
  | [] => pg
  | t :: rest =>
      snd (setProgress (resetTo t)
             {| hook := hook pg; store := store pg;
                timers := rest; trace := trace pg |})
  end.

(** All pending timers come due, oldest first. *)
Definition settle (pg : Page) : Page :=
  fold_left (fun p _ => fireTimer p) (timers pg) pg.

(** The progress values a list of events published, in order. *)
Definition published (evs : list Event) : list UploadProgress :=
  flat_map (fun ev => match ev with SetProgress p => [p] | _ => [] end) evs.

End Hook.

(** ** src/components/AnnotationCanvas.tsx: the marker set *)

Module AnnotationCanvas.

Local Open Scope float_scope.

Inductive Tool : Type := success | failure.

Record Point := mkPoint {
  x : float;
  y : float;
  type : Tool;
  id : string
}.

(** The two [useState] cells the click handler closes over. *)
Record State := mkState {
  points : list Point;
  currentTool : Tool
}.

Definition initialState : State :=
  {| points := []; currentTool := success |}.

Record MouseEvent := mkMouseEvent { clientX : float; clientY : float }.
Record DOMRect := mkRect { left : float; top : float }.

(** [d ** 2], the correctly rounded square. *)
Definition square (d : float) : float := d * d.

(** [Math.sqrt((point.x - x) ** 2 + (point.y - y) ** 2)]. *)
Definition distance (point : Point) (px py : float) : float :=
  PrimFloat.sqrt (square (x point - px) + square (y point - py)).

(** The predicate given to [findIndex]: [distance <= 15]. *)
Definition hit (px py : float) (point : Point) : bool :=
  distance point px py <=? 15.

(** [handleCanvasClick]: the handler closes over [points] and
    [currentTool] and hands [setPoints] an updater, which React applies to
    the state of the moment ([prev]). *)
Definition handleCanvasClick (points : list Point) (currentTool : Tool)
           (e : MouseEvent) (rect : DOMRect) (now : Z)
  : list Point -> list Point :=
  let x := clientX e - left rect in
  let y := clientY e - top rect in
  (* Check if clicking on existing point to remove it *)
  let clickedPointIndex := JS.findIndex (hit x y) points in
  if negb (clickedPointIndex =? -1)%Z then
    (* Remove clicked point *)
    fun prev =>
      JS.filter_index (fun index => negb (index =? clickedPointIndex)%Z) 0 prev
  else
    (* Add new point *)
    let newPoint :=
      {| x := x; y := y; type := currentTool; id := JS.string_of_Z now |} in
    fun prev => (prev ++ [newPoint])%list.

(** A click on the rendered canvas: the handler of the current render runs
    and its updater is applied to the current state. *)
Definition click (st : State) (e : MouseEvent) (rect : DOMRect) (now : Z)
  : State :=
  {| points :=
       handleCanvasClick (points st) (currentTool st) e rect now (points st);
     currentTool := currentTool st |}.

Definition setCurrentTool (tool : Tool) (st : State) : State :=
  {| points := points st; currentTool := tool |}.

(** [setPoints([])]. *)
Definition clearPoints (st : State) : State :=
  {| points := []; currentTool := currentTool st |}.

(** [setPoints(prev => prev.slice(0, -1))]. *)
Definition undoLastPoint (st : State) : State :=
  {| points := removelast (points st); currentTool := currentTool st |}.

(** A click at canvas coordinate [(px, py)], the canvas at the origin. *)
Definition clickAt (px py : float) : MouseEvent * DOMRect :=
  ({| clientX := px; clientY := py |}, {| left := 0; top := 0 |}).

(** The exact value of a finite number, in units of [2 ^ -1074]. *)
Definition exactValue (a : float) : option Z :=
  match Prim2SF a with
  | S754_zero _ => Some 0%Z
  | S754_finite s m e =>
      let v := (Zpos m * 2 ^ (e + 1074))%Z in
      Some (if s then (- v)%Z else v)
  | _ => None
  end.

(** The test in the words of the specification: the Euclidean distance
    from the marker to [(px, py)] is at most 15, in exact arithmetic
    ([None] where a coordinate is no finite number). *)
Definition withinEuclidean15 (px py : float) (point : Point) : option bool :=
  match exactValue (x point), exactValue (y point),
        exactValue px, exactValue py with
  | Some mx, Some my, Some cx, Some cy =>
      Some ((mx - cx) ^ 2 + (my - cy) ^ 2 <=? 15 ^ 2 * (2 ^ 1074) ^ 2)%Z
  | _, _, _, _ => None
  end.

End AnnotationCanvas.

(** ** The statuses and the error body of a response that is not ok *)

Module Classification.

(** The four statuses the client names itself. *)
Definition namedStatus (s : Z) : bool :=
  (s =? 400) || (s =? 401) || (s =? 403) || (s =? 429).

(** The body of an error response as the client reads it: the parsed JSON,
    or the empty object when the body does not parse. *)
Definition errorData (r : Response) : JSON :=
  match resp_json r with
  | Ok j => j
  | Throw _ => JObj []
  end.

End Classification.

(** ** Runs of the orchestrator: what is observed of one *)

Module Run.

Import ImageAnalysis Hook.

(** The events one run of [analyzeImage] adds to the page's trace. *)
Definition runEvents (w : World) (file : File) (customPrompt : option string)
           (pg : Page) : list Event :=
  skipn (List.length (trace pg))
        (trace (snd (analyzeImage w file customPrompt pg))).

(** The local [compressedFile] of a run: the file handed to the encoder. *)
Definition compressedFile (w : World) (file : File) (st : BlobStore) : File :=
  if file_size file >? compressionThreshold then
    match fst (Compress.compressImage w file Compress.defaultMaxWidth
                 Compress.defaultQuality st) with
    | Ok cf => cf
    | Throw _ => file
    end
  else file.

(** The message the [catch] block of [analyzeImage] derives from what was
    thrown. *)
Definition errorMessageOf (err : Exn) : string :=
  match err with
  | ThrownApiError e => api_message e
  | ThrownTypeError m | ThrownError m => m
  | ThrownValue _ => "An unexpected error occurred"
  end.

(** The fatal failures of a run, each with the message it surfaces:
    validation, encoding, the remote call, and the assembly of the result
    from an analysis that is no text. *)
Inductive FatalFailure (w : World) (file : File)
          (customPrompt : option string) (pg : Page) : string -> Prop :=
| ValidationFailure :
    ImageUtils.isValid (ImageUtils.validateImageFile file) = false ->
    FatalFailure w file customPrompt pg
      (JS.or_string (ImageUtils.error (ImageUtils.validateImageFile file))
                    "Invalid file")
| EncodingFailure (e : Exn) :
    ImageUtils.isValid (ImageUtils.validateImageFile file) = true ->
    Base64.convertToBase64 w (compressedFile w file (store pg)) = Throw e ->
    FatalFailure w file customPrompt pg
      "Failed to process image. Please try with a different image."
| RemoteFailure (base64Image : string) (e : Exn) :
    ImageUtils.isValid (ImageUtils.validateImageFile file) = true ->
    Base64.convertToBase64 w (compressedFile w file (store pg))
      = Ok base64Image ->
    GeminiApi.analyzeImageWithGemini w base64Image
      (file_type (compressedFile w file (store pg))) customPrompt = Throw e ->
    FatalFailure w file customPrompt pg
      (match e with
       | ThrownApiError a => api_message a
       | _ => "Failed to analyze image with AI. Please try again."
       end)
| AssemblyFailure (base64Image : string) (text : JSON) (e : Exn) :
    ImageUtils.isValid (ImageUtils.validateImageFile file) = true ->
    Base64.convertToBase64 w (compressedFile w file (store pg))
      = Ok base64Image ->
    GeminiApi.analyzeImageWithGemini w base64Image
      (file_type (compressedFile w file (store pg))) customPrompt = Ok text ->
    extractTags (lowerCase w) text = Throw e ->
    FatalFailure w file customPrompt pg (errorMessageOf e).

(** A list of integers never goes down. *)
Fixpoint nondecreasing (l : list Z) : bool :=
  match l with
  | a :: (b :: _) as rest => (a <=? b) && nondecreasing rest
  | _ => true
  end.

(** The order of the phases: Idle, Uploading, Analyzing, then the two
    terminal phases. *)
Definition rank (s : Status) : Z :=
  match s with
  | idle => 0
  | uploading => 1
  | analyzing => 2
  | complete | error => 3
  end.


(** The percent values and the phases one run publishes, in order. *)
Definition percents (w : World) (file : File) (customPrompt : option string)
           (pg : Page) : list Z :=
  map progress (published (runEvents w file customPrompt pg)).

Definition phases (w : World) (file : File) (customPrompt : option string)
           (pg : Page) : list Status :=
  map status (published (runEvents w file customPrompt pg)).

Definition idleProgress : UploadProgress :=
  {| progress := 0; status := idle; message := None |}.

(** The first progress updates of a run. *)
Definition progress0 : UploadProgress :=
  {| progress := 0; status := uploading;
     message := Some "Validating file..." |}.
Definition progress20 : UploadProgress :=
  {| progress := 20; status := uploading;
     message := Some "Compressing image..." |}.
Definition progress40 : UploadProgress :=
  {| progress := 40; status := uploading;
     message := Some "Converting to base64..." |}.

End Run.

(** ** Sample worlds and files *)

Module Scenario.

(** A response body with the analysis text at
    [candidates[0].content.parts[0].text]. *)
Definition analysisBody (text : string) : JSON :=
  JObj [("candidates",
         JArr [JObj [("content",
                      JObj [("parts", JArr [JObj [("text", JStr text)]])])]])].

(** A browser with a key configured, in which the image decodes with the
    given dimensions, the canvas encodes to [width * height] bytes, the
    reader and the endpoint answer as given, [Math.random()] is [r] and
    the two readings of the clock fall in the same millisecond.  No
    scenario below prints a number or lowers a text that is not ASCII, so
    that what stands for these two tables is never consulted. *)
Definition world (canvas : bool) (dims : Z * Z) (reader : ReaderEvent)
           (answer : Result Response) (r : float) : World :=
  {| getContext2d := canvas;
     decodeImage := fun _ => Some dims;
     drawImage := fun _ _ _ => None;
     toBlob := fun _ cw ch _ => Some (cw * ch);
     readAsDataURL := fun _ => reader;
     apiKey := Some "AIzaSyA-sample-key-0123456789";
     fetch := fun _ => answer;
     dateNow := 1700000000000;
     newDate := 1700000000000;
     mathRandom := r;
     numberToString := fun _ => "0";
     lowerCase := Hook.lowerAscii |}.

(** The same browser, the clock passing to the next millisecond between
    [Date.now()] and [new Date()]. *)
Definition tick (w : World) : World :=
  {| getContext2d := getContext2d w;
     decodeImage := decodeImage w;
     drawImage := drawImage w;
     toBlob := toBlob w;
     readAsDataURL := readAsDataURL w;
     apiKey := apiKey w;
     fetch := fetch w;
     dateNow := dateNow w;
     newDate := dateNow w + 1;
     mathRandom := mathRandom w;
     numberToString := numberToString w;
     lowerCase := lowerCase w |}.

(** The same browser, the endpoint answering as given. *)
Definition answering (w : World) (answer : Result Response) : World :=
  {| getContext2d := getContext2d w;
     decodeImage := decodeImage w;
     drawImage := drawImage w;
     toBlob := toBlob w;
     readAsDataURL := readAsDataURL w;
     apiKey := apiKey w;
     fetch := fun _ => answer;
     dateNow := dateNow w;
     newDate := newDate w;
     mathRandom := mathRandom w;
     numberToString := numberToString w;
     lowerCase := lowerCase w |}.

Definition pngDataUrl : ReaderEvent :=
  ReaderLoad (Some "data:image/png;base64,iVBORw0KGgo=").

(** The stubbed endpoint of the accepted-upload scenario. *)
Definition goodSpread : World :=
  world true (3000, 2000) pngDataUrl
        (Ok {| resp_status := 200;
               resp_json := Ok (analysisBody "Good spread") |})
        0.5%float.

(** The endpoint answers HTTP 429. *)
Definition rateLimited : World :=
  world true (3000, 2000) pngDataUrl
        (Ok {| resp_status := 429; resp_json := Throw (ThrownError "no body") |})
        0.5%float.

(** The endpoint answers HTTP 500 with the body [null]. *)
Definition serverErrorNull : World :=
  world true (3000, 2000) pngDataUrl
        (Ok {| resp_status := 500; resp_json := Ok JNull |})
        0.5%float.


(** No 2d context: every compression fails. *)
Definition noCanvas : World :=
  world false (3000, 2000) pngDataUrl
        (Ok {| resp_status := 200;
               resp_json := Ok (analysisBody "Good spread") |})
        0.5%float.

(** An image of 1200 by 900 pixels, already within the maximum width. *)
Definition smallImage : World :=
  world true (1200, 900) pngDataUrl
        (Ok {| resp_status := 200;
               resp_json := Ok (analysisBody "Good spread") |})
        0.5%float.

(** [Math.random()] returns the largest number below 1. *)
Definition largestRandom : World :=
  world true (3000, 2000) pngDataUrl
        (Ok {| resp_status := 200;
               resp_json := Ok (analysisBody "Good spread") |})
        0x1.fffffffffffffp-1%float.

Definition png500k : File :=
  {| file_name := "court.png"; file_type := "image/png";
     file_size := 500 * 1024 |}.

Definition png3M : File :=
  {| file_name := "court.png"; file_type := "image/png";
     file_size := 3 * 1024 * 1024 |}.

Definition jpeg11M : File :=
  {| file_name := "court.jpg"; file_type := "image/jpeg";
     file_size := 11 * 1024 * 1024 |}.

End Scenario.

(** ** Binary64 constants of the confidence score *)

Module Binary64.

(** The mantissa shared by the doubles nearest to 0.2 and to 0.8. *)
Definition m02 : positive := 7205759403792794.

(** [0.2], [0.8] and [1] as the specification of floats has them. *)
Definition c02S : spec_float := S754_finite false m02 (-55).
Definition c08S : spec_float := S754_finite false m02 (-53).
Definition oneS : spec_float := S754_finite false 4503599627370496 (-52).

(** Zero, or a positive number that is at most 0.2. *)
Definition at_most_c02 (x : spec_float) : Prop :=
  match x with
  | S754_zero _ => True
  | S754_finite false mx ex => ex <= -56 \/ (ex = -55 /\ Zpos mx <= Zpos m02)
  | _ => False
  end.

(** A number from 0.8 to 1, both included. *)
Definition from_c08_to_one (y : spec_float) : Prop :=
  match y with
  | S754_finite false my ey =>
      (ey = -53 /\ Zpos m02 <= Zpos my) \/ y = oneS
  | _ => False
  end.

End Binary64.

(** ** The settings modal: the API key field *)

Module SettingsModal.

Record State := mkState {
  apiKey : string;
  isValidKey : bool
}.

Definition initialState : State := {| apiKey := ""; isValidKey := false |}.

(** The effect that runs on mount, [currentKey] being
    [import.meta.env.VITE_GEMINI_API_KEY]: a configured key is shown, and
    shown as valid. *)
Definition onMount (currentKey : option string) (st : State) : State :=
  match currentKey with
  | Some key =>
      if negb (String.eqb key "")
         && negb (String.eqb key "your_gemini_api_key_here")
      then {| apiKey := key; isValidKey := true |}
      else st
  | None => st
  end.

(** [key.length > 20 && key.startsWith('AIza')]. *)
Definition validateApiKey (key : string) : bool :=
  (20 <? JS.length key)%nat && prefix "AIza" key.

Definition handleApiKeyChange (value : string) (st : State) : State :=
  {| apiKey := value; isValidKey := validateApiKey value |}.

End SettingsModal.

(** ** The 2d context: the calls made on it, in order *)

Module Context2d.

Local Open Scope float_scope.

Inductive CanvasCall : Type :=
| SetFillStyle (style : string)
| SetStrokeStyle (style : string)
| SetLineWidth (width : float)
| SetLineCap (cap : string)
| SetLineJoin (join : string)
| SetFont (font : string)
| SetTextAlign (align : string)
| SetTextBaseline (baseline : string)
| ClearRect (x y w h : float)
| FillRect (x y w h : float)
| StrokeRect (x y w h : float)
| DrawImage (x y w h : float)
| BeginPath
| MoveTo (x y : float)
| LineTo (x y : float)
| Arc (x y radius startAngle endAngle : float)
| Fill
| Stroke
| FillText (text : string) (x y : float)
| Save
| Translate (x y : float)
| Rotate (angle : float)
| Restore.

(** [Math.PI]. *)
Definition PI : float := 0x1.921fb54442d18p+1%float.

(** The current transformation, as far as a drawing is followed: the
    axes of the canvas moved to an origin, those axes turned about their
    origin by [rotate], or anything else. *)
Inductive Frame : Type :=
| Upright (ox oy : float)
| Turned (ox oy : float)
| Unfollowed.

Definition translate (a b : float) (f : Frame) : Frame :=
  match f with
  | Upright ox oy => Upright (ox + a) (oy + b)
  | _ => Unfollowed
  end.

Definition rotate (f : Frame) : Frame :=
  match f with
  | Upright ox oy | Turned ox oy => Turned ox oy
  | Unfollowed => Unfollowed
  end.

(** Where the point [(x, y)] handed to a call lies on the canvas: turned
    axes keep their origin in place, and only that point is followed. *)
Definition place (f : Frame) (x y : float) : option (float * float) :=
  match f with
  | Upright ox oy => Some (ox + x, oy + y)
  | Turned ox oy => if (x =? 0) && (y =? 0) then Some (ox, oy) else None
  | Unfollowed => None
  end.

(** The points the calls of a drawing touch, on the canvas and in order:
    two opposite corners of a rectangle, the end of a line, the centre of
    an arc, the anchor of a text.  [save] and [restore] keep and bring
    back the transformation. *)
Fixpoint touched (f : Frame) (saved : list Frame) (calls : list CanvasCall)
  : list (option (float * float)) :=
  match calls with
  | [] => []
  | call :: rest =>
      match call with
      | Save => touched f (f :: saved) rest
      | Restore =>
          match saved with
          | f' :: saved' => touched f' saved' rest
          | [] => touched f [] rest
          end
      | Translate a b => touched (translate a b f) saved rest
      | Rotate _ => touched (rotate f) saved rest
      | ClearRect x y w h | FillRect x y w h | StrokeRect x y w h
      | DrawImage x y w h =>
          place f x y :: place f (x + w) (y + h) :: touched f saved rest
      | MoveTo x y | LineTo x y | FillText _ x y | Arc x y _ _ _ =>
          place f x y :: touched f saved rest
      | _ => touched f saved rest
      end
  end.

(** The texts of a drawing, each with its anchor on the canvas. *)
Fixpoint labels (f : Frame) (saved : list Frame) (calls : list CanvasCall)
  : list (string * option (float * float)) :=
  match calls with
  | [] => []
  | call :: rest =>
      match call with
      | Save => labels f (f :: saved) rest
      | Restore =>
          match saved with
          | f' :: saved' => labels f' saved' rest
          | [] => labels f [] rest
          end
      | Translate a b => labels (translate a b f) saved rest
      | Rotate _ => labels (rotate f) saved rest
      | FillText text x y => (text, place f x y) :: labels f saved rest
      | _ => labels f saved rest
      end
  end.

End Context2d.

(** ** src/utils/courtGenerator.ts *)

Module CourtGenerator.

Import Context2d.
Local Open Scope float_scope.

Definition COURT_width : float := 540.
Definition COURT_height : float := 270.
Definition COURT_lineWidth : float := 2.

Definition COLOR_court : string := "#D4A574".
Definition COLOR_lines : string := "#FFFFFF".
Definition COLOR_net : string := "#2D3748".
Definition COLOR_background : string := "#8FBC8F".
Definition COLOR_shadow : string := "rgba(0, 0, 0, 0.1)".

(** [for (let i = start; i <= limit; i += step) body(i)]; [fuel] bounds
    the number of rounds. *)
Fixpoint forUpTo (fuel : nat) (i limit step : float)
         (body : float -> list CanvasCall) : list CanvasCall :=
  match fuel with
  | O => []
  | S fuel' =>
      if i <=? limit
      then (body i ++ forUpTo fuel' (i + step) limit step body)%list
      else []
  end.

(** [beginPath], [moveTo], [lineTo], [stroke]: one stroked segment. *)
Definition segment (x1 y1 x2 y2 : float) : list CanvasCall :=
  [BeginPath; MoveTo x1 y1; LineTo x2 y2; Stroke].

Definition padding : float := 60.
Definition canvasWidth : float := COURT_width + padding * 2.
Definition canvasHeight : float := COURT_height + padding * 2.

(** Everything drawn between [getContext] and [toBlob]. *)
Definition drawCourt : list CanvasCall :=
  let courtX := padding in
  let courtY := padding in
  let centerX := courtX + COURT_width / 2 in
  let attackLineDistance := 90 in
  let leftAttackX := centerX - attackLineDistance in
  let rightAttackX := centerX + attackLineDistance in
  let serviceLineY1 := courtY + COURT_height * 0.25 in
  let serviceLineY2 := courtY + COURT_height * 0.75 in
  let netY := courtY - 10 in
  let netHeight := COURT_height + 20 in
  ([ SetFillStyle COLOR_background;
     FillRect 0 0 canvasWidth canvasHeight;
     SetFillStyle COLOR_shadow;
     FillRect (courtX + 4) (courtY + 4) COURT_width COURT_height;
     SetFillStyle COLOR_court;
     FillRect courtX courtY COURT_width COURT_height;
     SetStrokeStyle COLOR_lines;
     SetLineWidth COURT_lineWidth;
     SetLineCap "round";
     SetLineJoin "round";
     StrokeRect courtX courtY COURT_width COURT_height ]
   ++ segment centerX courtY centerX (courtY + COURT_height)
   ++ segment leftAttackX courtY leftAttackX (courtY + COURT_height)
   ++ segment rightAttackX courtY rightAttackX (courtY + COURT_height)
   ++ segment courtX serviceLineY1 leftAttackX serviceLineY1
   ++ segment courtX serviceLineY2 leftAttackX serviceLineY2
   ++ segment rightAttackX serviceLineY1 (courtX + COURT_width) serviceLineY1
   ++ segment rightAttackX serviceLineY2 (courtX + COURT_width) serviceLineY2
   ++ [ SetFillStyle COLOR_net;
        FillRect (centerX - 3) netY 6 netHeight;
        SetStrokeStyle COLOR_net;
        SetLineWidth 1 ]
   ++ forUpTo 100 (-15) 15 5
        (fun i => segment (centerX + i) netY (centerX + i) (netY + netHeight))
   ++ forUpTo 100 0 netHeight 8
        (fun i => segment (centerX - 15) (netY + i) (centerX + 15) (netY + i))
   ++ [ SetFillStyle COLOR_lines;
        SetFont "bold 14px Arial";
        SetTextAlign "center";
        SetTextBaseline "middle";
        FillText "Team A" (courtX + COURT_width * 0.25)
                 (courtY + COURT_height * 0.5);
        FillText "Team B" (courtX + COURT_width * 0.75)
                 (courtY + COURT_height * 0.5);
        SetFont "12px Arial";
        SetFillStyle COLOR_net;
        FillText "18m" (courtX + COURT_width / 2) (courtY - 25);
        Save;
        Translate (courtX - 25) (courtY + COURT_height / 2);
        Rotate (- PI / 2);
        FillText "9m" 0 0;
        Restore ])%list.

(** What the generator consults outside the sources: whether
    [getContext('2d')] is not null, and the blob [toBlob] hands to its
    callback for a canvas of the given size with the given drawing, type
    and quality (the size of the blob, or a null blob). *)
Record Environment := mkEnvironment {
  hasContext : bool;
  encode : Z -> Z -> list CanvasCall -> string -> float -> option Z
}.

(** [generateVolleyballCourt()], the promise taken at its settlement.  No
    call of the model throws inside the [try], so its [catch] is not
    entered. *)
Definition generateVolleyballCourt (env : Environment) : Result File :=
  let width := Canvas.setDimension 300 canvasWidth in
  let height := Canvas.setDimension 150 canvasHeight in
  if negb (hasContext env) then
    Throw (ThrownError "Canvas context not available")
  else
    match encode env width height drawCourt "image/png" 0.95 with
    | Some size =>
        Ok {| file_name := "volleyball-court-default.png";
              file_type := "image/png";
              file_size := size |}
    | None => Throw (ThrownError "Failed to generate court image")
    end.

(** [generateCourtPreview()]: the generated file read as a data URL.
    The reader settles the promise from its [load] and [error] events
    only; were the read aborted, the promise would stay pending
    ([None]). *)
Definition generateCourtPreview (env : Environment)
           (read : File -> ReaderEvent) : option (Result string) :=
  match generateVolleyballCourt env with
  | Ok file =>
      match read file with
      | ReaderLoad (Some result) => Some (Ok result)
      | ReaderLoad None =>
          Some (Throw (ThrownError "Failed to convert court to data URL"))
      | ReaderError _ => Some (Throw (ThrownError "FileReader error"))
      | ReaderAbort => None
      end
  | Throw e => Some (Throw e)
  end.

End CourtGenerator.

(** ** src/components/AnnotationCanvas.tsx: sizing, redrawing, the counts *)

Module AnnotationView.

Import Context2d AnnotationCanvas.
Local Open Scope float_scope.

Definition maxWidth : float := 800.
Definition maxHeight : float := 600.

(** The sizing in [img.onload]: the two numbers [width] and [height] after
    the two conditionals. *)
Definition fitSize (imgWidth imgHeight : Z) : float * float :=
  let width := Number.of_Z imgWidth in
  let height := Number.of_Z imgHeight in
  let '(width, height) :=
    if maxWidth <? width then (maxWidth, (height * maxWidth) / width)
    else (width, height) in
  if maxHeight <? height then ((width * maxHeight) / height, maxHeight)
  else (width, height).

(** [canvas.width = width; canvas.height = height]. *)
Definition canvasAttributes (imgWidth imgHeight : Z) : Z * Z :=
  let '(width, height) := fitSize imgWidth imgHeight in
  (Canvas.setDimension 300 width, Canvas.setDimension 150 height).

(** The body of [points.forEach] in [redrawCanvas]. *)
Definition drawPoint (point : Point) : list CanvasCall :=
  [Save]
  ++ match type point with
     | success => [ SetStrokeStyle "#10B981";
                    SetFillStyle "rgba(16, 185, 129, 0.2)";
                    SetLineWidth 3 ]
     | failure => [ SetStrokeStyle "#EF4444";
                    SetFillStyle "rgba(239, 68, 68, 0.2)";
                    SetLineWidth 3 ]
     end
  ++ [ BeginPath;
       Arc (x point) (y point) 15 0 (2 * PI);
       Fill;
       Stroke;
       SetFillStyle (match type point with
                     | success => "#10B981"
                     | failure => "#EF4444"
                     end);
       SetFont "bold 16px Arial";
       SetTextAlign "center";
       SetTextBaseline "middle";
       FillText (match type point with success => "O" | failure => "X" end)
                (x point) (y point);
       Restore ].

(** [redrawCanvas] on a canvas whose attributes are [cw] and [ch]. *)
Definition redrawCanvas (cw ch : Z) (points : list Point) : list CanvasCall :=
  [ ClearRect 0 0 (Number.of_Z cw) (Number.of_Z ch);
    DrawImage 0 0 (Number.of_Z cw) (Number.of_Z ch) ]
  ++ flat_map drawPoint points.

Definition isType (t : Tool) (p : Point) : bool :=
  match t, type p with
  | success, success => true
  | failure, failure => true
  | _, _ => false
  end.

(** [points.filter(p => p.type === 'success').length] and its siblings. *)
Definition successCount (points : list Point) : Z :=
  Z.of_nat (List.length (filter (isType success) points)).
Definition failureCount (points : list Point) : Z :=
  Z.of_nat (List.length (filter (isType failure) points)).
Definition totalPoints (points : list Point) : Z :=
  successCount points + failureCount points.

(** The summary panel is rendered when [totalPoints > 0]. *)
Definition summaryShown (points : list Point) : bool :=
  (0 <? totalPoints points)%Z.

(** [disabled={points.length === 0}] on Undo, Clear All, Download and
    Analyze. *)
Definition actionsDisabled (points : list Point) : bool :=
  (Z.of_nat (List.length points) =? 0)%Z.

(** [handleSubmit]: [blob] is what [toBlob] hands to its callback; the
    result is the argument [onSubmitAnnotation] is called with, if it is
    called. *)
Definition handleSubmit (blob : option Z) : option Z :=
  match blob with
  | Some b => Some b
  | None => None
  end.

(** [link.download] in [handleDownload]. *)
Definition downloadName (imageFile : File) : string :=
  "annotated-" ++ file_name imageFile.

End AnnotationView.

(** ** src/components/ImageSelectionModal.tsx *)

Module ImageSelectionModal.

Record State := mkState {
  dragActive : bool;
  error : option string;
  isGeneratingCourt : bool
}.

Definition initialState : State :=
  {| dragActive := false; error := None; isGeneratingCourt := false |}.

(** The calls a handler makes on the props and the console, in order. *)
Inductive Callback : Type :=
| OnImageSelect (file : File)
| OnClose
| LogError (e : Exn).

Definition setDragActive (b : bool) (st : State) : State :=
  {| dragActive := b; error := error st;
     isGeneratingCourt := isGeneratingCourt st |}.

Definition setError (e : option string) (st : State) : State :=
  {| dragActive := dragActive st; error := e;
     isGeneratingCourt := isGeneratingCourt st |}.

Definition setIsGeneratingCourt (b : bool) (st : State) : State :=
  {| dragActive := dragActive st; error := error st;
     isGeneratingCourt := b |}.

(** [handleDrag], on the type of the drag event. *)
Definition handleDrag (eventType : string) (st : State) : State :=
  if String.eqb eventType "dragenter" || String.eqb eventType "dragover"
  then setDragActive true st
  else if String.eqb eventType "dragleave" then setDragActive false st
  else st.

Definition handleFileSelect (file : File) (st : State)
  : State * list Callback :=
  let validation := ImageUtils.validateImageFile file in
  if negb (ImageUtils.isValid validation) then
    (setError (Some (JS.or_string (ImageUtils.error validation)
                                  "Invalid file")) st, [])
  else
    (setError None st, [OnImageSelect file; OnClose]).

(** [handleDrop], on [e.dataTransfer.files]. *)
Definition handleDrop (files : list File) (st : State)
  : State * list Callback :=
  let st := setError None (setDragActive false st) in
  match files with
  | file :: _ => handleFileSelect file st
  | [] => (st, [])
  end.

(** [handleFileInput], on [e.target.files]. *)
Definition handleFileInput (files : list File) (st : State)
  : State * list Callback :=
  match files with
  | file :: _ => handleFileSelect file st
  | [] => (st, [])
  end.

(** [handleDefaultImageSelect], from the click to the end of [finally]. *)
Definition handleDefaultImageSelect (env : CourtGenerator.Environment)
           (st : State) : State * list Callback :=
  let st := setError None (setIsGeneratingCourt true st) in
  let '(st, calls) :=
    match CourtGenerator.generateVolleyballCourt env with
    | Ok courtFile => (st, [OnImageSelect courtFile; OnClose])
    | Throw e =>
        (setError
           (Some "Failed to generate volleyball court. Please try uploading your own image.")
           st,
         [LogError e])
    end in
  (setIsGeneratingCourt false st, calls).

(** What the user does to the open modal.  The button of the header has
    the [onClose] prop itself as its handler. *)
Inductive Action : Type :=
| Drag (eventType : string)
| Drop (files : list File)
| FileInput (files : list File)
| UseGeneratedCourt (env : CourtGenerator.Environment)
| ClickClose.

Definition step (a : Action) (st : State) : State * list Callback :=
  match a with
  | Drag eventType => (handleDrag eventType st, [])
  | Drop files => handleDrop files st
  | FileInput files => handleFileInput files st
  | UseGeneratedCourt env => handleDefaultImageSelect env st
  | ClickClose => (st, [OnClose])
  end.

(** A sequence of actions, with the calls made along it. *)
Fixpoint run (actions : list Action) (st : State) : State * list Callback :=
  match actions with
  | [] => (st, [])
  | a :: rest =>
      let '(st1, calls1) := step a st in
      let '(st2, calls2) := run rest st1 in
      (st2, (calls1 ++ calls2)%list)
  end.

End ImageSelectionModal.

(** ** src/components/ImageUpload.tsx *)

Module ImageUpload.

Record State := mkState {
  dragActive : bool;
  customPrompt : string;
  showCustomPrompt : bool;
  selectedFile : option File;
  showOptions : bool;
  showImageChoice : bool
}.

Definition initialState : State :=
  {| dragActive := false; customPrompt := ""; showCustomPrompt := false;
     selectedFile := None; showOptions := false; showImageChoice := false |}.

(** The calls a handler makes on the props, in order. *)
Inductive Callback : Type :=
| OnImageSelect (file : File) (customPrompt : option string)
| OnImageAnnotate (file : File)
| OnDefaultImageSelect.

Definition setDragActive (b : bool) (st : State) : State :=
  {| dragActive := b; customPrompt := customPrompt st;
     showCustomPrompt := showCustomPrompt st;
     selectedFile := selectedFile st; showOptions := showOptions st;
     showImageChoice := showImageChoice st |}.

Definition setCustomPrompt (value : string) (st : State) : State :=
  {| dragActive := dragActive st; customPrompt := value;
     showCustomPrompt := showCustomPrompt st;
     selectedFile := selectedFile st; showOptions := showOptions st;
     showImageChoice := showImageChoice st |}.

Definition setShowCustomPrompt (b : bool) (st : State) : State :=
  {| dragActive := dragActive st; customPrompt := customPrompt st;
     showCustomPrompt := b;
     selectedFile := selectedFile st; showOptions := showOptions st;
     showImageChoice := showImageChoice st |}.

Definition setSelectedFile (f : option File) (st : State) : State :=
  {| dragActive := dragActive st; customPrompt := customPrompt st;
     showCustomPrompt := showCustomPrompt st;
     selectedFile := f; showOptions := showOptions st;
     showImageChoice := showImageChoice st |}.

Definition setShowOptions (b : bool) (st : State) : State :=
  {| dragActive := dragActive st; customPrompt := customPrompt st;
     showCustomPrompt := showCustomPrompt st;
     selectedFile := selectedFile st; showOptions := b;
     showImageChoice := showImageChoice st |}.

Definition setShowImageChoice (b : bool) (st : State) : State :=
  {| dragActive := dragActive st; customPrompt := customPrompt st;
     showCustomPrompt := showCustomPrompt st;
     selectedFile := selectedFile st; showOptions := showOptions st;
     showImageChoice := b |}.

Definition handleDrag (eventType : string) (st : State) : State :=
  if String.eqb eventType "dragenter" || String.eqb eventType "dragover"
  then setDragActive true st
  else if String.eqb eventType "dragleave" then setDragActive false st
  else st.

(** [if (files && files[0]) { setSelectedFile(files[0]);
    setShowOptions(true); }]. *)
Definition selectFirst (files : list File) (st : State) : State :=
  match files with
  | file :: _ => setShowOptions true (setSelectedFile (Some file) st)
  | [] => st
  end.

Definition handleDrop (disabled : bool) (files : list File) (st : State)
  : State :=
  let st := setDragActive false st in
  if disabled then st else selectFirst files st.

Definition handleFileSelect (files : list File) (st : State) : State :=
  selectFirst files st.

(** [customPrompt || undefined]. *)
Definition promptOrUndefined (customPrompt : string) : option string :=
  if String.eqb customPrompt "" then None else Some customPrompt.

Definition handleDirectAnalysis (st : State) : State * list Callback :=
  match selectedFile st with
  | Some file =>
      (setSelectedFile None (setShowOptions false st),
       [OnImageSelect file (promptOrUndefined (customPrompt st))])
  | None => (st, [])
  end.

Definition handleAnnotateFirst (st : State) : State * list Callback :=
  match selectedFile st with
  | Some file =>
      (setSelectedFile None (setShowOptions false st), [OnImageAnnotate file])
  | None => (st, [])
  end.

Definition handleGetStarted (st : State) : State :=
  setShowImageChoice true st.

Definition handleUseDefault (st : State) : State * list Callback :=
  (setShowImageChoice false st, [OnDefaultImageSelect]).

(** [handleUploadOwn], with the files the user picks in the file dialog
    it opens ([[]] when the dialog is dismissed). *)
Definition handleUploadOwn (files : list File) (st : State) : State :=
  selectFirst files (setShowImageChoice false st).

(** The Cancel button of the options panel. *)
Definition cancelOptions (st : State) : State :=
  setSelectedFile None (setShowOptions false st).

(** Which of the three renderings is on screen. *)
Inductive View : Type :=
| ImageChoice
| Options (file : File)
| DropZone.

Definition view (st : State) : View :=
  if showImageChoice st then ImageChoice
  else
    match showOptions st, selectedFile st with
    | true, Some file => Options file
    | _, _ => DropZone
    end.



(** What the user does, each action through the element that offers it. *)
Inductive Action : Type :=
| Drag (eventType : string)
| Drop (files : list File)
| ClickZone
| FileInput (files : list File)
| TogglePrompt
| TypePrompt (value : string)
| ClickUseDefault
| ClickUploadOwn (files : list File)
| ClickCancelChoice
| ClickAnnotateFirst
| ClickDirectAnalysis
| ClickCancelOptions.

(** An action on the rendering on screen, [disabled] being the value of
    the prop at that rendering.  An element that is not rendered does
    nothing; the drop zone, its button and its file input test or carry
    [disabled], the buttons of the other two renderings do not. *)
Definition step (disabled : bool) (a : Action) (st : State)
  : State * list Callback :=
  match view st, a with
  | DropZone, Drag eventType => (handleDrag eventType st, [])
  | DropZone, Drop files => (handleDrop disabled files st, [])
  | DropZone, ClickZone =>
      (if disabled then st else handleGetStarted st, [])
  | DropZone, FileInput files =>
      (if disabled then st else handleFileSelect files st, [])
  | DropZone, TogglePrompt =>
      (setShowCustomPrompt (negb (showCustomPrompt st)) st, [])
  | DropZone, TypePrompt value =>
      (if showCustomPrompt st then setCustomPrompt value st else st, [])
  | ImageChoice, ClickUseDefault => handleUseDefault st
  | ImageChoice, ClickUploadOwn files => (handleUploadOwn files st, [])
  | ImageChoice, ClickCancelChoice => (setShowImageChoice false st, [])
  | Options _, ClickAnnotateFirst => handleAnnotateFirst st
  | Options _, ClickDirectAnalysis => handleDirectAnalysis st
  | Options _, ClickCancelOptions => (cancelOptions st, [])
  | _, _ => (st, [])
  end.

(** A sequence of actions, each with the value the [disabled] prop has at
    the rendering it acts on. *)
Fixpoint run (actions : list (bool * Action)) (st : State)
  : State * list Callback :=
  match actions with
  | [] => (st, [])
  | (disabled, a) :: rest =>
      let '(st1, calls1) := step disabled a st in
      let '(st2, calls2) := run rest st1 in
      (st2, (calls1 ++ calls2)%list)
  end.

End ImageUpload.

(** ** Sessions: the operations of the hook, one after the other *)

Module Session.

Import ImageAnalysis Hook.

(** What happens to the page: a run of [analyzeImage] from the call to the
    settlement, [removeResult], [clearResults], or the oldest pending
    timer coming due. *)
Inductive Op : Type :=
| Analyze (w : World) (file : File) (customPrompt : option string)
| Remove (rid : string)
| Clear
| Fire.

Definition apply (op : Op) (pg : Page) : Page :=
  match op with
  | Analyze w file customPrompt => snd (analyzeImage w file customPrompt pg)
  | Remove rid => removeResult rid pg
  | Clear => clearResults pg
  | Fire => fireTimer pg
  end.

Definition after (ops : list Op) (pg : Page) : Page :=
  fold_left (fun p op => apply op p) ops pg.

(** The URL the store mints as its [k]-th. *)
Definition blobUrl (k : Z) : string := "blob:" ++ JS.string_of_Z k.

(** The runs of a session that got as far as minting a URL for their
    result: those whose remote call returned. *)
Definition minting (w : World) (file : File) (customPrompt : option string)
           (pg : Page) : bool :=
  existsb (fun ev => match ev with
                     | SetProgress p => (progress p =? 90)%Z
                     | _ => false
                     end)
          (Run.runEvents w file customPrompt pg).

End Session.

(** * Properties *)

(** ** The validator *)

Module Validator.

Import ImageUtils.

Lemma includes_validTypes (t : string) :
  JS.includes_elem validTypes t = true <-> accepted_type t.
Proof.
  unfold JS.includes_elem, validTypes, accepted_type; cbn [existsb].
  rewrite orb_false_r, !orb_true_iff, !String.eqb_eq.
  intuition congruence.
Qed.

Lemma includes_validTypes_false (t : string) :
  JS.includes_elem validTypes t = false <-> ~ accepted_type t.
Proof.
  rewrite <- includes_validTypes.
  destruct (JS.includes_elem validTypes t); split; congruence.
Qed.

(** C2. The validator answers "invalid, wrong type" exactly for a MIME
    type outside image/jpeg, image/png, image/webp; "invalid, too large"
    exactly for an accepted type whose size is strictly above 10 MiB;
    and "valid" (with no reason) in every other case.  A file of exactly
    10 MiB with an accepted type is therefore valid. *)
Theorem validateImageFile_spec (file : File) :
  (validateImageFile file
     = {| isValid := false; error := Some invalidTypeMessage |}
   <-> ~ accepted_type (file_type file))
  /\ (validateImageFile file
        = {| isValid := false; error := Some tooLargeMessage |}
      <-> accepted_type (file_type file)
          /\ file_size file > 10 * 1024 * 1024)
  /\ (validateImageFile file = {| isValid := true; error := None |}
      <-> accepted_type (file_type file)
          /\ file_size file <= 10 * 1024 * 1024)
  /\ (forall name t, accepted_type t ->
        isValid (validateImageFile (mkFile name t (10 * 1024 * 1024)))
          = true).
Proof.
  assert (Hmsg : invalidTypeMessage <> tooLargeMessage) by discriminate.
  unfold validateImageFile.
  destruct (JS.includes_elem validTypes (file_type file)) eqn:Hty; cbn [negb].
  - apply includes_validTypes in Hty.
    destruct (Z.gtb_spec (file_size file) maxSize) as [Hsz | Hsz];
      unfold maxSize in Hsz.
    + repeat split; try (intros; exfalso; (congruence || tauto || lia)); auto; try lia.
      intros name t Ht. apply includes_validTypes in Ht.
      cbn [file_type file_size]. rewrite Ht. reflexivity.
    + repeat split; try (intros; exfalso; (congruence || tauto || lia)); auto; try lia.
      intros name t Ht. apply includes_validTypes in Ht.
      cbn [file_type file_size]. rewrite Ht. reflexivity.
  - apply includes_validTypes_false in Hty.
    repeat split; try (intros; exfalso; (congruence || tauto || lia)); auto.
    intros name t Ht. apply includes_validTypes in Ht.
    cbn [file_type file_size]. rewrite Ht. reflexivity.
Qed.

End Validator.

(** ** Properties of the prelude *)

Local Open Scope list_scope.

Section FindIndex.

Context {A : Type} (p : A -> bool).

Lemma findIndex_ge (l : list A) : -1 <= JS.findIndex p l.
Proof.
  induction l as [| a l IH]; cbn; [lia |].
  destruct (p a); [lia |].
  destruct (Z.eqb_spec (JS.findIndex p l) (-1)); lia.
Qed.

Lemma findIndex_none (l : list A) :
  JS.findIndex p l = -1 <-> (forall a, In a l -> p a = false).
Proof.
  induction l as [| a l IH]; cbn.
  - split; [intros _ a [] | reflexivity].
  - destruct (p a) eqn:Hpa.
    + split; [discriminate |].
      intros H. specialize (H a (or_introl eq_refl)). congruence.
    + pose proof (findIndex_ge l) as Hge.
      destruct (Z.eqb_spec (JS.findIndex p l) (-1)) as [Heq | Hne].
      * split; [| reflexivity].
        intros _ b [<- | Hb]; [assumption | now apply IH].
      * split; [lia |].
        intros H. exfalso. apply Hne, IH. intros b Hb. apply H. now right.
Qed.

(** When [findIndex] finds something, it is the first element that
    satisfies the predicate, and the index is its position. *)
Lemma findIndex_first (l : list A) :
  JS.findIndex p l <> -1 ->
  exists before a after,
    l = before ++ a :: after
    /\ p a = true
    /\ (forall q, In q before -> p q = false)
    /\ JS.findIndex p l = Z.of_nat (List.length before).
Proof.
  induction l as [| a l IH]; cbn; [congruence |].
  destruct (p a) eqn:Hpa.
  - intros _. exists [], a, l. repeat split; auto. intros q [].
  - destruct (Z.eqb_spec (JS.findIndex p l) (-1)) as [Heq | Hne];
      [congruence |].
    intros _. destruct (IH Hne) as (before & b & after & -> & Hb & Hq & Hi).
    exists (a :: before), b, after. repeat split; auto.
    + intros q [<- | Hin]; auto.
    + rewrite Hi. cbn [List.length]. lia.
Qed.

Lemma filter_index_all (l : list A) (k start : Z) :
  k < start \/ start + Z.of_nat (List.length l) <= k ->
  JS.filter_index (fun index => negb (index =? k)) start l = l.
Proof.
  revert start. induction l as [| a l IH]; intros start H; cbn; [reflexivity |].
  cbn [List.length] in H.
  destruct (Z.eqb_spec start k) as [-> | Hne]; [lia |].
  cbn. rewrite IH; [reflexivity | lia].
Qed.

(** Filtering out one index removes exactly the element at that index. *)
Lemma filter_index_remove (before after : list A) (a : A) (start : Z) :
  JS.filter_index
    (fun index => negb (index =? start + Z.of_nat (List.length before)))
    start (before ++ a :: after)
  = before ++ after.
Proof.
  revert start. induction before as [| b before IH]; intros start; cbn.
  - rewrite Z.add_0_r, Z.eqb_refl. cbn.
    apply filter_index_all. lia.
  - destruct (Z.eqb_spec start (start + Z.pos (Pos.of_succ_nat (List.length before))))
      as [Heq | Hne]; [lia |].
    cbn. f_equal.
    replace (start + Z.pos (Pos.of_succ_nat (List.length before)))
      with (start + 1 + Z.of_nat (List.length before)) by lia.
    apply IH.
Qed.

End FindIndex.

(** ** The marker toggle *)

Module CanvasClick.

Import AnnotationCanvas.

Lemma no_hit_findIndex (pts : list Point) (px py : float) :
  (forall q, In q pts -> hit px py q = false) ->
  JS.findIndex (hit px py) pts = -1.
Proof. intros H. now apply findIndex_none. Qed.

Lemma some_hit_findIndex (pts : list Point) (px py : float) :
  (exists q, In q pts /\ hit px py q = true) ->
  JS.findIndex (hit px py) pts <> -1.
Proof.
  intros (q & Hin & Hq) Hnone.
  rewrite findIndex_none in Hnone. rewrite (Hnone q Hin) in Hq. discriminate.
Qed.

(** C1 (as stated, refuted).  The handler computes the distance in
    binary64, each difference, square, sum and root rounded, and near the
    circle of radius 15 its test and the Euclidean one part.  A marker
    that lies within Euclidean distance 15 of the click is not found: the
    click adds a second marker.  A marker that lies farther than 15 from
    the click is found and removed. *)
Lemma euclidean_distance_is_rounded :
  let near := {| x := 0x1.3782c13e5599fp+7; y := 0x1.4186e0bff2d16p+4;
                 type := success; id := "1" |} in
  let far := {| x := 15; y := 0x1p-30; type := success; id := "1" |} in
  let '(e1, r1) := clickAt 0x1.4581c1d2f2e0dp+7 0x1.b4fc589a661c5p+2 in
  let '(e2, r2) := clickAt 0 0 in
  withinEuclidean15 0x1.4581c1d2f2e0dp+7 0x1.b4fc589a661c5p+2 near = Some true
  /\ points (click {| points := [near]; currentTool := success |} e1 r1 2)
     = [ near;
         {| x := 0x1.4581c1d2f2e0dp+7; y := 0x1.b4fc589a661c5p+2;
            type := success; id := "2" |} ]
  /\ withinEuclidean15 0 0 far = Some false
  /\ points (click {| points := [far]; currentTool := success |} e2 r2 2)
     = [].
Proof. cbv zeta. repeat split; vm_compute; reflexivity. Qed.

(** Undo removes exactly the marker added last and Clear empties the set;
    on the empty set both change nothing. *)
Theorem undo_and_clear (st : State) (p : Point) :
  points (undoLastPoint {| points := points st ++ [p];
                           currentTool := currentTool st |})
    = points st
  /\ points (clearPoints st) = []
  /\ undoLastPoint initialState = initialState
  /\ clearPoints initialState = initialState.
Proof.
  split; [cbn [undoLastPoint points]; apply removelast_last |].
  repeat split.
Qed.

End CanvasClick.

(** ** The analysis client on a response that is not ok *)

Module GeminiStatus.

Import GeminiApi Classification.

(** With a configured key and a settled [fetch], the client's answer is the
    handling of the response under the [catch] block. *)
Lemma analyze_with_response (w : World) (key base64Image mimeType : string)
      (customPrompt : option string) (r : Response) :
  configuredKey w = Some key ->
  fetch w (buildRequest key base64Image mimeType
             (JS.or_string customPrompt defaultPrompt)) = Ok r ->
  analyzeImageWithGemini w base64Image mimeType customPrompt
  = Res.try_catch
      (if negb (resp_ok r) then failedResponse w r else readAnalysis w r)
      onRequestError.
Proof.
  intros Hkey Hfetch. unfold analyzeImageWithGemini.
  rewrite Hkey, Hfetch. reflexivity.
Qed.

Lemma getProp_not_null (v : JSON) (k : string) :
  v <> JNull ->
  Value_access.getProp v k = Ok (Value_access.getPropOpt (Some v) k).
Proof. destruct v; intros H; try reflexivity. congruence. Qed.

(** What the conversion of a value to a string throws, when it throws. *)
Definition conversionError : Exn :=
  ThrownTypeError "Cannot convert object to primitive value".

(** Induction on a JSON value, through its arrays and objects. *)
Lemma JSON_nested_ind (P : JSON -> Prop) :
  P JNull -> (forall b, P (JBool b)) -> (forall x, P (JNum x)) ->
  (forall s, P (JStr s)) ->
  (forall items, Forall P items -> P (JArr items)) ->
  (forall fields, Forall (fun kv => P (snd kv)) fields -> P (JObj fields)) ->
  forall v, P v.
Proof.
  intros HN HB HF HS HA HO. fix IH 1.
  intros [| b | x | s | items | fields];
    [exact HN | apply HB | apply HF | apply HS | apply HA | apply HO].
  - induction items as [| x l IHl]; constructor; [apply IH | exact IHl].
  - induction fields as [| kv l IHl]; constructor; [apply IH | exact IHl].
Qed.

Lemma joinElements_throws (f : JSON -> Result string) (c : Exn)
      (l : list JSON) :
  Forall (fun x => forall e, f x = Throw e -> e = c) l ->
  forall e, Value_access.joinElements f l = Throw e -> e = c.
Proof.
  induction 1 as [| x l Hx Hl IH]; intros e; cbn [Value_access.joinElements];
    [discriminate |].
  destruct (match x with JNull => Ok ""%string | _ => f x end)
    as [sx | ex] eqn:Hsx; cbn [Res.bind].
  - destruct l as [| y l']; [discriminate |].
    fold (Value_access.joinElements f (y :: l')).
    destruct (Value_access.joinElements f (y :: l')) as [rest | er] eqn:Hrest;
      cbn [Res.bind]; [discriminate |].
    intros H. inversion H; subst. now apply IH.
  - intros H. inversion H; subst.
    destruct x; try discriminate; now apply Hx.
Qed.

Lemma toString_throws (print : float -> string) (v : JSON) :
  forall e, Value_access.toString print v = Throw e -> e = conversionError.
Proof.
  induction v as [| b | x | s | items IH | fields _] using JSON_nested_ind;
    intros e; cbn [Value_access.toString]; try discriminate.
  - destruct b; discriminate.
  - now apply joinElements_throws.
  - destruct (Value.lookup "toString" fields); [| discriminate].
    intros H. inversion H. reflexivity.
Qed.

Lemma message_or_throws (print : float -> string) (v : option JSON)
      (fallback : string) (e : Exn) :
  message_or print v fallback = Throw e -> e = conversionError.
Proof.
  unfold message_or. destruct v as [j |]; [| discriminate].
  destruct (Value.truthy j); [apply toString_throws | discriminate].
Qed.

(** The handling of a response that is not ok, for every status and
    every body other than the JSON value [null]. *)
Lemma failedResponse_classified (w : World) (r : Response) :
  errorData r <> JNull \/ namedStatus (resp_status r) = true ->
  failedResponse w r
  = if resp_status r =? 400 then
      Throw (apiError "Invalid request. Please check your image format and try again."
                      (Some (JStr "INVALID_REQUEST")) None)
    else if resp_status r =? 401 then
      Throw (apiError "Invalid API key. Please check your Gemini API key configuration."
                      (Some (JStr "INVALID_API_KEY")) None)
    else if resp_status r =? 403 then
      Throw (apiError "API access forbidden. Please check your API key permissions."
                      (Some (JStr "FORBIDDEN")) None)
    else if resp_status r =? 429 then
      Throw (apiError "Rate limit exceeded. Please wait a moment and try again."
                      (Some (JStr "RATE_LIMIT")) None)
    else
      let err := Value_access.getPropOpt (Some (errorData r)) "error" in
      message <- message_or (numberToString w)
                   (Value_access.getPropOpt err "message")
                   ("API request failed with status "
                      ++ JS.string_of_Z (resp_status r))%string ;;
      Throw (apiError message
               (Some (value_or (Value_access.getPropOpt err "code")
                               (JStr "API_ERROR")))
               (Value_access.getPropOpt err "details")).
Proof.
  intros H. unfold failedResponse. fold (errorData r).
  unfold namedStatus in H.
  destruct (resp_status r =? 400); [reflexivity |].
  destruct (resp_status r =? 401); [reflexivity |].
  destruct (resp_status r =? 403); [reflexivity |].
  destruct (resp_status r =? 429); [reflexivity |].
  destruct H as [H | H]; [| discriminate].
  rewrite (getProp_not_null _ _ H). reflexivity.
Qed.

(** The five tags the client can attach by itself are pairwise distinct. *)
Lemma tags_pairwise_distinct :
  NoDup [ "INVALID_REQUEST"; "INVALID_API_KEY"; "FORBIDDEN"; "RATE_LIMIT";
          "API_ERROR" ]%string.
Proof.
  repeat constructor; cbn; intros H;
    repeat (destruct H as [H | H]; [discriminate |]); exact H.
Qed.

(** With a key configured and a response that is not ok, whose body is
    anything but the JSON value [null] (or whose status is one of the four
    named ones), the client fails with an [ApiError].  Its code is
    INVALID_REQUEST for 400, INVALID_API_KEY for 401, FORBIDDEN for 403 and
    RATE_LIMIT for 429.  For every other status the error carries the
    message the service sent, converted to a string, when that is truthy
    (the status otherwise), the code the service sent when truthy
    (API_ERROR otherwise) and its details, unless the conversion of the
    message throws: then the [catch] block reports UNKNOWN_ERROR with the
    generic message.  A message that is a string is carried as it is; one
    that is an object with a key toString of its own cannot be converted.
    The five tags differ. *)
Theorem non_ok_status_classified
        (w : World) (key base64Image mimeType : string)
        (customPrompt : option string) (r : Response) :
  configuredKey w = Some key ->
  fetch w (buildRequest key base64Image mimeType
             (JS.or_string customPrompt defaultPrompt)) = Ok r ->
  resp_ok r = false ->
  errorData r <> JNull \/ namedStatus (resp_status r) = true ->
  exists e,
    analyzeImageWithGemini w base64Image mimeType customPrompt
      = Throw (ThrownApiError e)
    /\ (resp_status r = 400 -> api_code e = Some (JStr "INVALID_REQUEST"))
    /\ (resp_status r = 401 -> api_code e = Some (JStr "INVALID_API_KEY"))
    /\ (resp_status r = 403 -> api_code e = Some (JStr "FORBIDDEN"))
    /\ (resp_status r = 429 -> api_code e = Some (JStr "RATE_LIMIT"))
    /\ (namedStatus (resp_status r) = false ->
        let err := Value_access.getPropOpt (Some (errorData r)) "error" in
        let sent := Value_access.getPropOpt err "message" in
        let fallback :=
          ("API request failed with status "
             ++ JS.string_of_Z (resp_status r))%string in
        match message_or (numberToString w) sent fallback with
        | Ok message =>
            api_message e = message
            /\ api_code e
               = Some (value_or (Value_access.getPropOpt err "code")
                                (JStr "API_ERROR"))
            /\ api_details e = Value_access.getPropOpt err "details"
        | Throw _ =>
            e = {| api_message :=
                     "Failed to analyze image. Please try again later.";
                   api_code := Some (JStr "UNKNOWN_ERROR");
                   api_details := None |}
        end
        /\ (Value.truthy_opt sent = false -> api_message e = fallback)
        /\ (forall s, sent = Some (JStr s) -> s <> ""%string ->
                      api_message e = s)
        /\ (forall fields v,
              sent = Some (JObj fields) ->
              Value.lookup "toString" fields = Some v ->
              api_code e = Some (JStr "UNKNOWN_ERROR")))
    /\ NoDup [ "INVALID_REQUEST"; "INVALID_API_KEY"; "FORBIDDEN";
               "RATE_LIMIT"; "API_ERROR" ]%string.
Proof.
  intros Hkey Hfetch Hok Hbody.
  rewrite (analyze_with_response _ _ _ _ _ _ Hkey Hfetch), Hok. cbn [negb].
  rewrite (failedResponse_classified w r Hbody).
  unfold namedStatus.
  destruct (Z.eqb_spec (resp_status r) 400) as [H400 | H400];
    [| destruct (Z.eqb_spec (resp_status r) 401) as [H401 | H401];
       [| destruct (Z.eqb_spec (resp_status r) 403) as [H403 | H403];
          [| destruct (Z.eqb_spec (resp_status r) 429) as [H429 | H429]]]].
  1-4: eexists; split; [reflexivity |];
    cbn [api_code api_message api_details orb];
    repeat split; try (intros; (reflexivity || lia || discriminate));
    apply tags_pairwise_distinct.
  cbv zeta.
  set (err := Value_access.getPropOpt (Some (errorData r)) "error").
  set (sent := Value_access.getPropOpt err "message").
  set (fallback := ("API request failed with status "
                      ++ JS.string_of_Z (resp_status r))%string).
  destruct (message_or (numberToString w) sent fallback) as [message | e0]
    eqn:Hmsg; cbn [Res.bind Res.try_catch].
  - eexists. split; [reflexivity |].
    cbn [api_code api_message api_details orb].
    repeat split; try (intros; (reflexivity || lia || discriminate));
      try apply tags_pairwise_distinct.
    + intros Hf. unfold message_or in Hmsg.
      destruct sent as [j |]; cbn [Value.truthy_opt] in Hf;
        [rewrite Hf in Hmsg |]; congruence.
    + intros s Hs Hne. rewrite Hs in Hmsg. cbn in Hmsg.
      apply String.eqb_neq in Hne. rewrite Hne in Hmsg. cbn in Hmsg.
      congruence.
    + intros fields v Hs Hl. rewrite Hs in Hmsg. cbn in Hmsg.
      rewrite Hl in Hmsg. discriminate.
  - rewrite (message_or_throws _ _ _ _ Hmsg). cbn.
    eexists. split; [reflexivity |].
    cbn [api_code api_message api_details orb].
    repeat split; try (intros; (reflexivity || lia || discriminate));
      try apply tags_pairwise_distinct.
    + intros Hf. unfold message_or in Hmsg.
      destruct sent as [j |]; cbn [Value.truthy_opt] in Hf;
        [rewrite Hf in Hmsg |]; discriminate.
    + intros s Hs Hne. rewrite Hs in Hmsg. cbn in Hmsg.
      apply String.eqb_neq in Hne. rewrite Hne in Hmsg. discriminate.
Qed.

(** HTTP 429 with a body that does not parse: RATE_LIMIT. *)
Lemma non_ok_status_classified_witness :
  exists e,
    analyzeImageWithGemini Scenario.rateLimited "iVBORw0KGgo=" "image/png" None
      = Throw (ThrownApiError e)
    /\ api_code e = Some (JStr "RATE_LIMIT").
Proof.
  destruct (non_ok_status_classified
              Scenario.rateLimited "AIzaSyA-sample-key-0123456789"
              "iVBORw0KGgo=" "image/png" None
              {| resp_status := 429;
                 resp_json := Throw (ThrownError "no body") |}
              eq_refl eq_refl eq_refl (or_intror eq_refl))
    as (e & Hrun & _ & _ & _ & H429 & _).
  exists e. split; [exact Hrun | exact (H429 eq_refl)].
Defined.

(** C4 (where the code departs from it). A response that is not ok, whose
    status is none of 400, 401, 403, 429 and whose body is the JSON value
    [null], makes the client read a property of [null]: the TypeError is
    caught by the client's own [catch] block and reported as UNKNOWN_ERROR
    with the generic message, not as API_ERROR with the status. *)
Theorem null_body_is_unknown_error
        (w : World) (key base64Image mimeType : string)
        (customPrompt : option string) (s : Z) :
  configuredKey w = Some key ->
  fetch w (buildRequest key base64Image mimeType
             (JS.or_string customPrompt defaultPrompt))
    = Ok {| resp_status := s; resp_json := Ok JNull |} ->
  (s < 200 \/ 299 < s) ->
  namedStatus s = false ->
  analyzeImageWithGemini w base64Image mimeType customPrompt
  = Throw (apiError "Failed to analyze image. Please try again later."
                    (Some (JStr "UNKNOWN_ERROR")) None).
Proof.
  intros Hkey Hfetch Hrange Hnamed.
  rewrite (analyze_with_response _ _ _ _ _ _ Hkey Hfetch).
  assert (Hok : resp_ok {| resp_status := s; resp_json := Ok JNull |} = false).
  { unfold resp_ok; cbn [resp_status].
    destruct (Z.leb_spec 200 s), (Z.leb_spec s 299); cbn; try reflexivity; lia. }
  rewrite Hok. cbn [negb]. unfold failedResponse; cbn [resp_status resp_json].
  unfold namedStatus in Hnamed.
  destruct (s =? 400); [discriminate |].
  destruct (s =? 401); [discriminate |].
  destruct (s =? 403); [discriminate |].
  destruct (s =? 429); [discriminate |].
  reflexivity.
Qed.

(** HTTP 500 with the body [null]: the client reports UNKNOWN_ERROR. *)
Lemma null_body_is_unknown_error_witness :
  analyzeImageWithGemini Scenario.serverErrorNull
    "iVBORw0KGgo=" "image/png" None
  = Throw (apiError
             "Failed to analyze image. Please try again later."
             (Some (JStr "UNKNOWN_ERROR")) None).
Proof.
  apply (null_body_is_unknown_error
           Scenario.serverErrorNull "AIzaSyA-sample-key-0123456789"
           "iVBORw0KGgo=" "image/png" None 500).
  - reflexivity.
  - reflexivity.
  - right. lia.
  - reflexivity.
Defined.

End GeminiStatus.

(** ** Properties of a run *)

Module RunProps.

Import ImageAnalysis Hook Run.

Lemma skipn_app_length {A : Type} (l r : list A) :
  skipn (List.length l) (l ++ r) = r.
Proof. induction l; cbn; auto. Qed.

(** Case analysis of a run along the answers of the world: the validator,
    the size test, the compressor, the encoder, the client, the tags. *)
Ltac run_unfold :=
  cbv [percents phases runEvents compressedFile analyzeImage analyzeSteps
       onAnalysisError setProgress setError setResults setTimeout updateHook
       emit withStore lift bind tryCatch ret throw].

Ltac run_simpl :=
  cbn -[Compress.compressImage Base64.convertToBase64
        GeminiApi.analyzeImageWithGemini extractTags
        ImageUtils.validateImageFile Z.gtb JS.string_of_Z
        simulatedConfidence URL.createObjectURL compressionThreshold
        skipn List.length nondecreasing] in *.

Ltac run_step :=
  match goal with
  | |- context [ImageUtils.isValid (ImageUtils.validateImageFile ?f)] =>
      destruct (ImageUtils.isValid (ImageUtils.validateImageFile f)) eqn:?Hvalid
  | |- context [file_size ?f >? compressionThreshold] =>
      destruct (file_size f >? compressionThreshold) eqn:?Hsize
  | |- context [Compress.compressImage ?w ?f ?a ?b ?s] =>
      destruct (Compress.compressImage w f a b s)
        as [[?cf | ?ce] ?st] eqn:?Hcompress
  | |- context [Base64.convertToBase64 ?w ?f] =>
      destruct (Base64.convertToBase64 w f) as [?b64 | ?e] eqn:?Hconvert
  | |- context [GeminiApi.analyzeImageWithGemini ?w ?b ?t ?p] =>
      destruct (GeminiApi.analyzeImageWithGemini w b t p)
        as [?text | [?ae | ?m | ?m | ?v]] eqn:?Hgemini
  | |- context [URL.createObjectURL ?s] =>
      destruct (URL.createObjectURL s) as [?url ?st] eqn:?Hurl
  | |- context [extractTags ?l ?a] =>
      destruct (extractTags l a) as [?tagList | ?e] eqn:?Htags
  end; run_simpl.

Ltac trace_norm :=
  rewrite <- ?app_assoc; cbn [app]; rewrite ?skipn_app_length.

Ltac run_cases :=
  match goal with
  | pg : Page |- _ => destruct pg as [[?rs ?pr ?er] ?st ?tm ?tr]
  end;
  run_unfold; run_simpl; repeat run_step; trace_norm.

Ltac size_facts :=
  repeat match goal with
         | H : (_ >? _) = true |- _ => apply Z.gtb_lt in H
         | H : (_ >? _) = false |- _ =>
             rewrite Z.gtb_ltb in H; apply Z.ltb_ge in H
         end;
  unfold compressionThreshold in *.

Ltac inject_results :=
  repeat match goal with
         | H : Ok _ = Ok _ |- _ => inversion H; clear H; subst
         | H : Throw _ = Throw _ |- _ => inversion H; clear H; subst
         | H : Ok _ = Throw _ |- _ => discriminate H
         | H : Throw _ = Ok _ |- _ => discriminate H
         | H : (_, _) = (_, _) |- _ => inversion H; clear H; subst
         | H1 : ?t = _, H2 : ?t = _ |- _ => rewrite H1 in H2
         end.

(** C3. A run ends in a fatal failure (it returns null) exactly when
    validation, encoding, the remote call or the assembly of the result
    fails; every such run leaves the progress in phase Error with percent 0
    and the failure's message, stores the same message as the error, and
    leaves the result list as it was before the run. *)
Theorem fatal_failure_sets_error
        (w : World) (file : File) (customPrompt : option string) (pg : Page) :
  let out := analyzeImage w file customPrompt pg in
  (fst out = None <-> exists msg, FatalFailure w file customPrompt pg msg)
  /\ (forall msg,
        FatalFailure w file customPrompt pg msg ->
        fst out = None
        /\ progressState (hook (snd out))
           = {| progress := 0; status := error; message := Some msg |}
        /\ errorState (hook (snd out)) = Some msg
        /\ results (hook (snd out)) = results (hook pg)).
Proof.
  cbv zeta. split.
  - split.
    + run_cases; intros Hnone; try discriminate; eexists.
      all: first
        [ now apply ValidationFailure
        | eapply EncodingFailure; unfold compressedFile; cbn [store];
          rewrite ?Hsize, ?Hcompress; cbn [fst]; eauto; fail
        | eapply RemoteFailure; unfold compressedFile; cbn [store];
          rewrite ?Hsize, ?Hcompress; cbn [fst]; eauto; fail
        | eapply AssemblyFailure; unfold compressedFile; cbn [store];
          rewrite ?Hsize, ?Hcompress; cbn [fst]; eauto ].
    + intros [msg HF]. destruct HF as [Hv | e Hv Hc | b e Hv Hc Hg | b t e Hv Hc Hg Ht];
        revert Hv; try revert Hc; try revert Hg; try revert Ht;
        run_cases; intros; try congruence.
      all: inject_results; congruence.
  - intros msg HF.
    destruct HF as [Hv | e Hv Hc | b e Hv Hc Hg | b t e Hv Hc Hg Ht];
      revert Hv; try revert Hc; try revert Hg; try revert Ht;
      run_cases; intros; try congruence.
    all: inject_results; unfold errorMessageOf; repeat split; congruence.
Qed.

(** The remote-429 scenario: the stubbed endpoint answers HTTP 429, the
    run ends in phase Error with the rate-limit message and the result
    list stays empty. *)
Lemma fatal_failure_sets_error_witness :
  let out := analyzeImage Scenario.rateLimited Scenario.png500k None
                          initialPage in
  fst out = None
  /\ progressState (hook (snd out))
     = {| progress := 0; status := error;
          message :=
            Some "Rate limit exceeded. Please wait a moment and try again."%string |}
  /\ errorState (hook (snd out))
     = Some "Rate limit exceeded. Please wait a moment and try again."%string
  /\ results (hook (snd out)) = results (hook initialPage).
Proof.
  cbv zeta.
  apply (proj2 (fatal_failure_sets_error Scenario.rateLimited Scenario.png500k
                  None initialPage)).
  exact (RemoteFailure Scenario.rateLimited Scenario.png500k None initialPage
           "iVBORw0KGgo="%string
           (GeminiApi.apiError
              "Rate limit exceeded. Please wait a moment and try again."
              (Some (JStr "RATE_LIMIT")) None)
           eq_refl eq_refl eq_refl).
Defined.

(** C5. For a file that passes validation, the run calls the compressor
    exactly when the size is strictly above 2 MiB, and only on that file; a
    smaller file goes to the encoder as it is; and when the compressor
    fails the run goes on: it warns, publishes the next progress, hands the
    original file to the encoder and the original type to the client, and
    completes whenever those two succeed. *)
Theorem compression_only_above_threshold
        (w : World) (file : File) (customPrompt : option string) (pg : Page) :
  ImageUtils.isValid (ImageUtils.validateImageFile file) = true ->
  let out := analyzeImage w file customPrompt pg in
  let evs := runEvents w file customPrompt pg in
  (In (CallCompress file) evs <-> file_size file > 2 * 1024 * 1024)
  /\ (forall f, In (CallCompress f) evs -> f = file)
  /\ (file_size file <= 2 * 1024 * 1024 ->
      firstn 4 evs
      = [ SetProgress progress0; SetProgress progress20;
          SetProgress progress40; CallConvert file ])
  /\ (forall e,
        file_size file > 2 * 1024 * 1024 ->
        fst (Compress.compressImage w file Compress.defaultMaxWidth
               Compress.defaultQuality (store pg)) = Throw e ->
        firstn 6 evs
        = [ SetProgress progress0; SetProgress progress20;
            CallCompress file; ConsoleWarn e;
            SetProgress progress40; CallConvert file ]
        /\ (forall base64Image,
              Base64.convertToBase64 w file = Ok base64Image ->
              In (CallGemini base64Image (file_type file) customPrompt) evs)
        /\ (forall base64Image text,
              Base64.convertToBase64 w file = Ok base64Image ->
              GeminiApi.analyzeImageWithGemini w base64Image (file_type file)
                customPrompt = Ok (JStr text) ->
              exists result,
                fst out = Some result
                /\ analysis result = text
                /\ fileName result = file_name file
                /\ status (progressState (hook (snd out))) = complete)).
Proof.
  intros Hv. cbv zeta. unfold progress0, progress20, progress40.
  change (2 * 1024 * 1024) with compressionThreshold.
  split; [| split; [| split]].
  - revert Hv. run_cases; intros; try discriminate; size_facts.
    all: split; intros H; cbn in H |- *;
      repeat (destruct H as [H | H]; try discriminate H); try lia; try tauto.
  - revert Hv. run_cases; intros Hv f H; try discriminate; cbn in H;
      repeat (destruct H as [H | H]; try discriminate H); try tauto;
      congruence.
  - revert Hv. run_cases; intros; try discriminate; size_facts; try lia;
      reflexivity.
  - intros e Hsz Hc. revert Hv Hc.
    run_cases; intros; try discriminate; size_facts; try lia; inject_results.
    all: split; [reflexivity |]; split.
    all: intros; inject_results; try discriminate.
    all: try (cbn; tauto).
    all: try (eexists; repeat split; reflexivity).
    all: cbn in *; inject_results; try discriminate.
Qed.

(** A 3 MiB file in a browser without a 2d context: the compressor is
    called, fails, and the run completes on the original file. *)
Lemma compression_only_above_threshold_witness :
  ImageUtils.isValid (ImageUtils.validateImageFile Scenario.png3M) = true
  /\ fst (Compress.compressImage Scenario.noCanvas Scenario.png3M
            Compress.defaultMaxWidth Compress.defaultQuality
            (store initialPage))
     = Throw (ThrownError "Canvas context not available")
  /\ firstn 6 (runEvents Scenario.noCanvas Scenario.png3M None initialPage)
     = [ SetProgress progress0; SetProgress progress20;
         CallCompress Scenario.png3M;
         ConsoleWarn (ThrownError "Canvas context not available");
         SetProgress progress40; CallConvert Scenario.png3M ].
Proof.
  split; [reflexivity |]. split; [reflexivity |].
  exact (proj1
           (proj2 (proj2 (proj2
              (compression_only_above_threshold
                 Scenario.noCanvas Scenario.png3M None initialPage eq_refl)))
              (ThrownError "Canvas context not available")
              eq_refl eq_refl)).
Defined.



(** C8 (as stated, refuted). A run that ends in Error schedules no reset:
    after the run on an oversize file no timer is pending, and when every
    pending timer has fired the phase is still Error, not Idle. *)
Lemma error_phase_is_not_reset :
  let pg' := snd (analyzeImage Scenario.goodSpread Scenario.jpeg11M None
                               initialPage) in
  status (progressState (hook pg')) = error
  /\ timers pg' = []
  /\ status (progressState (hook (settle pg'))) <> idle.
Proof. cbv zeta. repeat split. discriminate. Qed.

(** C8 (amended). The phases a run publishes never go back in the order
    Uploading, Analyzing, terminal: the first is Uploading, all but the
    last are Uploading or Analyzing, the last is Complete or Error.  After
    Complete exactly one timer of 2000 ms is added, whose firing resets the
    progress to Idle at percent 0.  After Error no timer is added: the
    timers pending are those that were pending before the run.  So on a
    page with no timer pending the progress stays in phase Error with the
    failure's message, since nothing is left to fire; a timer left
    pending by an earlier run still fires and sets the progress it
    carries. *)
Theorem phases_advance_and_complete_resets
        (w : World) (file : File) (customPrompt : option string) (pg : Page) :
  let out := analyzeImage w file customPrompt pg in
  exists body final,
    published (runEvents w file customPrompt pg) = body ++ [final]
    /\ nondecreasing (map rank (phases w file customPrompt pg)) = true
    /\ hd_error (phases w file customPrompt pg) = Some uploading
    /\ Forall (fun p => status p = uploading \/ status p = analyzing) body
    /\ progressState (hook (snd out)) = final
    /\ ((fst out <> None
         /\ status final = complete
         /\ timers (snd out) = timers pg ++ [mkTimer 2000 idleProgress]
         /\ (timers pg = [] ->
             progressState (hook (fireTimer (snd out))) = idleProgress
             /\ timers (fireTimer (snd out)) = []))
        \/ (fst out = None
            /\ status final = error
            /\ (exists msg,
                  final = {| progress := 0; status := error;
                             message := Some msg |})
            /\ timers (snd out) = timers pg
            /\ (timers pg = [] ->
                fireTimer (snd out) = snd out /\ settle (snd out) = snd out)
            /\ (forall t rest,
                  timers pg = t :: rest ->
                  progressState (hook (fireTimer (snd out))) = resetTo t))).
Proof.
  cbv zeta. run_cases.
  all: cbn [published flat_map app map].
  all: match goal with
       | |- exists body final, ?l = _ /\ _ =>
           exists (removelast l), (last l idleProgress)
       end.
  all: cbn [removelast last]; split; [reflexivity |].
  all: split; [reflexivity |].
  all: split; [reflexivity |].
  all: split;
    [ repeat first
        [ apply Forall_nil
        | apply Forall_cons;
          [ cbn [status]; first [left; reflexivity | right; reflexivity] |] ]
    |].
  all: split; [reflexivity |].
  all: first [ right; split; [reflexivity |]; split; [reflexivity |];
               split; [eexists; reflexivity |]; split; [reflexivity |];
               split; [intros ->; split; reflexivity
                      | intros t rest ->; reflexivity]
             | left; split; [discriminate |]; split; [reflexivity |];
               split; [reflexivity |];
               intros ->; split; reflexivity ].
Qed.

(** C9 (where the code departs from it). Neither way of discarding
    results touches the blob URL store: on every page, the URLs that are
    live before [removeResult] or [clearResults] are live after it.  So
    after the accepted-upload scenario, whose one result holds the live
    object URL [blob:0], removing that result by its id, or clearing the
    list, empties the list and leaves [blob:0] live: nothing revokes it. *)
Theorem discarded_result_url_stays_live :
  (forall rid pg,
      live (store (removeResult rid pg)) = live (store pg)
      /\ live (store (clearResults pg)) = live (store pg))
  /\ let pg := snd (analyzeImage Scenario.goodSpread Scenario.png500k None
                                 initialPage) in
     map imageUrl (results (hook pg)) = ["blob:0"%string]
     /\ map id (results (hook pg)) = ["1700000000000"%string]
     /\ live (store pg) = ["blob:0"%string]
     /\ results (hook (removeResult "1700000000000" pg)) = []
     /\ live (store (removeResult "1700000000000" pg)) = ["blob:0"%string]
     /\ results (hook (clearResults pg)) = []
     /\ live (store (clearResults pg)) = ["blob:0"%string].
Proof.
  split.
  - intros rid pg. split; reflexivity.
  - cbv zeta. repeat split.
Qed.

(** C6 (where the code departs from it). An image whose dimensions are
    already within the default maximum width of 1920 is not left as it is:
    1200 by 900 is drawn on a canvas of 1920 by 1440 (ratio 1.6), 100 by
    100 on a canvas of 1920 by 1920 (ratio 19.2); and the file the
    compressor returns for the first is encoded from that larger canvas. *)
Theorem small_image_is_upscaled :
  Compress.canvasSize 1200 900 Compress.defaultMaxWidth = (1920, 1440)
  /\ Compress.canvasSize 100 100 Compress.defaultMaxWidth = (1920, 1920)
  /\ fst (Compress.compressImage Scenario.smallImage Scenario.png3M
            Compress.defaultMaxWidth Compress.defaultQuality
            (store initialPage))
     = Ok {| file_name := "court.png"; file_type := "image/png";
             file_size := 1920 * 1440 |}.
Proof. repeat split; vm_compute; reflexivity. Qed.

End RunProps.

(** ** Rounding in binary64, and the range of the confidence score *)

Module Rounding.

Import Binary64.

(** The number of binary digits of a positive number. *)
Lemma digits2_pos_bounds (p : positive) :
  2 ^ (Zpos (digits2_pos p) - 1) <= Zpos p < 2 ^ Zpos (digits2_pos p).
Proof.
  induction p as [p IH | p IH |]; cbn [digits2_pos].
  - rewrite Pos2Z.inj_succ, (Pos2Z.inj_xI p).
    replace (Z.succ (Z.pos (digits2_pos p)) - 1) with (Z.pos (digits2_pos p)) by lia.
    rewrite Z.pow_succ_r by lia.
    assert (2 ^ Z.pos (digits2_pos p) = 2 * 2 ^ (Z.pos (digits2_pos p) - 1)) as H.
    { rewrite <- Z.pow_succ_r by lia. f_equal. lia. }
    set (a := 2 ^ Z.pos (digits2_pos p)) in *.
    set (b := 2 ^ (Z.pos (digits2_pos p) - 1)) in *.
    clearbody a b. lia.
  - rewrite Pos2Z.inj_succ, (Pos2Z.inj_xO p).
    replace (Z.succ (Z.pos (digits2_pos p)) - 1) with (Z.pos (digits2_pos p)) by lia.
    rewrite Z.pow_succ_r by lia.
    assert (2 ^ Z.pos (digits2_pos p) = 2 * 2 ^ (Z.pos (digits2_pos p) - 1)) as H.
    { rewrite <- Z.pow_succ_r by lia. f_equal. lia. }
    set (a := 2 ^ Z.pos (digits2_pos p)) in *.
    set (b := 2 ^ (Z.pos (digits2_pos p) - 1)) in *.
    clearbody a b. lia.
  - cbn. lia.
Qed.

Lemma digits2_pos_unique (p : positive) (d : Z) :
  2 ^ (d - 1) <= Zpos p < 2 ^ d -> Zpos (digits2_pos p) = d.
Proof.
  intros [Hlo Hhi]. pose proof (digits2_pos_bounds p) as [Hlo' Hhi'].
  assert (0 < d).
  { destruct (Z.ltb_spec 0 d); auto. exfalso.
    assert (2 ^ d <= 2 ^ 0) by (apply Z.pow_le_mono_r; lia). cbn in *. lia. }
  destruct (Z.lt_trichotomy (Zpos (digits2_pos p)) d) as [Hlt | [Heq | Hgt]]; auto; exfalso.
  - assert (2 ^ Zpos (digits2_pos p) <= 2 ^ (d - 1)) by (apply Z.pow_le_mono_r; lia). lia.
  - assert (2 ^ d <= 2 ^ (Zpos (digits2_pos p) - 1)) by (apply Z.pow_le_mono_r; lia). lia.
Qed.

(** One shift to the right halves a non-negative mantissa. *)
Lemma shr_1_m (mrs : shr_record) :
  0 <= shr_m mrs -> shr_m (shr_1 mrs) = shr_m mrs / 2.
Proof.
  destruct mrs as [m r s]; cbn [shr_m]. intros Hm.
  destruct m as [| p | p]; [reflexivity | | lia].
  destruct p as [p | p |]; cbn [shr_1 shr_m].
  - rewrite (Pos2Z.inj_xI p). apply Z.div_unique with (r := 1); lia.
  - rewrite (Pos2Z.inj_xO p). apply Z.div_unique with (r := 0); lia.
  - reflexivity.
Qed.

Lemma iter_pos_nat {A : Type} (f : A -> A) (p : positive) (x : A) :
  iter_pos f p x = Nat.iter (Pos.to_nat p) f x.
Proof.
  revert x. induction p as [p IH | p IH |]; intros x; cbn [iter_pos].
  - rewrite !IH, Pos2Nat.inj_xI.
    replace (S (2 * Pos.to_nat p)) with (Pos.to_nat p + (Pos.to_nat p + 1))%nat
      by lia.
    now rewrite !Nat.iter_add.
  - rewrite !IH, Pos2Nat.inj_xO.
    replace (2 * Pos.to_nat p)%nat with (Pos.to_nat p + Pos.to_nat p)%nat by lia.
    now rewrite Nat.iter_add.
  - reflexivity.
Qed.

Lemma iter_shr_1_m (n : nat) (mrs : shr_record) :
  0 <= shr_m mrs ->
  shr_m (Nat.iter n shr_1 mrs) = shr_m mrs / 2 ^ Z.of_nat n.
Proof.
  intros Hm. induction n as [| n IH].
  - cbn. now rewrite Z.div_1_r.
  - rewrite Nat.iter_succ, shr_1_m.
    + rewrite IH, Nat2Z.inj_succ, Z.pow_succ_r by lia.
      rewrite Z.div_div by lia. f_equal. lia.
    + rewrite IH. apply Z.div_pos; lia.
Qed.

Lemma shr_m_iter_pos (p : positive) (mrs : shr_record) :
  0 <= shr_m mrs ->
  shr_m (iter_pos shr_1 p mrs) = shr_m mrs / 2 ^ Zpos p.
Proof.
  intros Hm. rewrite iter_pos_nat, iter_shr_1_m by assumption.
  now rewrite positive_nat_Z.
Qed.

Lemma round_nearest_even_range (m : Z) (l : location) :
  round_nearest_even m l = m \/ round_nearest_even m l = m + 1.
Proof.
  destruct l as [| [ | | ]]; cbn; auto. destruct (Z.even m); auto.
Qed.

Lemma shr_no_shift (mrs : shr_record) (e n : Z) :
  n <= 0 -> shr mrs e n = (mrs, e).
Proof. destruct n; [reflexivity | lia | reflexivity]. Qed.

Lemma fexp_eq (k : Z) : fexp prec emax k = Z.max (k - 53) (-1074).
Proof. reflexivity. Qed.

Lemma div_pow2_lt (M d p : Z) :
  0 <= M < 2 ^ d -> 0 <= p -> d - 53 <= p -> M / 2 ^ p < 2 ^ 53.
Proof.
  intros [HM0 HM] Hp Hd.
  apply Z.div_lt_upper_bound; [apply Z.pow_pos_nonneg; lia |].
  rewrite <- Z.pow_add_r by lia.
  eapply Z.lt_le_trans; [exact HM |].
  destruct (Z.le_gt_cases 0 d).
  - apply Z.pow_le_mono_r; lia.
  - rewrite (Z.pow_neg_r 2 d) by lia. apply Z.pow_nonneg. lia.
Qed.

(** Rounding an exact product or sum whose mantissa is too long: the
    result is the quotient by the power of two shifted out, or its
    successor, renormalised when the successor reaches 2^53. *)
Lemma binary_round_aux_shift (s : bool) (M : positive) (E : Z) :
  let e1 := Z.max (Zpos (digits2_pos M) + E - 53) (-1074) in
  0 < e1 - E -> e1 < 971 ->
  exists rho,
    (rho = Zpos M / 2 ^ (e1 - E) \/ rho = Zpos M / 2 ^ (e1 - E) + 1)
    /\ 0 <= rho <= 2 ^ 53
    /\ binary_round_aux prec emax s (Zpos M) E loc_Exact
       = if rho =? 0 then S754_zero s
         else if rho =? 2 ^ 53 then S754_finite s 4503599627370496 (e1 + 1)
         else S754_finite s (Z.to_pos rho) e1.
Proof.
  intros e1 Hn He1.
  unfold binary_round_aux, shr_fexp. cbn [Zdigits2 shr_record_of_loc].
  rewrite fexp_eq. fold e1.
  destruct (e1 - E) as [| p | p] eqn:Hp; try lia.
  cbn [shr].
  set (mrs := iter_pos shr_1 p _).
  assert (Hq : shr_m mrs = Zpos M / 2 ^ Zpos p).
  { unfold mrs. rewrite shr_m_iter_pos; cbn [shr_m]; [reflexivity | lia]. }
  assert (Hq0 : 0 <= shr_m mrs).
  { rewrite Hq. apply Z.div_pos; [lia | apply Z.pow_pos_nonneg; lia]. }
  assert (Hq53 : shr_m mrs < 2 ^ 53).
  { rewrite Hq. pose proof (digits2_pos_bounds M) as [_ HM].
    apply (div_pow2_lt _ (Zpos (digits2_pos M))); lia. }
  set (rho := round_nearest_even (shr_m mrs) (loc_of_shr_record mrs)).
  assert (Hrho : rho = Zpos M / 2 ^ Zpos p \/ rho = Zpos M / 2 ^ Zpos p + 1).
  { rewrite <- Hq. apply round_nearest_even_range. }
  assert (HE1 : E + Zpos p = e1) by lia.
  rewrite HE1.
  exists rho. split; [exact Hrho |]. split; [lia |].
  rewrite fexp_eq.
  destruct (Z.eqb_spec rho 0) as [H0 | H0].
  - rewrite H0. cbn [Zdigits2].
    rewrite shr_no_shift by lia. reflexivity.
  - destruct (Z.eqb_spec rho (2 ^ 53)) as [H53 | H53].
    + rewrite H53. change (Zdigits2 (2 ^ 53)) with 54.
      replace (Z.max (54 + e1 - 53) (-1074) - e1) with 1 by lia.
      cbn [shr iter_pos shr_1 shr_m]. 
      change (2 ^ 53) with 9007199254740992. cbn [shr_1 shr_m].
      replace (e1 + 1 <=? emax - prec) with true; [reflexivity |].
      symmetry. apply Z.leb_le. change (emax - prec) with 971. lia.
    + destruct rho as [| pr | pr] eqn:Hr; try lia.
      cbn [Zdigits2].
      assert (Hd : Zpos (digits2_pos pr) <= 53).
      { pose proof (digits2_pos_bounds pr) as [Hlo _].
        destruct (Z.le_gt_cases (Zpos (digits2_pos pr)) 53); auto. exfalso.
        assert (2 ^ 53 <= 2 ^ (Zpos (digits2_pos pr) - 1))
          by (apply Z.pow_le_mono_r; lia).
        lia. }
      rewrite shr_no_shift by lia. cbn [shr_m Z.to_pos].
      replace (e1 <=? emax - prec) with true; [reflexivity |].
      symmetry. apply Z.leb_le. change (emax - prec) with 971. lia.
Qed.

Lemma canonical_facts (m : positive) (e : Z) :
  bounded prec emax m e = true ->
  Zpos (digits2_pos m) <= 53
  /\ (e = -1074 \/ Zpos (digits2_pos m) = 53)
  /\ -1074 <= e <= 971
  /\ Zpos m < 2 ^ 53.
Proof.
  unfold bounded, canonical_mantissa. rewrite andb_true_iff, Z.eqb_eq, Z.leb_le.
  rewrite fexp_eq. change (emax - prec) with 971. intros [Hc He].
  pose proof (digits2_pos_bounds m) as [_ Hm].
  assert (Zpos (digits2_pos m) <= 53) by lia.
  repeat split; try lia.
  eapply Z.lt_le_trans; [exact Hm |]. apply Z.pow_le_mono_r; lia.
Qed.

Lemma digits_mul_m02 (m : positive) :
  Zpos (digits2_pos m) + 52 <= Zpos (digits2_pos (m * m02))
  <= Zpos (digits2_pos m) + 53.
Proof.
  pose proof (digits2_pos_bounds m) as [Hlo Hhi].
  pose proof (digits2_pos_bounds (m * m02)) as [Hlo' Hhi'].
  rewrite Pos2Z.inj_mul in Hlo', Hhi'.
  set (dm := Zpos (digits2_pos m)) in *.
  set (d := Zpos (digits2_pos (m * m02))) in *.
  assert (Hdm : 0 < dm) by (unfold dm; lia).
  assert (Hd : 0 < d) by (unfold d; lia).
  assert (H52 : 2 ^ 52 <= Zpos m02 < 2 ^ 53) by (cbv; split; congruence).
  split.
  - destruct (Z.le_gt_cases (dm + 52) d) as [| Hgt]; auto. exfalso.
    assert (2 ^ d <= 2 ^ (dm + 51)) by (apply Z.pow_le_mono_r; lia).
    replace (dm + 51) with ((dm - 1) + 52) in H by lia.
    rewrite Z.pow_add_r in H by lia.
    assert (0 < 2 ^ (dm - 1)) by (apply Z.pow_pos_nonneg; lia).
    nia.
  - destruct (Z.le_gt_cases d (dm + 53)) as [| Hgt]; auto. exfalso.
    assert (2 ^ (dm + 53) <= 2 ^ (d - 1)) by (apply Z.pow_le_mono_r; lia).
    rewrite Z.pow_add_r in H by lia.
    assert (0 < 2 ^ dm) by (apply Z.pow_pos_nonneg; lia).
    nia.
Qed.

(** The product of a number in [0, 1) and 0.2, rounded, is at most 0.2. *)
Lemma mul_c02_bound (m : positive) (e : Z) :
  bounded prec emax m e = true ->
  e <= -53 ->
  at_most_c02 (SF64mul (S754_finite false m e) c02S).
Proof.
  intros Hb He.
  destruct (canonical_facts m e Hb) as (Hdm & Hcan & Hrange & Hm).
  pose proof (digits_mul_m02 m) as Hd.
  unfold SF64mul, SFmul, c02S. cbn [xorb].
  destruct (binary_round_aux_shift false (m * m02) (e + -55))
    as (rho & Hrho & Hr53 & ->); cbv zeta; try lia.
  set (e1 := Z.max (Zpos (digits2_pos (m * m02)) + (e + -55) - 53) (-1074)) in *.
  assert (He1 : e1 <= -55) by (unfold e1; lia).
  assert (Hq : e1 = -55 -> Zpos (m * m02) / 2 ^ (e1 - (e + -55)) < Zpos m02).
  { intros H55.
    assert (e = -53) by (unfold e1 in H55; lia).
    replace (e1 - (e + -55)) with 53 by lia.
    apply Z.div_lt_upper_bound; [reflexivity |].
    rewrite Pos2Z.inj_mul. nia. }
  destruct (Z.eqb_spec rho 0); [exact I |].
  destruct (Z.eqb_spec rho (2 ^ 53)) as [H53 | H53].
  - cbn [at_most_c02].
    destruct (Z.eq_dec e1 (-55)) as [H55 | H55].
    + exfalso. specialize (Hq H55).
      assert (Zpos m02 < 2 ^ 53) by reflexivity. lia.
    + destruct (Z.eq_dec e1 (-56)) as [H56 | H56].
      * right. split; [lia | discriminate].
      * left. lia.
  - cbn [at_most_c02].
    destruct (Z.eq_dec e1 (-55)) as [H55 | H55].
    + right. split; [exact H55 |]. specialize (Hq H55).
      rewrite Z2Pos.id by lia. lia.
    + left. lia.
Qed.

Lemma iter_xO_pow (m d : positive) :
  Zpos (Pos.iter xO m d) = Zpos m * 2 ^ Zpos d.
Proof.
  induction d as [| d IH] using Pos.peano_ind.
  - cbn. lia.
  - rewrite Pos.iter_succ, Pos2Z.inj_succ, Z.pow_succ_r by lia.
    rewrite (Pos2Z.inj_xO (Pos.iter xO m d)), IH. lia.
Qed.

Lemma shl_align_same (m : positive) (e : Z) : shl_align m e e = (m, e).
Proof. unfold shl_align. now rewrite Z.sub_diag. Qed.

Lemma shl_align_no_shift (m : positive) (e e' : Z) :
  e <= e' -> shl_align m e e' = (m, e).
Proof.
  intros H. unfold shl_align. destruct (e' - e) eqn:Hd; try reflexivity. lia.
Qed.

Lemma shl_align_shift (m : positive) (e e' : Z) (d : positive) :
  e' - e = Zneg d -> shl_align m e e' = (Pos.iter xO m d, e').
Proof. intros H. unfold shl_align. now rewrite H. Qed.

Lemma add_c08_small (mx : positive) (ex : Z) :
  -1074 <= ex <= -55 ->
  Zpos mx < 2 ^ 53 ->
  (ex = -55 -> Zpos mx <= Zpos m02 - 3) ->
  from_c08_to_one (SF64add (S754_finite false mx ex) c08S).
Proof.
  intros Hex Hm Hsmall.
  set (k := -53 - ex).
  assert (Hk : 2 <= k) by (unfold k; lia).
  unfold SF64add, SFadd, c08S.
  replace (Z.min ex (-53)) with ex by lia.
  rewrite shl_align_same.
  destruct (ex - (-53)) as [| d | d] eqn:Hd; try lia.
  rewrite (shl_align_shift m02 (-53) ex d Hd).
  cbn [fst cond_Zopp Z.add binary_normalize].
  set (sm := (mx + Pos.iter xO m02 d)%positive).
  assert (Hsm : Zpos sm = Zpos mx + Zpos m02 * 2 ^ k).
  { unfold sm. rewrite Pos2Z.inj_add, iter_xO_pow. do 3 f_equal.
    unfold k. lia. }
  assert (Hpk : 4 <= 2 ^ k).
  { change 4 with (2 ^ 2). apply Z.pow_le_mono_r; lia. }
  assert (H52 : 2 ^ 52 <= Zpos m02) by discriminate.
  assert (H53 : Zpos m02 + 2 ^ 50 < 2 ^ 53) by reflexivity.
  assert (Hmk : Zpos mx < (2 ^ 53 - Zpos m02) * 2 ^ k).
  { destruct (Z.eq_dec ex (-55)) as [H55 | H55].
    - specialize (Hsmall H55). assert (k = 2) as -> by (unfold k; lia).
      change (2 ^ 2) with 4. change (2 ^ 53) with 9007199254740992.
      unfold m02 in *. lia.
    - assert (3 <= k) by (unfold k; lia).
      assert (8 <= 2 ^ k).
      { change 8 with (2 ^ 3). apply Z.pow_le_mono_r; lia. }
      change (2 ^ 53) with 9007199254740992 in *. unfold m02 in *. lia. }
  assert (Hdig : Zpos (digits2_pos sm) = k + 53).
  { apply digits2_pos_unique. rewrite Hsm.
    replace (k + 53 - 1) with (52 + k) by lia.
    replace (k + 53) with (53 + k) by lia.
    rewrite !Z.pow_add_r by lia. nia. }
  unfold binary_round. rewrite Hdig, fexp_eq.
  replace (Z.max (k + 53 + ex - 53) (-1074)) with (-53) by (unfold k; lia).
  rewrite shl_align_no_shift by lia.
  destruct (binary_round_aux_shift false sm ex) as (rho & Hrho & Hr53 & ->);
    cbv zeta; rewrite ?Hdig; try (unfold k; lia).
  rewrite Hdig in Hrho.
  replace (Z.max (k + 53 + ex - 53) (-1074) - ex) with k in Hrho
    by (unfold k; lia).
  replace (Z.max (k + 53 + ex - 53) (-1074)) with (-53) by (unfold k; lia).
  assert (Hq : Zpos sm / 2 ^ k = Zpos m02 + Zpos mx / 2 ^ k).
  { rewrite Hsm, Z.add_comm, Z.div_add_l by lia. reflexivity. }
  assert (Hq0 : 0 <= Zpos mx / 2 ^ k) by (apply Z.div_pos; lia).
  assert (Hq1 : Zpos mx / 2 ^ k < 2 ^ 53 - Zpos m02).
  { apply Z.div_lt_upper_bound; lia. }
  destruct (Z.eqb_spec rho 0); [lia |].
  destruct (Z.eqb_spec rho (2 ^ 53)).
  - right. reflexivity.
  - left. split; [reflexivity |]. rewrite Z2Pos.id by lia. lia.
Qed.

(** Adding 0.8 to zero or to a positive number that is at most 0.2 gives,
    after rounding, a number from 0.8 to 1. *)
Lemma add_c08_bound (x : spec_float) :
  valid_binary x = true ->
  at_most_c02 x ->
  from_c08_to_one (SF64add x c08S).
Proof.
  intros Hv Hx. destruct x as [s | s | | s mx ex]; cbn in Hx; try contradiction.
  - cbn. left. split; [reflexivity | lia].
  - destruct s; [contradiction |].
    cbn [valid_binary] in Hv.
    destruct (canonical_facts mx ex Hv) as (Hdm & Hcan & Hrange & Hm).
    destruct (Z_le_gt_dec (Zpos mx) (Zpos m02 - 3)) as [Hsmall | Hbig].
    + apply add_c08_small; lia.
    + destruct (Z.eq_dec ex (-55)) as [H55 | H55].
      * assert (Hmx : mx = m02 \/ mx = Pos.pred m02
                      \/ mx = Pos.pred (Pos.pred m02)).
        { unfold m02 in *. cbn in *. lia. }
        subst ex.
        destruct Hmx as [-> | [-> | ->]]; vm_compute; right; reflexivity.
      * apply add_c08_small; lia.
Qed.

Lemma below_one_exponent (m : positive) (e : Z) :
  bounded prec emax m e = true ->
  SFltb (S754_finite false m e) oneS = true ->
  e <= -53.
Proof.
  intros Hb Hlt.
  destruct (canonical_facts m e Hb) as (Hdm & Hcan & Hrange & Hm).
  unfold SFltb, SFcompare, oneS in Hlt.
  destruct (Z.compare_spec e (-52)) as [He | He | He];
    [| clear - He; lia | discriminate].
  exfalso. subst e.
  destruct Hcan as [Hsub | Hd]; [discriminate Hsub |].
  destruct (Pos.compare_cont Eq m 4503599627370496) eqn:Hc; try discriminate.
  apply (proj1 (Pos.compare_lt_iff m 4503599627370496)) in Hc.
  apply Pos2Z.pos_lt_pos in Hc.
  pose proof (digits2_pos_bounds m) as [Hlo _].
  rewrite Hd in Hlo.
  change (2 ^ (53 - 1)) with 4503599627370496 in Hlo. clear - Hc Hlo. lia.
Qed.

Lemma from_c08_to_one_leb (y : spec_float) :
  from_c08_to_one y ->
  SFleb c08S y = true /\ SFleb y oneS = true.
Proof.
  destruct y as [s | s | | s my ey]; cbn [from_c08_to_one]; try contradiction.
  destruct s; [contradiction |].
  intros [[-> Hm] | ->]; [| split; reflexivity].
  split; [| reflexivity].
  unfold SFleb, SFcompare, c08S. cbn [Z.compare Pos.compare].
  destruct (Pos.compare_cont Eq m02 my) eqn:Hc; try reflexivity.
  apply (proj1 (Pos.compare_gt_iff m02 my)) in Hc.
  apply Pos2Z.pos_lt_pos in Hc. clear - Hc Hm. lia.
Qed.

(** Over every double from 0 up to, but excluding, 1, the confidence
    formula stays between 0.8 and 1, both included. *)
Lemma simulatedConfidence_bounds (r : float) :
  (0 <=? r)%float = true -> (r <? 1)%float = true ->
  (0.8 <=? Hook.simulatedConfidence r)%float = true /\ (Hook.simulatedConfidence r <=? 1)%float = true.
Proof.
  intros H0 H1. rewrite FloatAxioms.leb_spec in H0. rewrite FloatAxioms.ltb_spec in H1.
  unfold Hook.simulatedConfidence. rewrite !FloatAxioms.leb_spec, FloatAxioms.add_spec.
  pose proof (Prim2SF_valid (r * 0.2)) as Hvx.
  rewrite FloatAxioms.mul_spec in *.
  pose proof (Prim2SF_valid r) as Hv.
  change (Prim2SF 0.2) with c02S in *. change (Prim2SF 0.8) with c08S.
  change (Prim2SF 1) with oneS in *.
  change (Prim2SF 0) with (S754_zero false) in H0.
  apply from_c08_to_one_leb, add_c08_bound; [exact Hvx |].
  destruct (Prim2SF r) as [s | s | | s m e].
  - exact I.
  - destruct s; discriminate.
  - discriminate.
  - destruct s; [discriminate |].
    apply (mul_c02_bound m e Hv).
    exact (below_one_exponent m e Hv H1).
Qed.

End Rounding.

(** ** The confidence of a result *)

Module Confidence.

Import ImageAnalysis Hook Run RunProps.

Lemma result_confidence
      (w : World) (file : File) (customPrompt : option string) (pg : Page)
      (result : AnalysisResult) :
  fst (analyzeImage w file customPrompt pg) = Some result ->
  confidence result = simulatedConfidence (mathRandom w).
Proof.
  run_cases; intros H; try discriminate H.
  all: injection H as <-; reflexivity.
Qed.

(** C10 (as stated, refuted). At the largest double below 1, which
    [Math.random()] may return, the product with 0.2 and the sum with 0.8
    both round up and the confidence is exactly 1: the accepted-upload run
    with that draw stores a result of confidence 1, which is not below 1. *)
Lemma confidence_reaches_one :
  let r := 0x1.fffffffffffffp-1%float in
  (0 <=? r)%float = true
  /\ (r <? 1)%float = true
  /\ simulatedConfidence r = 1%float
  /\ option_map confidence
       (fst (analyzeImage Scenario.largestRandom Scenario.png500k None
                          initialPage))
     = Some 1%float
  /\ (simulatedConfidence r <? 1)%float = false.
Proof. cbv zeta. repeat split. Qed.

(** C10 (amended). The confidence of every result a run returns is the
    binary64 value of [r * 0.2 + 0.8] for the [r] that [Math.random()]
    returned in that run; it depends on [r] alone: two runs with the same
    [r] give the same confidence, whatever the files, prompts, pages and
    answers of the service; and for [r] from 0 up to, but excluding, 1 it
    lies between 0.8 and 1, both included. *)
Theorem confidence_is_simulated
        (w : World) (file : File) (customPrompt : option string) (pg : Page)
        (result : AnalysisResult) :
  fst (analyzeImage w file customPrompt pg) = Some result ->
  confidence result = (mathRandom w * 0.2 + 0.8)%float
  /\ (forall w' file' customPrompt' pg' result',
        fst (analyzeImage w' file' customPrompt' pg') = Some result' ->
        mathRandom w' = mathRandom w ->
        confidence result' = confidence result)
  /\ ((0 <=? mathRandom w)%float = true ->
      (mathRandom w <? 1)%float = true ->
      (0.8 <=? confidence result)%float = true
      /\ (confidence result <=? 1)%float = true).
Proof.
  intros Hrun. pose proof (result_confidence _ _ _ _ _ Hrun) as Hc.
  split; [exact Hc |]. split.
  - intros w' file' customPrompt' pg' result' Hrun' Hr.
    rewrite (result_confidence _ _ _ _ _ Hrun'), Hc, Hr. reflexivity.
  - intros H0 H1. rewrite Hc.
    exact (Rounding.simulatedConfidence_bounds (mathRandom w) H0 H1).
Qed.

(** The accepted-upload scenario, where [Math.random()] returned 0.5: the
    confidence is the double nearest to 0.9. *)
Lemma confidence_is_simulated_witness :
  let result :=
    {| id := "1700000000000"; timestamp := 1700000000000;
       imageUrl := "blob:0"; fileName := "court.png";
       analysis := "Good spread";
       confidence := (0.5 * 0.2 + 0.8)%float; tags := [] |} in
  fst (analyzeImage Scenario.goodSpread Scenario.png500k None initialPage)
    = Some result
  /\ (0.8 <=? confidence result)%float = true
  /\ (confidence result <=? 1)%float = true.
Proof.
  cbv zeta.
  assert (Hrun :
            fst (analyzeImage Scenario.goodSpread Scenario.png500k None
                              initialPage)
            = Some {| id := "1700000000000"; timestamp := 1700000000000;
                      imageUrl := "blob:0"; fileName := "court.png";
                      analysis := "Good spread";
                      confidence := (0.5 * 0.2 + 0.8)%float; tags := [] |})
    by (vm_compute; reflexivity).
  split; [exact Hrun |].
  exact (proj2 (proj2 (confidence_is_simulated
                         Scenario.goodSpread Scenario.png500k None
                         initialPage _ Hrun))
               eq_refl eq_refl).
Defined.

End Confidence.

(** ** More of the prelude: substrings and decimal numerals *)

Module PreludeProps.

Lemma prefix_app (sub s : string) :
  prefix sub s = true <-> exists b, s = (sub ++ b)%string.
Proof.
  revert s. induction sub as [| c sub IH]; intros s.
  - split; [intros _; now exists s | intros _; destruct s; reflexivity].
  - destruct s as [| d s]; cbn;
      [split; [discriminate | intros [b Hb]; discriminate] |].
    destruct (Ascii.ascii_dec c d) as [-> | Hne].
    + rewrite IH. split; intros [b Hb]; exists b; congruence.
    + split; [discriminate | intros [b Hb]; congruence].
Qed.

Lemma includes_eq (s sub : string) :
  JS.includes s sub
  = if prefix sub s then true
    else match s with
         | EmptyString => false
         | String _ s' => JS.includes s' sub
         end.
Proof. destruct s; reflexivity. Qed.

(** [JS.includes] is the substring test. *)
Lemma includes_spec (s sub : string) :
  JS.includes s sub = true <-> exists a b, s = (a ++ sub ++ b)%string.
Proof.
  split.
  - induction s as [| c s IH]; rewrite includes_eq;
      destruct (prefix sub _) eqn:Hp.
    + intros _. apply prefix_app in Hp. destruct Hp as [b Hb]. now exists "", b.
    + discriminate.
    + intros _. apply prefix_app in Hp. destruct Hp as [b Hb]. now exists "", b.
    + intros H. destruct (IH H) as (a & b & ->). now exists (String c a), b.
  - intros (a & b & ->). induction a as [| c a IH]; rewrite includes_eq.
    + cbn [String.append]. replace (prefix sub (sub ++ b)) with true; [reflexivity |].
      symmetry. apply prefix_app. now exists b.
    + destruct (prefix sub _); [reflexivity | exact IH].
Qed.

Lemma to_int_not_nil (z : Z) :
  Z.to_int z <> Decimal.Pos Decimal.Nil /\ Z.to_int z <> Decimal.Neg Decimal.Nil.
Proof.
  assert (Hn : Decimal.norm (Z.to_int z) = Z.to_int z)
    by (rewrite <- DecimalZ.to_of, DecimalZ.of_to; reflexivity).
  split; intros H; rewrite H in Hn; discriminate Hn.
Qed.

Lemma string_of_Z_inj (a b : Z) :
  JS.string_of_Z a = JS.string_of_Z b -> a = b.
Proof.
  unfold JS.string_of_Z. intros H.
  apply DecimalZ.to_int_inj.
  destruct (to_int_not_nil a) as [Ha1 Ha2], (to_int_not_nil b) as [Hb1 Hb2].
  pose proof (NilZero.isi _ Ha1 Ha2) as Ia.
  pose proof (NilZero.isi _ Hb1 Hb2) as Ib.
  rewrite H in Ia. congruence.
Qed.

End PreludeProps.

(** ** Runs: what a success leaves, what a rejection leaves, what is sent *)

Module HookProps.

Import ImageAnalysis Hook Run Session RunProps.

Definition progress60 : UploadProgress :=
  {| progress := 60; status := analyzing;
     message := Some "Analyzing with Gemini AI..." |}.
Definition progress90 : UploadProgress :=
  {| progress := 90; status := analyzing;
     message := Some "Processing results..." |}.
Definition progress100 : UploadProgress :=
  {| progress := 100; status := complete;
     message := Some "Analysis complete!" |}.


(** The compressor keeps the name and the declared type of the file. *)
Lemma compress_keeps_name_and_type (w : World) (file cf : File)
      (maxWidth quality : float) (st st' : BlobStore) :
  Compress.compressImage w file maxWidth quality st = (Ok cf, st') ->
  file_name cf = file_name file /\ file_type cf = file_type file.
Proof.
  unfold Compress.compressImage.
  destruct (getContext2d w); cbn [negb]; [| discriminate].
  destruct (URL.createObjectURL st) as [u s1].
  destruct (decodeImage w file) as [[iw ih] |]; [| discriminate].
  destruct (Compress.canvasSize iw ih maxWidth) as [cw ch].
  destruct (drawImage w file cw ch); [discriminate |].
  destruct (if (cw =? 0) || (ch =? 0) then None else toBlob w file cw ch quality);
    [| discriminate].
  intros H. inversion H; subst. split; reflexivity.
Qed.

Lemma compressedFile_type (w : World) (file : File) (st : BlobStore) :
  file_type (compressedFile w file st) = file_type file
  /\ file_name (compressedFile w file st) = file_name file.
Proof.
  unfold compressedFile. destruct (file_size file >? compressionThreshold);
    [| split; reflexivity].
  destruct (Compress.compressImage _ _ _ _ _) as [[cf | e] st'] eqn:Hc;
    cbn [fst]; [| split; reflexivity].
  destruct (compress_keeps_name_and_type _ _ _ _ _ _ _ Hc). split; assumption.
Qed.

(** What a run that returns a result leaves behind. *)
Lemma run_success_page (w : World) (file : File)
      (customPrompt : option string) (pg : Page) (r : AnalysisResult) :
  fst (analyzeImage w file customPrompt pg) = Some r ->
  let pg' := snd (analyzeImage w file customPrompt pg) in
  results (hook pg') = r :: results (hook pg)
  /\ errorState (hook pg') = None
  /\ progressState (hook pg') = progress100
  /\ timers pg' = timers pg ++ [mkTimer 2000 idleProgress]
  /\ id r = JS.string_of_Z (dateNow w)
  /\ timestamp r = newDate w
  /\ fileName r = file_name file
  /\ confidence r = simulatedConfidence (mathRandom w)
  /\ imageUrl r = blobUrl (minted (store pg') - 1)
  /\ live (store pg') = imageUrl r :: live
       (snd (if file_size file >? compressionThreshold
             then Compress.compressImage w file Compress.defaultMaxWidth
                    Compress.defaultQuality (store pg)
             else (Ok file, store pg))).
Proof.
  cbv zeta. run_cases; cbn [fst snd hook store results timers]; intros H;
    try discriminate; inversion H; subst; clear H.
  all: pose proof (f_equal snd Hurl) as Hsnd;
    pose proof (f_equal fst Hurl) as Hfst; cbn [fst snd] in Hsnd, Hfst; subst.
  all: cbn [id timestamp fileName confidence imageUrl live minted
            URL.createObjectURL snd fst].
  all: unfold blobUrl; rewrite ?Z.add_simpl_r.
  all: repeat split; reflexivity.
Qed.

(** What a run that returns null leaves behind. *)
Lemma run_failure_page (w : World) (file : File)
      (customPrompt : option string) (pg : Page) :
  fst (analyzeImage w file customPrompt pg) = None ->
  let pg' := snd (analyzeImage w file customPrompt pg) in
  exists msg,
    errorState (hook pg') = Some msg
    /\ progressState (hook pg')
       = {| progress := 0; status := error; message := Some msg |}
    /\ timers pg' = timers pg
    /\ results (hook pg') = results (hook pg).
Proof.
  cbv zeta. run_cases; cbn [fst snd hook store results timers]; intros H;
    try discriminate.
  all: eexists; repeat split; reflexivity.
Qed.

(** A run that returns a result: the file passed validation, the
    file handed on by the compression step was encoded, the client
    returned a string for that payload, the declared type of the original
    file and the caller's prompt, and the result carries that string, the
    tags extracted from it, the reading of [Date.now()] in decimal as id,
    the later reading of [new Date()] as timestamp, the name of the
    original file and the simulated confidence.  The result is put in
    front of the list, the error is cleared, the progress ends at Complete
    with 100 percent after 0, 20, 40, 60 and 90, and one reset timer of
    2000 ms is added. *)
Theorem successful_run_effects
        (w : World) (file : File) (customPrompt : option string) (pg : Page)
        (r : AnalysisResult) :
  fst (analyzeImage w file customPrompt pg) = Some r ->
  let pg' := snd (analyzeImage w file customPrompt pg) in
  let cf := compressedFile w file (store pg) in
  ImageUtils.isValid (ImageUtils.validateImageFile file) = true
  /\ (exists base64Image,
        Base64.convertToBase64 w cf = Ok base64Image
        /\ GeminiApi.analyzeImageWithGemini w base64Image (file_type file)
             customPrompt = Ok (JStr (analysis r)))
  /\ extractTags (lowerCase w) (JStr (analysis r)) = Ok (tags r)
  /\ id r = JS.string_of_Z (dateNow w)
  /\ timestamp r = newDate w
  /\ fileName r = file_name file
  /\ confidence r = simulatedConfidence (mathRandom w)
  /\ results (hook pg') = r :: results (hook pg)
  /\ errorState (hook pg') = None
  /\ progressState (hook pg') = progress100
  /\ timers pg' = timers pg ++ [mkTimer 2000 idleProgress]
  /\ published (runEvents w file customPrompt pg)
     = [progress0; progress20; progress40; progress60; progress90;
        progress100].
Proof.
  intros Hr. cbv zeta.
  destruct (run_success_page w file customPrompt pg r Hr)
    as (Hres & Herr & Hprog & Htim & Hid & Hts & Hname & Hconf & _).
  cbv zeta in *.
  assert (Hmain :
            ImageUtils.isValid (ImageUtils.validateImageFile file) = true
            /\ (exists base64Image,
                  Base64.convertToBase64 w (compressedFile w file (store pg))
                    = Ok base64Image
                  /\ GeminiApi.analyzeImageWithGemini w base64Image
                       (file_type (compressedFile w file (store pg)))
                       customPrompt = Ok (JStr (analysis r)))
            /\ extractTags (lowerCase w) (JStr (analysis r)) = Ok (tags r)
            /\ published (runEvents w file customPrompt pg)
               = [progress0; progress20; progress40; progress60; progress90;
                  progress100]).
  { clear - Hr. revert Hr.
    run_cases; cbn [fst]; intros H; try discriminate; inversion H; subst; clear H.
    all: destruct text as [| | | s | |]; try discriminate Htags.
    all: cbn [analysis tags analysisText store] in *.
    all: rewrite ?Hsize, ?Hcompress; cbn [fst].
    all: split; [reflexivity |].
    all: split; [exists b64; split; [assumption || reflexivity | assumption] |].
    all: split; [congruence | reflexivity]. }
  destruct Hmain as (Hv & (b64 & Hc & Hg) & Ht & Hpub).
  rewrite (proj1 (compressedFile_type w file (store pg))) in Hg.
  repeat split; try assumption. exists b64. split; assumption.
Qed.

(** The accepted-upload scenario: a 500 KiB PNG, the stubbed endpoint
    answering Good spread. *)
Definition goodSpreadResult : AnalysisResult :=
  {| id := "1700000000000";
     timestamp := 1700000000000;
     imageUrl := "blob:0";
     fileName := "court.png";
     analysis := "Good spread";
     confidence := simulatedConfidence 0.5;
     tags := [] |}.

(** The same run in a browser whose clock passes to the next
    millisecond between the two readings. *)
Definition goodSpreadLater : AnalysisResult :=
  {| id := "1700000000000";
     timestamp := 1700000000001;
     imageUrl := "blob:0";
     fileName := "court.png";
     analysis := "Good spread";
     confidence := simulatedConfidence 0.5;
     tags := [] |}.

Lemma successful_run_effects_witness :
  let out := analyzeImage Scenario.goodSpread Scenario.png500k None
                          initialPage in
  fst out = Some goodSpreadResult
  /\ results (hook (snd out)) = [goodSpreadResult]
  /\ errorState (hook (snd out)) = None
  /\ progressState (hook (snd out)) = progress100
  /\ fst (analyzeImage (Scenario.tick Scenario.goodSpread) Scenario.png500k
             None initialPage) = Some goodSpreadLater
  /\ timestamp goodSpreadLater
     = newDate (Scenario.tick Scenario.goodSpread).
Proof.
  cbv zeta.
  assert (Hrun : fst (analyzeImage Scenario.goodSpread Scenario.png500k None
                        initialPage) = Some goodSpreadResult)
    by (vm_compute; reflexivity).
  assert (Hlater : fst (analyzeImage (Scenario.tick Scenario.goodSpread)
                          Scenario.png500k None initialPage)
                   = Some goodSpreadLater)
    by (vm_compute; reflexivity).
  destruct (successful_run_effects Scenario.goodSpread Scenario.png500k None
              initialPage goodSpreadResult Hrun)
    as (_ & _ & _ & _ & _ & _ & _ & Hres & Herr & Hprog & _).
  destruct (successful_run_effects (Scenario.tick Scenario.goodSpread)
              Scenario.png500k None initialPage goodSpreadLater Hlater)
    as (_ & _ & _ & _ & Hts & _).
  split; [exact Hrun |]. split; [exact Hres |]. split; [exact Herr |].
  split; [exact Hprog |]. split; [exact Hlater | exact Hts].
Defined.

(** A file the validator rejects goes nowhere: the run publishes the
    first progress, logs the validation error and publishes the Error
    phase, and that is all.  Neither the compressor nor the encoder nor
    the remote service is called, and the blob URL store, the pending
    timers and the results stay as they were. *)
Theorem rejected_file_goes_nowhere
        (w : World) (file : File) (customPrompt : option string) (pg : Page) :
  ImageUtils.isValid (ImageUtils.validateImageFile file) = false ->
  let out := analyzeImage w file customPrompt pg in
  let msg := JS.or_string (ImageUtils.error (ImageUtils.validateImageFile file))
                          "Invalid file" in
  fst out = None
  /\ runEvents w file customPrompt pg
     = [ SetProgress progress0;
         ConsoleError (ThrownError msg);
         SetProgress {| progress := 0; status := error; message := Some msg |} ]
  /\ store (snd out) = store pg
  /\ timers (snd out) = timers pg
  /\ results (hook (snd out)) = results (hook pg)
  /\ errorState (hook (snd out)) = Some msg.
Proof.
  intros Hv. cbv zeta. revert Hv.
  run_cases; intros Hv; try discriminate. repeat split.
Qed.

(** The oversize scenario: an 11 MiB JPEG is rejected with the size
    reason, and three events are all the run leaves. *)
Lemma rejected_file_goes_nowhere_witness :
  runEvents Scenario.goodSpread Scenario.jpeg11M None initialPage
  = [ SetProgress progress0;
      ConsoleError (ThrownError ImageUtils.tooLargeMessage);
      SetProgress {| progress := 0; status := error;
                     message := Some ImageUtils.tooLargeMessage |} ]
  /\ store (snd (analyzeImage Scenario.goodSpread Scenario.jpeg11M None
                   initialPage)) = store initialPage.
Proof.
  destruct (rejected_file_goes_nowhere Scenario.goodSpread Scenario.jpeg11M
              None initialPage eq_refl) as (_ & Hevs & Hstore & _).
  split; [exact Hevs | exact Hstore].
Defined.



End HookProps.

(** ** The analysis client: how it settles *)

Module ClientProps.

Import GeminiApi.

Lemma onRequestError_api (e : Exn) :
  exists a, onRequestError e = Throw (ThrownApiError a).
Proof.
  destruct e as [a | m | m | v]; cbn; try (eexists; reflexivity).
  destruct (JS.includes m "fetch"); eexists; reflexivity.
Qed.

Lemma failedResponse_throws (w : World) (r : Response) :
  exists e, failedResponse w r = Throw e.
Proof.
  unfold failedResponse.
  repeat match goal with
         | |- context [if ?c then _ else _] => destruct c
         end; try (eexists; reflexivity).
  destruct (Value_access.getProp _ _); cbn [Res.bind];
    [| eexists; reflexivity].
  destruct (message_or _ _ _); cbn [Res.bind]; eexists; reflexivity.
Qed.

Lemma readAnalysis_truthy (w : World) (r : Response) (v : JSON) :
  readAnalysis w r = Ok v -> Value.truthy v = true.
Proof.
  unfold readAnalysis.
  destruct (resp_json r) as [data | e]; cbn [Res.bind]; [| discriminate].
  destruct (Value_access.getProp data "candidates") as [candidates | e];
    cbn [Res.bind]; [| discriminate].
  assert (Hother :
            forall e' : Result JSON,
              (err <- Value_access.getProp data "error" ;;
               if Value.truthy_opt err
               then message <- message_or (numberToString w)
                                 (Value_access.getPropOpt err "message")
                                 "API returned an error" ;;
                    Throw (apiError message
                             (Value_access.getPropOpt err "code") None)
               else Throw (apiError
                             "Invalid response format from Gemini API - no analysis text found"
                             None None)) = Ok v -> False).
  { intros _. destruct (Value_access.getProp data "error") as [err | e];
      cbn [Res.bind]; [| discriminate].
    destruct (Value.truthy_opt err); [| discriminate].
    destruct (message_or _ _ _); discriminate. }
  destruct (Value_access.getPropOpt _ "text") as [t |];
    [| intros H; exfalso; exact (Hother (Ok v) H)].
  destruct (Value.truthy_opt candidates); cbn [andb];
    [| intros H; exfalso; exact (Hother (Ok v) H)].
  destruct (Value.truthy t) eqn:Ht;
    [| intros H; exfalso; exact (Hother (Ok v) H)].
  intros H. inversion H; subst. exact Ht.
Qed.

(** Whatever the key, the network and the response, the client settles
    in one of two ways: it returns a truthy value read from a response
    with an ok status, or it fails with an [ApiError]; no other error
    leaves it, and without a usable key no request is made. *)
Theorem client_returns_text_or_api_error
        (w : World) (base64Image mimeType : string)
        (customPrompt : option string) :
  match analyzeImageWithGemini w base64Image mimeType customPrompt with
  | Ok v =>
      Value.truthy v = true
      /\ exists key r,
           configuredKey w = Some key
           /\ fetch w (buildRequest key base64Image mimeType
                         (JS.or_string customPrompt defaultPrompt)) = Ok r
           /\ resp_ok r = true
           /\ readAnalysis w r = Ok v
  | Throw e =>
      exists a, e = ThrownApiError a
      /\ (configuredKey w = None ->
          a = {| api_message :=
                   "Gemini API key not configured. Please add your API key to the environment variables.";
                 api_code := None; api_details := None |})
  end.
Proof.
  unfold analyzeImageWithGemini.
  destruct (configuredKey w) as [key |];
    [| eexists; split; [reflexivity | intros _; reflexivity]].
  destruct (fetch w _) as [r | e] eqn:Hfetch; cbn [Res.bind Res.try_catch].
  - destruct (resp_ok r) eqn:Hok; cbn [negb].
    + destruct (readAnalysis w r) as [v | e] eqn:Hread; cbn [Res.try_catch].
      * split; [exact (readAnalysis_truthy w r v Hread) |].
        exists key, r. repeat split; assumption.
      * destruct (onRequestError_api e) as [a ->].
        exists a. split; [reflexivity | discriminate].
    + destruct (failedResponse_throws w r) as [e ->]. cbn [Res.try_catch].
      destruct (onRequestError_api e) as [a ->].
      exists a. split; [reflexivity | discriminate].
  - destruct (onRequestError_api e) as [a ->].
    exists a. split; [reflexivity | discriminate].
Qed.

(** A rejected [fetch] is reported as NETWORK_ERROR only when the
    rejection is a TypeError whose message contains the word fetch; every
    other rejection is reported as UNKNOWN_ERROR with the generic
    message. *)
Theorem fetch_rejection_classified
        (w : World) (key base64Image mimeType : string)
        (customPrompt : option string) (e : Exn) :
  configuredKey w = Some key ->
  fetch w (buildRequest key base64Image mimeType
             (JS.or_string customPrompt defaultPrompt)) = Throw e ->
  (forall a, e <> ThrownApiError a) ->
  let networkError :=
    match e with
    | ThrownTypeError m => JS.includes m "fetch"
    | _ => false
    end in
  analyzeImageWithGemini w base64Image mimeType customPrompt
  = Throw (if networkError
           then apiError
                  "Network error. Please check your internet connection and try again."
                  (Some (JStr "NETWORK_ERROR")) None
           else apiError "Failed to analyze image. Please try again later."
                         (Some (JStr "UNKNOWN_ERROR")) None).
Proof.
  intros Hkey Hfetch Hno. cbv zeta. unfold analyzeImageWithGemini.
  rewrite Hkey, Hfetch. cbn [Res.bind Res.try_catch].
  destruct e as [a | m | m | v]; cbn; try reflexivity.
  - exfalso. exact (Hno a eq_refl).
  - destruct (JS.includes m "fetch"); reflexivity.
Qed.

(** Two browsers whose [fetch] rejects: with the TypeError message
    Failed to fetch the client reports NETWORK_ERROR, with the TypeError
    message Load failed it reports UNKNOWN_ERROR. *)
Definition offline (message : string) : World :=
  {| getContext2d := true;
     decodeImage := fun _ => None;
     drawImage := fun _ _ _ => None;
     toBlob := fun _ _ _ _ => None;
     readAsDataURL := fun _ => Scenario.pngDataUrl;
     apiKey := Some "AIzaSyA-sample-key-0123456789";
     fetch := fun _ => Throw (ThrownTypeError message);
     dateNow := 1700000000000;
     newDate := 1700000000000;
     mathRandom := 0.5%float;
     numberToString := numberToString Scenario.goodSpread;
     lowerCase := lowerCase Scenario.goodSpread |}.

Lemma fetch_rejection_classified_witness :
  analyzeImageWithGemini (offline "Failed to fetch") "iVBORw0KGgo=" "image/png"
    None
  = Throw (apiError
             "Network error. Please check your internet connection and try again."
             (Some (JStr "NETWORK_ERROR")) None)
  /\ analyzeImageWithGemini (offline "Load failed") "iVBORw0KGgo=" "image/png"
       None
     = Throw (apiError "Failed to analyze image. Please try again later."
                       (Some (JStr "UNKNOWN_ERROR")) None).
Proof.
  split.
  - apply (fetch_rejection_classified (offline "Failed to fetch")
             "AIzaSyA-sample-key-0123456789" "iVBORw0KGgo=" "image/png" None
             (ThrownTypeError "Failed to fetch")).
    + reflexivity.
    + reflexivity.
    + intros a H. discriminate H.
  - apply (fetch_rejection_classified (offline "Load failed")
             "AIzaSyA-sample-key-0123456789" "iVBORw0KGgo=" "image/png" None
             (ThrownTypeError "Load failed")).
    + reflexivity.
    + reflexivity.
    + intros a H. discriminate H.
Defined.

(** With a key configured and a response with an ok status whose body
    is an object holding, under candidates, an array whose first element
    holds under content, parts, first element, text a string that is not
    empty, the client returns exactly that string; further candidates,
    further parts and other fields are ignored. *)
Theorem ok_response_text_is_returned
        (w : World) (key base64Image mimeType : string)
        (customPrompt : option string) (r : Response)
        (fields candidate content part : list (string * JSON))
        (candidates parts : list JSON) (text : string) :
  configuredKey w = Some key ->
  fetch w (buildRequest key base64Image mimeType
             (JS.or_string customPrompt defaultPrompt)) = Ok r ->
  resp_ok r = true ->
  resp_json r = Ok (JObj fields) ->
  Value.lookup "candidates" fields = Some (JArr (JObj candidate :: candidates)) ->
  Value.lookup "content" candidate = Some (JObj content) ->
  Value.lookup "parts" content = Some (JArr (JObj part :: parts)) ->
  Value.lookup "text" part = Some (JStr text) ->
  text <> "" ->
  analyzeImageWithGemini w base64Image mimeType customPrompt = Ok (JStr text).
Proof.
  intros Hkey Hfetch Hok Hbody Hc Hcontent Hparts Htext Hne.
  unfold analyzeImageWithGemini. rewrite Hkey, Hfetch.
  cbn [Res.bind]. rewrite Hok. cbn [negb]. unfold readAnalysis.
  rewrite Hbody. cbn [Res.bind Value_access.getProp]. rewrite Hc.
  cbn [Value_access.getIndex0Opt hd_error Value_access.getPropOpt].
  rewrite Hcontent. cbn [Value_access.getPropOpt]. rewrite Hparts.
  cbn [Value_access.getIndex0Opt hd_error Value_access.getPropOpt].
  rewrite Htext. cbn [Value.truthy_opt Value.truthy andb].
  apply String.eqb_neq in Hne. rewrite Hne. reflexivity.
Qed.

(** The stubbed endpoint of the accepted-upload scenario answers with the
    text Good spread, and that is what the client returns. *)
Lemma ok_response_text_is_returned_witness :
  analyzeImageWithGemini Scenario.goodSpread "iVBORw0KGgo=" "image/png" None
  = Ok (JStr "Good spread").
Proof.
  apply (ok_response_text_is_returned
           Scenario.goodSpread "AIzaSyA-sample-key-0123456789"
           "iVBORw0KGgo=" "image/png" None
           {| resp_status := 200;
              resp_json := Ok (Scenario.analysisBody "Good spread") |}
           [("candidates",
             JArr [JObj [("content",
                          JObj [("parts",
                                 JArr [JObj [("text", JStr "Good spread")]])])]])]
           [("content",
             JObj [("parts", JArr [JObj [("text", JStr "Good spread")]])])]
           [("parts", JArr [JObj [("text", JStr "Good spread")]])]
           [("text", JStr "Good spread")]
           [] [] "Good spread").
  - reflexivity.
  - reflexivity.
  - reflexivity.
  - reflexivity.
  - reflexivity.
  - reflexivity.
  - reflexivity.
  - reflexivity.
  - discriminate.
Defined.

End ClientProps.

(** ** The encoder: the payload of a data URL *)

Module EncoderProps.

Import Base64.

(** No comma occurs in [s]. *)
Fixpoint commaFree (s : string) : bool :=
  match s with
  | EmptyString => true
  | String c s' => negb (Ascii.eqb c ","%char) && commaFree s'
  end.

Lemma upToComma_commaFree (s : string) : commaFree (upToComma s) = true.
Proof.
  induction s as [| c s IH]; cbn; [reflexivity |].
  destruct (Ascii.eqb c ",") eqn:Hc; cbn; [reflexivity |].
  now rewrite Hc, IH.
Qed.

Lemma upToComma_split (s : string) :
  exists rest,
    s = (upToComma s ++ rest)%string
    /\ (rest = "" \/ exists r, rest = String "," r).
Proof.
  induction s as [| c s (rest & Hs & Hr)]; cbn.
  - exists "". split; [reflexivity | now left].
  - destruct (Ascii.eqb_spec c ",") as [-> | Hc]; cbn.
    + exists (String "," s). split; [reflexivity | right; now exists s].
    + exists rest. split; [now rewrite <- Hs | exact Hr].
Qed.

Lemma upToComma_app (payload rest : string) :
  commaFree payload = true ->
  (rest = "" \/ exists r, rest = String "," r) ->
  upToComma (payload ++ rest) = payload.
Proof.
  intros Hp Hr. induction payload as [| c p IH]; cbn in *.
  - destruct Hr as [-> | [r ->]]; reflexivity.
  - apply andb_true_iff in Hp. destruct Hp as [Hc Hp].
    apply negb_true_iff in Hc. rewrite Hc. f_equal. now apply IH.
Qed.

Lemma afterFirstComma_app (header tail : string) :
  commaFree header = true ->
  afterFirstComma (header ++ String "," tail) = Some (upToComma tail).
Proof.
  intros Hh. induction header as [| c h IH]; cbn in *; [reflexivity |].
  apply andb_true_iff in Hh. destruct Hh as [Hc Hh].
  apply negb_true_iff in Hc. rewrite Hc. now apply IH.
Qed.

Lemma afterFirstComma_split (s payload : string) :
  afterFirstComma s = Some payload ->
  exists header tail,
    commaFree header = true
    /\ s = (header ++ String "," tail)%string
    /\ payload = upToComma tail.
Proof.
  induction s as [| c s IH]; cbn; [discriminate |].
  destruct (Ascii.eqb_spec c ",") as [-> | Hc].
  - intros H. inversion H; subst. exists "", s. repeat split.
  - intros H. destruct (IH H) as (header & tail & Hh & -> & ->).
    exists (String c header), tail. cbn.
    apply Ascii.eqb_neq in Hc. rewrite Hc, Hh. repeat split.
Qed.

(** The encoder returns [payload] exactly when the file is not empty,
    the reader loads a string of the form header, comma, payload, and then
    nothing or a comma and more, where header and payload hold no comma
    and the payload is not empty.  So a returned payload is never empty
    and never holds a comma, and a data URL [data:<type>;base64,<payload>]
    gives back its payload. *)
Theorem convertToBase64_returns_payload
        (w : World) (file : File) (payload : string) :
  convertToBase64 w file = Ok payload
  <-> file_size file <> 0
      /\ payload <> ""
      /\ commaFree payload = true
      /\ exists header rest,
           commaFree header = true
           /\ (rest = "" \/ exists r, rest = String "," r)
           /\ readAsDataURL w file
              = ReaderLoad (Some (header ++ String "," (payload ++ rest))%string).
Proof.
  unfold convertToBase64. split.
  - destruct (Z.eqb_spec (file_size file) 0) as [Hz | Hz]; [discriminate |].
    destruct (readAsDataURL w file) as [[result |] | m |]; try discriminate.
    destruct (afterFirstComma result) as [base64Data |] eqn:Ha; [| discriminate].
    destruct (String.eqb_spec base64Data "") as [He | He]; [discriminate |].
    intros H. inversion H; subst.
    destruct (afterFirstComma_split _ _ Ha) as (header & tail & Hh & -> & Hp).
    destruct (upToComma_split tail) as (rest & Ht & Hr).
    split; [exact Hz |]. split; [exact He |].
    split; [rewrite Hp; apply upToComma_commaFree |].
    exists header, rest. rewrite Hp, <- Ht. repeat split; assumption.
  - intros (Hz & He & Hp & header & rest & Hh & Hr & Hread).
    apply Z.eqb_neq in Hz. rewrite Hz, Hread.
    rewrite (afterFirstComma_app header _ Hh), (upToComma_app payload rest Hp Hr).
    apply String.eqb_neq in He. now rewrite He.
Qed.

End EncoderProps.

(** ** The tags of an analysis *)

Module TagProps.

Import Hook PreludeProps.

Lemma lowerChar_idempotent (c : ascii) : lowerChar (lowerChar c) = lowerChar c.
Proof. destruct c as [[] [] [] [] [] [] [] []]; reflexivity. Qed.

Lemma lowerChar_ascii (c : ascii) :
  (nat_of_ascii (lowerChar c) <? 128)%nat = (nat_of_ascii c <? 128)%nat.
Proof. destruct c as [[] [] [] [] [] [] [] []]; reflexivity. Qed.

Lemma lowerAscii_idempotent (s : string) :
  lowerAscii (lowerAscii s) = lowerAscii s.
Proof.
  induction s as [| c s IH]; cbn; [reflexivity |].
  now rewrite lowerChar_idempotent, IH.
Qed.

Lemma lowerAscii_isAscii (s : string) :
  JS.isAscii (lowerAscii s) = JS.isAscii s.
Proof.
  induction s as [| c s IH]; cbn [lowerAscii JS.isAscii]; [reflexivity |].
  now rewrite lowerChar_ascii, IH.
Qed.

Lemma commonTags_NoDup : NoDup commonTags.
Proof.
  unfold commonTags.
  repeat (constructor;
          [ cbn; intros H;
            repeat (destruct H as [H | H]; [discriminate H |]); exact H |]).
  constructor.
Qed.

Lemma In_firstn {A : Type} (n : nat) (l : list A) (a : A) :
  In a (firstn n l) -> In a l.
Proof.
  revert n. induction l as [| b l IH]; intros [| n]; cbn; try tauto.
  intros [H | H]; [now left | right; exact (IH n H)].
Qed.

Lemma NoDup_firstn {A : Type} (n : nat) (l : list A) :
  NoDup l -> NoDup (firstn n l).
Proof.
  revert n. induction l as [| a l IH]; intros [| n] H; cbn; try constructor.
  - inversion H; subst. intros Hin. apply In_firstn in Hin. contradiction.
  - inversion H; subst. now apply IH.
Qed.

(** The tags of an analysis text are words of the fixed vocabulary
    that occur in [text.toLowerCase()]: at most five of them, without
    repetition, in the order of the vocabulary, and all the occurring
    words when at most five occur.  For a text of ASCII characters only,
    the lowered text is the text with its letters A to Z lowered, whatever
    the engine's tables, and the case of the text does not matter.  An
    analysis that is no string has no tags but a TypeError. *)
Theorem extractTags_spec (lower : string -> string) (text : string) :
  let lowered := toLowerCase lower text in
  let occurring :=
    filter (fun tag => JS.includes lowered tag) commonTags in
  extractTags lower (JStr text) = Ok (firstn 5 occurring)
  /\ (List.length (firstn 5 occurring) <= 5)%nat
  /\ NoDup (firstn 5 occurring)
  /\ (forall tag,
        In tag (firstn 5 occurring) ->
        In tag commonTags
        /\ exists a b, lowered = (a ++ tag ++ b)%string)
  /\ (forall tag a b,
        In tag commonTags ->
        lowered = (a ++ tag ++ b)%string ->
        (List.length occurring <= 5)%nat ->
        In tag (firstn 5 occurring))
  /\ (JS.isAscii text = true ->
      lowered = lowerAscii text
      /\ (forall lower',
            extractTags lower' (JStr text) = extractTags lower (JStr text))
      /\ extractTags lower (JStr (lowerAscii text))
         = extractTags lower (JStr text))
  /\ (forall v, (forall s, v <> JStr s) -> exists m,
          extractTags lower v = Throw (ThrownTypeError m)).
Proof.
  cbv zeta. split; [reflexivity |].
  split; [apply firstn_le_length |].
  split; [apply NoDup_firstn, NoDup_filter, commonTags_NoDup |].
  split; [| split; [| split]].
  - intros tag Hin. apply In_firstn, filter_In in Hin. destruct Hin as [Hc Hi].
    split; [exact Hc | now apply includes_spec].
  - intros tag a b Hc Ht Hlen. rewrite firstn_all2 by exact Hlen.
    apply filter_In. split; [exact Hc |]. apply includes_spec. now exists a, b.
  - intros Ha. unfold extractTags, toLowerCase.
    rewrite lowerAscii_isAscii, Ha, lowerAscii_idempotent.
    repeat split.
  - intros v Hv. destruct v; try (eexists; reflexivity).
    exfalso. exact (Hv s eq_refl).
Qed.

End TagProps.

(** ** The blob URL store over a session *)

Module StoreProps.

Import ImageAnalysis Hook Run Session RunProps PreludeProps.

Lemma blobUrl_inj (a b : Z) : blobUrl a = blobUrl b -> a = b.
Proof.
  unfold blobUrl. intros H. apply string_of_Z_inj.
  cbn in H. congruence.
Qed.

Definition store_ok (st : BlobStore) : Prop :=
  0 <= minted st
  /\ NoDup (live st)
  /\ (forall u, In u (live st) -> exists k, 0 <= k < minted st /\ u = blobUrl k).

Lemma fresh_not_live (st : BlobStore) :
  store_ok st -> ~ In (blobUrl (minted st)) (live st).
Proof.
  intros (_ & _ & Hk) Hin. destruct (Hk _ Hin) as (k & Hr & He).
  apply blobUrl_inj in He. lia.
Qed.

Lemma filter_absent (u : string) (l : list string) :
  ~ In u l -> filter (fun v => negb (String.eqb v u)) l = l.
Proof.
  induction l as [| a l IH]; cbn; intros H; [reflexivity |].
  destruct (String.eqb_spec a u) as [-> | Hne]; cbn.
  - exfalso. apply H. now left.
  - f_equal. apply IH. tauto.
Qed.

Lemma create_ok (st : BlobStore) :
  store_ok st -> store_ok (snd (URL.createObjectURL st)).
Proof.
  intros Hok. pose proof (fresh_not_live st Hok) as Hf.
  destruct Hok as (H0 & Hnd & Hk). unfold URL.createObjectURL, store_ok. cbn.
  split; [lia |]. split; [constructor; assumption |].
  intros u [<- | Hin].
  - exists (minted st). split; [lia | reflexivity].
  - destruct (Hk u Hin) as (k & Hr & ->). exists k. split; [lia | reflexivity].
Qed.

(** The compressor mints at most one URL and revokes it before it settles. *)
Lemma compress_store (w : World) (file : File) (maxWidth quality : float)
      (st : BlobStore) :
  store_ok st ->
  let st' := snd (Compress.compressImage w file maxWidth quality st) in
  live st' = live st
  /\ minted st <= minted st' <= minted st + 1.
Proof.
  intros Hok. pose proof (fresh_not_live st Hok) as Hf.
  cbv zeta. unfold Compress.compressImage.
  destruct (getContext2d w); cbn [negb]; [| cbn; split; [reflexivity | lia]].
  unfold URL.createObjectURL. fold (blobUrl (minted st)).
  assert (Hl : live (URL.revokeObjectURL (blobUrl (minted st))
                 {| minted := minted st + 1;
                    live := blobUrl (minted st) :: live st |})
               = live st).
  { cbn [URL.revokeObjectURL live filter]. rewrite String.eqb_refl. cbn [negb].
    now apply filter_absent. }
  destruct (decodeImage w file) as [[iw ih] |]; [| cbn [snd]; split; [exact Hl | cbn; lia]].
  destruct (Compress.canvasSize iw ih maxWidth) as [cw ch].
  destruct (drawImage w file cw ch); [cbn [snd]; split; [exact Hl | cbn; lia] |].
  destruct (if (cw =? 0) || (ch =? 0) then None else toBlob w file cw ch quality);
    cbn [snd]; (split; [exact Hl | cbn; lia]).
Qed.

(** The compressor never leaves an object URL behind: on every path
    the URLs live after it are those live before it, and without a 2d
    context it mints none.  When it returns a file, the file has the name
    and the declared type of the original and the size of the blob encoded
    from a canvas that has pixels; when it fails, it fails with an
    [Error]. *)
Theorem compressor_releases_its_url
        (w : World) (file : File) (maxWidth quality : float) (st : BlobStore) :
  store_ok st ->
  let out := Compress.compressImage w file maxWidth quality st in
  live (snd out) = live st
  /\ (getContext2d w = false -> snd out = st)
  /\ match fst out with
     | Ok cf =>
         file_name cf = file_name file
         /\ file_type cf = file_type file
         /\ getContext2d w = true
         /\ exists imgWidth imgHeight,
              decodeImage w file = Some (imgWidth, imgHeight)
              /\ let '(cw, ch) :=
                   Compress.canvasSize imgWidth imgHeight maxWidth in
                 cw <> 0 /\ ch <> 0
                 /\ toBlob w file cw ch quality = Some (file_size cf)
     | Throw e => exists m, e = ThrownError m
     end.
Proof.
  intros Hok. cbv zeta.
  split; [exact (proj1 (compress_store w file maxWidth quality st Hok)) |].
  unfold Compress.compressImage.
  destruct (getContext2d w); cbn [negb];
    [| split; [reflexivity | eexists; reflexivity]].
  split; [discriminate |].
  destruct (URL.createObjectURL st) as [u s1].
  destruct (decodeImage w file) as [[iw ih] |]; [| eexists; reflexivity].
  destruct (Compress.canvasSize iw ih maxWidth) as [cw ch] eqn:Hsize.
  destruct (drawImage w file cw ch); [eexists; reflexivity |].
  destruct (Z.eqb_spec cw 0) as [Hcw | Hcw]; cbn [orb];
    [eexists; reflexivity |].
  destruct (Z.eqb_spec ch 0) as [Hch | Hch]; [eexists; reflexivity |].
  destruct (toBlob w file cw ch quality) as [size |] eqn:Hblob;
    [| eexists; reflexivity].
  cbn [fst file_name file_type file_size]. repeat split.
  exists iw, ih. split; [reflexivity |]. rewrite Hsize. repeat split; assumption.
Qed.

(** A 3 MiB PNG in a fresh page: the compressor returns a file and no URL
    is live afterwards. *)
Lemma compressor_releases_its_url_witness :
  live (snd (Compress.compressImage Scenario.goodSpread Scenario.png3M
               Compress.defaultMaxWidth Compress.defaultQuality
               (store initialPage)))
  = [].
Proof.
  apply (compressor_releases_its_url Scenario.goodSpread Scenario.png3M
           Compress.defaultMaxWidth Compress.defaultQuality
           (store initialPage)).
  unfold store_ok. cbn. split; [lia |]. split; [constructor |]. intros u [].
Defined.

(** The object URLs [urls] are pairwise distinct and live in [st]. *)
Definition urls_ok (urls : list string) (st : BlobStore) : Prop :=
  store_ok st /\ NoDup urls /\ incl urls (live st).

Lemma urls_ok_compress (urls : list string) (w : World) (file : File)
      (maxWidth quality : float) (st : BlobStore) :
  urls_ok urls st ->
  urls_ok urls (snd (Compress.compressImage w file maxWidth quality st)).
Proof.
  intros (Hok & Hnd & Hin).
  destruct (compress_store w file maxWidth quality st Hok) as [Hl Hm].
  destruct Hok as (H0 & Hndl & Hk).
  unfold urls_ok, store_ok. rewrite Hl.
  repeat split; try assumption; try lia.
  intros u Hu. destruct (Hk u Hu) as (k & Hr & ->). exists k. split; [lia | reflexivity].
Qed.

Lemma urls_ok_create_keep (urls : list string) (st : BlobStore) :
  urls_ok urls st -> urls_ok urls (snd (URL.createObjectURL st)).
Proof.
  intros (Hok & Hnd & Hin). split; [now apply create_ok |].
  split; [assumption |]. cbn. now apply incl_tl.
Qed.

Lemma urls_ok_create_add (urls : list string) (st : BlobStore) :
  urls_ok urls st ->
  urls_ok (fst (URL.createObjectURL st) :: urls) (snd (URL.createObjectURL st)).
Proof.
  intros (Hok & Hnd & Hin). pose proof (fresh_not_live st Hok) as Hf.
  split; [now apply create_ok |]. cbn. fold (blobUrl (minted st)). split.
  - constructor; [| assumption]. intros H. apply Hf. now apply Hin.
  - intros u [<- | Hu]; [now left | right; now apply Hin].
Qed.

Definition page_ok (pg : Page) : Prop :=
  urls_ok (map imageUrl (results (hook pg))) (store pg).

Lemma analyze_ok (w : World) (file : File) (customPrompt : option string)
      (pg : Page) :
  page_ok pg -> page_ok (snd (analyzeImage w file customPrompt pg)).
Proof.
  unfold page_ok. intros Hpg.
  pose proof (urls_ok_compress _ w file Compress.defaultMaxWidth
                Compress.defaultQuality _ Hpg) as Hc.
  revert Hpg Hc. run_cases; cbn [snd hook store results map]; intros Hpg Hc;
    try assumption.
  all: try (pose proof (f_equal fst Hurl) as Hfst;
            apply (f_equal snd) in Hurl; cbn [fst snd] in Hurl, Hfst; subst;
            first [ now apply urls_ok_create_keep
                  | now apply (urls_ok_create_add _ _ Hc)
                  | now apply (urls_ok_create_add _ _ Hpg) ]).
Qed.

Lemma NoDup_map_filter {A B : Type} (f : A -> B) (keep : A -> bool)
      (l : list A) :
  NoDup (map f l) -> NoDup (map f (filter keep l)).
Proof.
  induction l as [| a l IH]; cbn; intros H; [constructor |].
  inversion H as [| ? ? Hnotin Hnd]; subst.
  destruct (keep a); cbn; [| now apply IH].
  constructor; [| now apply IH].
  intros Hin. apply Hnotin. apply in_map_iff in Hin.
  destruct Hin as (x & Hx & Hf). apply filter_In in Hf.
  apply in_map_iff. exists x. tauto.
Qed.

Lemma apply_ok (op : Op) (pg : Page) : page_ok pg -> page_ok (apply op pg).
Proof.
  destruct op as [w file customPrompt | rid | |]; cbn [apply].
  - apply analyze_ok.
  - unfold page_ok. intros (Hok & Hnd & Hin).
    destruct pg as [[rs pr er] st tm tr]. cbn in *.
    split; [assumption |]. split; [now apply NoDup_map_filter |].
    intros u Hu. apply Hin. apply in_map_iff in Hu.
    destruct Hu as (x & Hx & Hf). apply filter_In in Hf.
    apply in_map_iff. exists x. tauto.
  - unfold page_ok. intros (Hok & Hnd & Hin).
    destruct pg as [[rs pr er] st tm tr]. cbn in *.
    split; [assumption |]. split; [constructor | intros u []].
  - unfold page_ok, fireTimer.
    destruct pg as [[rs pr er] st [| t rest] tr]; cbn; tauto.
Qed.

Lemma after_ok (ops : list Op) (pg : Page) :
  page_ok pg -> page_ok (after ops pg).
Proof.
  revert pg. induction ops as [| op ops IH]; intros pg H; [exact H |].
  cbn. apply IH. now apply apply_ok.
Qed.

Lemma initial_ok : page_ok initialPage.
Proof.
  unfold page_ok, urls_ok, store_ok. cbn.
  repeat split; try constructor; try lia; intros u [].
Qed.

(** Whatever the session, every result on the page has an object URL of
    its own, and that URL is live. *)
Theorem result_urls_distinct_and_live (ops : list Op) :
  let pg := after ops initialPage in
  NoDup (map imageUrl (results (hook pg)))
  /\ (forall r, In r (results (hook pg)) -> In (imageUrl r) (live (store pg)))
  /\ NoDup (live (store pg))
  /\ Z.of_nat (List.length (live (store pg))) <= minted (store pg).
Proof.
  cbv zeta. destruct (after_ok ops initialPage initial_ok) as (Hok & Hnd & Hin).
  split; [exact Hnd |]. split; [| split; [apply Hok |]].
  - intros r Hr. apply Hin. now apply in_map.
  - destruct Hok as (H0 & Hl & Hk).
    assert (Hincl : incl (live (store (after ops initialPage)))
                         (map blobUrl (map Z.of_nat
                            (seq 0 (Z.to_nat (minted (store (after ops initialPage)))))))).
    { intros u Hu. destruct (Hk u Hu) as (k & Hr & ->).
      apply in_map, in_map_iff. exists (Z.to_nat k). split; [lia |].
      apply in_seq. lia. }
    apply NoDup_incl_length in Hincl; [| exact Hl].
    rewrite !length_map, length_seq in Hincl. lia.
Qed.

Lemma analyze_live (w : World) (file : File) (customPrompt : option string)
      (pg : Page) :
  store_ok (store pg) ->
  let pg' := snd (analyzeImage w file customPrompt pg) in
  live (store pg')
  = if minting w file customPrompt pg
    then blobUrl (minted (store pg') - 1) :: live (store pg)
    else live (store pg).
Proof.
  intros Hok.
  pose proof (compress_store w file Compress.defaultMaxWidth
                Compress.defaultQuality _ Hok) as Hc.
  cbv zeta in *. unfold minting. revert Hok Hc.
  run_cases; cbn [snd hook store results map existsb progress Z.eqb orb];
    intros Hok [Hc _]; try assumption; try reflexivity.
  all: pose proof (f_equal snd Hurl) as Hsnd; cbn [snd] in Hsnd; subst;
    cbn [live minted URL.createObjectURL snd]; unfold blobUrl;
    rewrite ?Hc, ?Z.add_simpl_r; reflexivity.
Qed.

(** No operation of the hook revokes an object URL: the live URLs of a
    session only grow, by one for each run whose remote call returns,
    whether or not the run yields a result. *)
Theorem live_urls_only_grow (ops : list Op) (op : Op) :
  let pg := after ops initialPage in
  incl (live (store pg)) (live (store (apply op pg)))
  /\ List.length (live (store (apply op pg)))
     = (List.length (live (store pg))
        + match op with
          | Analyze w file customPrompt =>
              if minting w file customPrompt pg then 1 else 0
          | _ => 0
          end)%nat
  /\ (List.length (results (hook pg)) <= List.length (live (store pg)))%nat.
Proof.
  cbv zeta. destruct (after_ok ops initialPage initial_ok) as (Hok & Hnd & Hin).
  set (pg := after ops initialPage) in *.
  split; [| split].
  - destruct op as [w file customPrompt | rid | |]; cbn [apply].
    + rewrite (analyze_live w file customPrompt pg Hok).
      destruct (minting w file customPrompt pg);
        [apply incl_tl |]; apply incl_refl.
    + apply incl_refl.
    + apply incl_refl.
    + unfold fireTimer. destruct (timers pg); apply incl_refl.
  - destruct op as [w file customPrompt | rid | |]; cbn [apply].
    + rewrite (analyze_live w file customPrompt pg Hok).
      destruct (minting w file customPrompt pg); cbn [List.length]; lia.
    + cbn. lia.
    + cbn. lia.
    + unfold fireTimer. destruct (timers pg); cbn; lia.
  - apply NoDup_incl_length in Hin; [| exact Hnd].
    now rewrite length_map in Hin.
Qed.

End StoreProps.

(** ** The result list: removing, clearing, ids *)

Module ResultListProps.

Import ImageAnalysis Hook Run Session RunProps PreludeProps HookProps.

Definition keeps (rid : string) (result : AnalysisResult) : bool :=
  negb (String.eqb (id result) rid).

Lemma filter_keeps_absent (rid : string) (l : list AnalysisResult) :
  ~ In rid (map id l) -> filter (keeps rid) l = l.
Proof.
  induction l as [| r l IH]; cbn; intros H; [reflexivity |].
  unfold keeps at 1. destruct (String.eqb_spec (id r) rid) as [He | Hne]; cbn.
  - exfalso. apply H. now left.
  - f_equal. apply IH. tauto.
Qed.

Lemma filter_filter {A : Type} (p q : A -> bool) (l : list A) :
  filter p (filter q l) = filter (fun a => q a && p a) l.
Proof.
  induction l as [| a l IH]; cbn; [reflexivity |].
  destruct (q a); cbn; [destruct (p a); cbn; now rewrite IH | exact IH].
Qed.

(** [removeResult] drops exactly the results whose id is the given
    one, keeps the others in their order, and touches nothing else on the
    page; on an id no result carries it changes nothing; it is idempotent
    and two removals commute.  [clearResults] empties the list and also
    clears the error, leaving progress, timers and store alone. *)
Theorem removeResult_and_clearResults (rid other : string) (pg : Page) :
  (forall r, In r (results (hook (removeResult rid pg)))
             <-> In r (results (hook pg)) /\ id r <> rid)
  /\ results (hook (removeResult rid pg))
     = filter (keeps rid) (results (hook pg))
  /\ (~ In rid (map id (results (hook pg))) -> removeResult rid pg = pg)
  /\ removeResult rid (removeResult rid pg) = removeResult rid pg
  /\ removeResult rid (removeResult other pg)
     = removeResult other (removeResult rid pg)
  /\ progressState (hook (removeResult rid pg)) = progressState (hook pg)
  /\ errorState (hook (removeResult rid pg)) = errorState (hook pg)
  /\ timers (removeResult rid pg) = timers pg
  /\ store (removeResult rid pg) = store pg
  /\ clearResults pg
     = {| hook := {| results := [];
                     progressState := progressState (hook pg);
                     errorState := None |};
          store := store pg; timers := timers pg; trace := trace pg |}.
Proof.
  destruct pg as [[rs pr er] st tm tr].
  unfold removeResult, clearResults. cbn. fold (keeps rid) (keeps other).
  split; [| split; [| split; [| split; [| split]]]].
  - intros r. rewrite filter_In. unfold keeps.
    destruct (String.eqb_spec (id r) rid); cbn; intuition congruence.
  - reflexivity.
  - intros H. now rewrite filter_keeps_absent.
  - rewrite filter_filter. do 2 f_equal. apply filter_ext.
    intros a. now destruct (keeps rid a).
  - rewrite !filter_filter. do 2 f_equal. apply filter_ext.
    intros a. apply andb_comm.
  - repeat split.
Qed.

(** The id of a result is the clock reading of its run, so the results
    of two runs carry the same id exactly when the two runs read the same
    millisecond; and then removing by that id drops both results, while
    with different readings it drops only the one asked for. *)
Theorem result_ids_follow_the_clock
        (w1 w2 : World) (file1 file2 : File) (prompt1 prompt2 : option string)
        (pg : Page) (r1 r2 : AnalysisResult) :
  fst (analyzeImage w1 file1 prompt1 pg) = Some r1 ->
  fst (analyzeImage w2 file2 prompt2 (snd (analyzeImage w1 file1 prompt1 pg)))
    = Some r2 ->
  let pg2 :=
    snd (analyzeImage w2 file2 prompt2 (snd (analyzeImage w1 file1 prompt1 pg))) in
  results (hook pg2) = r2 :: r1 :: results (hook pg)
  /\ (id r1 = id r2 <-> dateNow w1 = dateNow w2)
  /\ (dateNow w1 = dateNow w2 ->
      results (hook (removeResult (id r2) pg2))
      = results (hook (removeResult (id r2) pg)))
  /\ (dateNow w1 <> dateNow w2 ->
      results (hook (removeResult (id r2) pg2))
      = r1 :: results (hook (removeResult (id r2) pg))).
Proof.
  intros H1 H2. cbv zeta.
  destruct (run_success_page _ _ _ _ _ H1) as (Hres1 & _ & _ & _ & Hid1 & _).
  destruct (run_success_page _ _ _ _ _ H2) as (Hres2 & _ & _ & _ & Hid2 & _).
  cbv zeta in *. rewrite Hres1 in Hres2.
  assert (Hiff : id r1 = id r2 <-> dateNow w1 = dateNow w2).
  { rewrite Hid1, Hid2. split; [apply string_of_Z_inj | congruence]. }
  split; [exact Hres2 |]. split; [exact Hiff |].
  unfold removeResult. cbn [snd setResults updateHook hook results].
  rewrite Hres2. cbn [filter]. rewrite String.eqb_refl. cbn [negb].
  split; intros Hclock.
  - apply Hiff in Hclock. rewrite Hclock, String.eqb_refl. reflexivity.
  - destruct (String.eqb_spec (id r1) (id r2)) as [He | Hne]; [| reflexivity].
    exfalso. apply Hclock. now apply Hiff.
Qed.

(** Two accepted uploads in the same millisecond: both results carry the
    id 1700000000000, and removing by it empties the list. *)
Definition secondResult : AnalysisResult :=
  {| id := "1700000000000";
     timestamp := 1700000000000;
     imageUrl := "blob:1";
     fileName := "court.png";
     analysis := "Good spread";
     confidence := simulatedConfidence 0.5;
     tags := [] |}.

Lemma result_ids_follow_the_clock_witness :
  let pg1 := snd (analyzeImage Scenario.goodSpread Scenario.png500k None
                               initialPage) in
  let pg2 := snd (analyzeImage Scenario.goodSpread Scenario.png500k None pg1) in
  results (hook pg2) = [secondResult; goodSpreadResult]
  /\ results (hook (removeResult "1700000000000" pg2)) = [].
Proof.
  cbv zeta.
  assert (H1 : fst (analyzeImage Scenario.goodSpread Scenario.png500k None
                      initialPage) = Some goodSpreadResult)
    by (vm_compute; reflexivity).
  assert (H2 : fst (analyzeImage Scenario.goodSpread Scenario.png500k None
                      (snd (analyzeImage Scenario.goodSpread Scenario.png500k
                              None initialPage)))
               = Some secondResult)
    by (vm_compute; reflexivity).
  destruct (result_ids_follow_the_clock
              Scenario.goodSpread Scenario.goodSpread
              Scenario.png500k Scenario.png500k None None initialPage
              goodSpreadResult secondResult H1 H2)
    as (Hres & _ & Hsame & _).
  split; [exact Hres |]. exact (Hsame eq_refl).
Defined.

(** The reset timer of a run that completed is not cancelled by a later
    run: when the next run fails before the timer is due, the page shows
    the Error phase until the timer fires, and then the progress is Idle
    at percent 0 with no message while the stored error is still there. *)
Theorem stale_reset_overwrites_error
        (w1 w2 : World) (file1 file2 : File) (prompt1 prompt2 : option string)
        (pg : Page) (r1 : AnalysisResult) :
  timers pg = [] ->
  fst (analyzeImage w1 file1 prompt1 pg) = Some r1 ->
  fst (analyzeImage w2 file2 prompt2 (snd (analyzeImage w1 file1 prompt1 pg)))
    = None ->
  let pg2 :=
    snd (analyzeImage w2 file2 prompt2 (snd (analyzeImage w1 file1 prompt1 pg))) in
  exists msg,
    progressState (hook pg2)
      = {| progress := 0; status := error; message := Some msg |}
    /\ errorState (hook pg2) = Some msg
    /\ timers pg2 = [mkTimer 2000 idleProgress]
    /\ progressState (hook (fireTimer pg2)) = idleProgress
    /\ errorState (hook (fireTimer pg2)) = Some msg
    /\ results (hook (fireTimer pg2)) = r1 :: results (hook pg).
Proof.
  intros Htm H1 H2. cbv zeta.
  destruct (run_success_page _ _ _ _ _ H1) as (Hres1 & _ & _ & Htm1 & _).
  destruct (run_failure_page _ _ _ _ H2) as (msg & Herr & Hprog & Htm2 & Hres2).
  cbv zeta in *. rewrite Htm1, Htm in Htm2. rewrite Hres1 in Hres2.
  exists msg. split; [exact Hprog |]. split; [exact Herr |].
  split; [exact Htm2 |].
  unfold fireTimer. rewrite Htm2. cbn. repeat split; assumption.
Qed.

(** An accepted upload followed by an oversize one: when the first run's
    timer fires, the progress is Idle and the size reason is still the
    stored error. *)
Lemma stale_reset_overwrites_error_witness :
  let pg1 := snd (analyzeImage Scenario.goodSpread Scenario.png500k None
                               initialPage) in
  let pg2 := snd (analyzeImage Scenario.goodSpread Scenario.jpeg11M None pg1) in
  exists msg,
    status (progressState (hook pg2)) = error
    /\ errorState (hook pg2) = Some msg
    /\ progressState (hook (fireTimer pg2)) = idleProgress
    /\ errorState (hook (fireTimer pg2)) = Some msg.
Proof.
  cbv zeta.
  assert (H1 : fst (analyzeImage Scenario.goodSpread Scenario.png500k None
                      initialPage) = Some goodSpreadResult)
    by (vm_compute; reflexivity).
  destruct (stale_reset_overwrites_error
              Scenario.goodSpread Scenario.goodSpread
              Scenario.png500k Scenario.jpeg11M None None initialPage
              goodSpreadResult eq_refl H1 eq_refl)
    as (msg & Hprog & Herr & _ & Hidle & Herr' & _).
  exists msg. split; [now rewrite Hprog |].
  split; [exact Herr |]. split; [exact Hidle | exact Herr'].
Defined.

End ResultListProps.

(** ** Markers: clicking twice, the counts, what is drawn *)

Module MarkerProps.

Import Context2d AnnotationCanvas AnnotationView.

(** A number that is neither NaN nor infinite. *)
Definition finite (a : float) : bool :=
  match Prim2SF a with
  | S754_zero _ | S754_finite _ _ _ => true
  | _ => false
  end.

Lemma sub_self (a : float) :
  finite a = true -> Prim2SF (a - a) = S754_zero false.
Proof.
  unfold finite. rewrite FloatAxioms.sub_spec.
  destruct (Prim2SF a) as [s | s | | s m e]; try discriminate; intros _.
  - destruct s; reflexivity.
  - unfold SF64sub, SFsub. rewrite Z.sub_diag. reflexivity.
Qed.

(** A marker is within range of a click at its own position. *)
Lemma hit_self (px py : float) (t : Tool) (i : string) :
  finite px = true -> finite py = true ->
  hit px py {| x := px; y := py; type := t; id := i |} = true.
Proof.
  intros Hx Hy. unfold hit, distance, square. cbn [x y].
  rewrite FloatAxioms.leb_spec, FloatAxioms.sqrt_spec, FloatAxioms.add_spec,
    !FloatAxioms.mul_spec, (sub_self px Hx), (sub_self py Hy).
  vm_compute. reflexivity.
Qed.

Lemma findIndex_app_last {A : Type} (p : A -> bool) (l : list A) (a : A) :
  JS.findIndex p l = -1 -> p a = true ->
  JS.findIndex p (l ++ [a]) = Z.of_nat (List.length l).
Proof.
  induction l as [| b l IH]; cbn.
  - intros _ Ha. now rewrite Ha.
  - destruct (p b); [discriminate |].
    pose proof (findIndex_ge p l) as Hge.
    destruct (Z.eqb_spec (JS.findIndex p l) (-1)) as [He | Hne];
      [| intros; lia].
    intros _ Ha. rewrite (IH He Ha).
    destruct (Z.eqb_spec (Z.of_nat (List.length l)) (-1)); lia.
Qed.

(** A click that makes the marker list longer found no marker. *)
Lemma added_then_none_found (st : State) (e : MouseEvent) (rect : DOMRect)
      (now : Z) :
  List.length (points (click st e rect now)) = S (List.length (points st)) ->
  JS.findIndex (hit (clientX e - left rect) (clientY e - top rect))
               (points st) = -1.
Proof.
  intros Hlen.
  destruct (Z.eq_dec
              (JS.findIndex (hit (clientX e - left rect)
                                 (clientY e - top rect)) (points st))
              (-1)) as [Heq | Hne]; [exact Heq | exfalso].
  destruct (findIndex_first _ _ Hne)
    as (before & p & after & Hpts & _ & _ & Hidx).
  revert Hlen. unfold click, handleCanvasClick. cbn [points].
  destruct (Z.eqb_spec
              (JS.findIndex (hit (clientX e - left rect)
                                 (clientY e - top rect)) (points st))
              (-1)) as [Heq | _]; [contradiction |].
  cbn [negb]. rewrite Hidx, Hpts.
  replace (JS.filter_index _ 0 (before ++ p :: after)) with (before ++ after)
    by (symmetry; apply (filter_index_remove before after p 0)).
  rewrite !length_app. cbn [List.length]. lia.
Qed.

(** When a click at a finite position adds a marker, a second click at
    the same position finds that marker, whose distance from the click
    computes to 0 in binary64, and no earlier one, and removes it: the
    marker set and the selected tool are back as they were, and so they
    are when the added marker is undone instead. *)
Theorem click_twice_restores
        (st : State) (e : MouseEvent) (rect : DOMRect) (now later : Z) :
  let px := (clientX e - left rect)%float in
  let py := (clientY e - top rect)%float in
  finite px = true -> finite py = true ->
  List.length (points (click st e rect now)) = S (List.length (points st)) ->
  click (click st e rect now) e rect later = st
  /\ undoLastPoint (click st e rect now) = st
  /\ points (click st e rect now)
     = points st ++ [ {| x := px; y := py; type := currentTool st;
                         id := JS.string_of_Z now |} ].
Proof.
  cbv zeta. intros Hx Hy Hadded.
  pose proof (added_then_none_found st e rect now Hadded) as Hnone.
  destruct st as [pts tool].
  assert (H1 : click {| points := pts; currentTool := tool |} e rect now
               = {| points := pts ++ [ {| x := clientX e - left rect;
                                          y := clientY e - top rect;
                                          type := tool;
                                          id := JS.string_of_Z now |} ];
                    currentTool := tool |}).
  { unfold click, handleCanvasClick. cbn [points currentTool] in *.
    rewrite Hnone. reflexivity. }
  rewrite H1. split; [| split].
  - unfold click, handleCanvasClick. cbn [points currentTool] in *.
    rewrite (findIndex_app_last _ _ _ Hnone (hit_self _ _ tool _ Hx Hy)).
    destruct (Z.eqb_spec (Z.of_nat (List.length pts)) (-1)) as [Hm | _]; [lia |].
    cbn [negb]. f_equal.
    rewrite (filter_index_remove pts [] _ 0). apply app_nil_r.
  - unfold undoLastPoint. cbn [points currentTool]. f_equal.
    apply removelast_last.
  - reflexivity.
Qed.

(** Two clicks at (100, 100) on the empty canvas leave it empty. *)
Lemma click_twice_restores_witness :
  click (click initialState (fst (clickAt 100 100)) (snd (clickAt 100 100)) 1)
        (fst (clickAt 100 100)) (snd (clickAt 100 100)) 2
  = initialState.
Proof.
  apply (click_twice_restores initialState (fst (clickAt 100 100))
           (snd (clickAt 100 100)) 1 2).
  - vm_compute. reflexivity.
  - vm_compute. reflexivity.
  - vm_compute. reflexivity.
Defined.

Definition isLabel (text : string) (call : CanvasCall) : bool :=
  match call with
  | FillText t _ _ => String.eqb t text
  | _ => false
  end.

Definition isCircle (call : CanvasCall) : bool :=
  match call with
  | Arc _ _ _ _ _ => true
  | _ => false
  end.

Lemma counts_cons (p : Point) (pts : list Point) :
  successCount (p :: pts)
  = successCount pts + (if isType success p then 1 else 0)
  /\ failureCount (p :: pts)
     = failureCount pts + (if isType failure p then 1 else 0).
Proof.
  unfold successCount, failureCount. cbn [filter].
  destruct (isType success p), (isType failure p); cbn [List.length]; lia.
Qed.

Lemma counts_app (l r : list Point) :
  successCount (l ++ r) = successCount l + successCount r
  /\ failureCount (l ++ r) = failureCount l + failureCount r.
Proof.
  unfold successCount, failureCount. rewrite !filter_app, !length_app. lia.
Qed.

Lemma total_length (pts : list Point) :
  totalPoints pts = Z.of_nat (List.length pts).
Proof.
  unfold totalPoints. induction pts as [| p pts IH].
  - reflexivity.
  - destruct (counts_cons p pts) as [-> ->]. cbn [List.length].
    unfold isType. destruct (type p); lia.
Qed.

(** The counts under the canvas agree with the marker set and with
    what is drawn: the total is the number of markers, the summary is
    shown exactly when the four actions are enabled, a click that adds a
    marker raises the count of the selected kind by one and leaves the
    other, a click that hits a marker lowers the total by one, and a
    redraw paints one circle per marker, an O for each success and an X
    for each failure. *)
Theorem counts_match_markers
        (st : State) (e : MouseEvent) (rect : DOMRect) (now cw ch : Z) :
  let px := (clientX e - left rect)%float in
  let py := (clientY e - top rect)%float in
  let pts := points st in
  let pts' := points (click st e rect now) in
  totalPoints pts = Z.of_nat (List.length pts)
  /\ summaryShown pts = negb (actionsDisabled pts)
  /\ ((forall q, In q pts -> hit px py q = false) ->
      successCount pts'
      = successCount pts
        + match currentTool st with success => 1 | failure => 0 end
      /\ failureCount pts'
         = failureCount pts
           + match currentTool st with success => 0 | failure => 1 end)
  /\ ((exists q, In q pts /\ hit px py q = true) ->
      totalPoints pts' = totalPoints pts - 1)
  /\ Z.of_nat (List.length (filter isCircle (redrawCanvas cw ch pts)))
     = totalPoints pts
  /\ Z.of_nat (List.length (filter (isLabel "O") (redrawCanvas cw ch pts)))
     = successCount pts
  /\ Z.of_nat (List.length (filter (isLabel "X") (redrawCanvas cw ch pts)))
     = failureCount pts.
Proof.
  cbv zeta. split; [apply total_length |]. split; [| split; [| split]].
  - unfold summaryShown, actionsDisabled. rewrite total_length.
    destruct (points st); reflexivity.
  - intros Hnone. apply (findIndex_none (hit _ _)) in Hnone.
    unfold click, handleCanvasClick. cbn [points]. rewrite Hnone, Z.eqb_refl. cbn [negb].
    destruct (counts_app (points st)
                [ {| x := clientX e - left rect; y := clientY e - top rect;
                     type := currentTool st; id := JS.string_of_Z now |} ])
      as [-> ->].
    unfold successCount at 2, failureCount at 2, isType. cbn.
    destruct (currentTool st); split; reflexivity.
  - intros (q & Hin & Hq).
    assert (Hex : JS.findIndex (hit (clientX e - left rect)
                                    (clientY e - top rect)) (points st) <> -1).
    { intros Hn. rewrite findIndex_none in Hn. rewrite (Hn q Hin) in Hq.
      discriminate. }
    destruct (findIndex_first _ _ Hex) as (before & p & after & Hpts & _ & _ & Hidx).
    unfold click, handleCanvasClick. cbn [points].
    destruct (Z.eqb_spec
                (JS.findIndex (hit (clientX e - left rect)
                                   (clientY e - top rect)) (points st))
                (-1)) as [Heq | _]; [contradiction |].
    cbn [negb]. rewrite Hidx, Hpts.
    replace (JS.filter_index _ 0 (before ++ p :: after)) with (before ++ after)
      by (symmetry; apply (filter_index_remove before after p 0)).
    rewrite !total_length, !length_app. cbn [List.length]. lia.
  - unfold redrawCanvas. cbn [app filter isCircle isLabel String.eqb Ascii.eqb].
    cbn [filter isCircle isLabel].
    induction (points st) as [| p pts IH].
    + repeat split.
    + cbn [flat_map]. rewrite !filter_app, !length_app, !Nat2Z.inj_add.
      destruct IH as (IH1 & IH2 & IH3). rewrite IH1, IH2, IH3.
      unfold totalPoints.
      destruct (counts_cons p pts) as [-> ->].
      unfold drawPoint, isType. destruct (type p);
        cbn -[Z.add Z.of_nat successCount failureCount]; repeat split; lia.
Qed.

End MarkerProps.

(** ** The settings modal and the client's key check *)

Module KeyProps.

(** A key the settings modal accepts when typed (more than 20 UTF-16
    code units, starting with AIza) is a key the client uses; the modal
    shows a key found in the environment as valid exactly when the client
    uses it; and the two checks of the modal disagree on every usable key
    that is short or starts otherwise: shown as valid on mount, as invalid
    once the same key is typed.  The length is counted in code units, not
    bytes: AIza followed by nine times the letter e with an acute accent
    has 13 of the first and 22 of the second, and is rejected. *)
Theorem key_checks_compared (w : World) (key : string) (st : SettingsModal.State) :
  (apiKey w = Some key -> SettingsModal.validateApiKey key = true ->
   GeminiApi.configuredKey w = Some key)
  /\ (SettingsModal.isValidKey (SettingsModal.onMount (apiKey w) SettingsModal.initialState) = true
      <-> exists k, GeminiApi.configuredKey w = Some k)
  /\ (GeminiApi.configuredKey w = Some key -> SettingsModal.validateApiKey key = false ->
      SettingsModal.isValidKey (SettingsModal.onMount (apiKey w) st) = true
      /\ SettingsModal.isValidKey (SettingsModal.handleApiKeyChange key (SettingsModal.onMount (apiKey w) st))
         = false)
  /\ SettingsModal.validateApiKey "your_gemini_api_key_here" = false
  /\ (SettingsModal.validateApiKey key = true <->
      (20 < JS.length key)%nat /\ exists rest, key = ("AIza" ++ rest)%string)
  /\ (JS.length "AIzaééééééééé" = 13%nat
      /\ String.length "AIzaééééééééé" = 22%nat
      /\ SettingsModal.validateApiKey "AIzaééééééééé" = false).
Proof.
  split; [| split; [| split; [| split; [| split]]]].
  - intros Hw Hv. unfold GeminiApi.configuredKey. rewrite Hw.
    unfold SettingsModal.validateApiKey in Hv. apply andb_true_iff in Hv.
    destruct Hv as [_ Hp]. apply PreludeProps.prefix_app in Hp.
    destruct Hp as [rest ->]. reflexivity.
  - unfold GeminiApi.configuredKey, SettingsModal.onMount.
    destruct (apiKey w) as [k |]; cbn.
    + destruct (String.eqb k ""), (String.eqb k "your_gemini_api_key_here");
        cbn; split; try discriminate; try (intros [k' Hk]; discriminate);
        try reflexivity.
      intros _. now exists k.
    + split; [discriminate | intros [k' Hk]; discriminate].
  - unfold GeminiApi.configuredKey, SettingsModal.onMount, SettingsModal.handleApiKeyChange.
    destruct (apiKey w) as [k |]; [| discriminate].
    destruct (String.eqb k ""), (String.eqb k "your_gemini_api_key_here");
      cbn; try discriminate.
    intros Hk Hv. inversion Hk; subst. cbn. split; [reflexivity | exact Hv].
  - reflexivity.
  - unfold SettingsModal.validateApiKey.
    rewrite andb_true_iff, Nat.ltb_lt. split; intros [Hlen Hp]; split;
      try exact Hlen.
    + now apply PreludeProps.prefix_app.
    + destruct Hp as [rest ->]. destruct rest; reflexivity.
  - repeat split.
Qed.

End KeyProps.

(** ** The court generator *)

Module CourtProps.

Import Context2d CourtGenerator.

(** A point a call touches is followed, and lies on a canvas of [w] by
    [h]. *)
Definition inside (w h : float) (p : option (float * float)) : bool :=
  match p with
  | Some (x, y) => ((0 <=? x) && (x <=? w) && (0 <=? y) && (y <=? h))%float
  | None => false
  end.

Definition isStroke (call : CanvasCall) : bool :=
  match call with Stroke => true | _ => false end.

Lemma forUpTo_enough (n : nat) :
  forall (i limit step : float) (m : nat) (body : float -> list CanvasCall),
    (List.length (forUpTo n i limit step (fun _ => [Stroke])) < n)%nat ->
    (n <= m)%nat ->
    forUpTo m i limit step body = forUpTo n i limit step body.
Proof.
  induction n as [| n IH]; intros i limit step m body Hlen Hm; cbn in Hlen;
    [lia |].
  destruct m as [| m]; [lia |]. cbn [forUpTo].
  destruct (i <=? limit)%float; [| reflexivity].
  cbn [app List.length] in Hlen. f_equal. apply IH; lia.
Qed.

(** The generated court: the canvas is 660 by 390, and the 116 points
    the drawing touches (the corners of its five rectangles, the ends of
    its 51 lines, the anchors of its four texts) all lie on it, each taken
    under the transformation in force at its call: the label 9m, drawn at
    the origin of axes that were moved to (35, 195) and then turned, is
    anchored at (35, 195).  The two loops of the net end by their test,
    after 7 vertical and 37 horizontal lines (51 strokes in all with the 7
    lines of the court), so that allowing more rounds draws the same.  The
    file made from the canvas is a PNG named volleyball-court-default.png
    of the size of the encoded blob, which the validator accepts exactly
    when that size is at most 10 MiB; without a 2d context or without a
    blob the generator fails, and the preview fails with it. *)
Theorem generated_court (env : Environment) (read : File -> ReaderEvent) :
  (Canvas.setDimension 300 canvasWidth, Canvas.setDimension 150 canvasHeight)
    = (660, 390)
  /\ forallb (inside canvasWidth canvasHeight)
             (touched (Upright 0 0) [] drawCourt) = true
  /\ List.length (touched (Upright 0 0) [] drawCourt) = 116%nat
  /\ labels (Upright 0 0) [] drawCourt
     = [ ("Team A", Some (195, 195)); ("Team B", Some (465, 195));
         ("18m", Some (330, 35)); ("9m", Some (35, 195)) ]%float
  /\ List.length (filter isStroke drawCourt) = 51%nat
  /\ (forall m body,
        (100 <= m)%nat ->
        forUpTo m (-15) 15 5 body = forUpTo 100 (-15) 15 5 body
        /\ List.length (forUpTo 100 (-15) 15 5 (fun _ => [Stroke])) = 7%nat
        /\ forUpTo m 0 (COURT_height + 20) 8 body
           = forUpTo 100 0 (COURT_height + 20) 8 body
        /\ List.length
             (forUpTo 100 0 (COURT_height + 20) 8 (fun _ => [Stroke]))
           = 37%nat)
  /\ match generateVolleyballCourt env with
     | Ok file =>
         hasContext env = true
         /\ encode env 660 390 drawCourt "image/png" 0.95%float
            = Some (file_size file)
         /\ file_name file = "volleyball-court-default.png"
         /\ file_type file = "image/png"
         /\ (ImageUtils.isValid (ImageUtils.validateImageFile file) = true
             <-> file_size file <= 10 * 1024 * 1024)
     | Throw e =>
         generateCourtPreview env read = Some (Throw e)
         /\ ((hasContext env = false
              /\ e = ThrownError "Canvas context not available")
             \/ (hasContext env = true
                 /\ encode env 660 390 drawCourt "image/png" 0.95%float = None
                 /\ e = ThrownError "Failed to generate court image"))
     end.
Proof.
  split; [vm_compute; reflexivity |].
  split; [vm_compute; reflexivity |].
  split; [vm_compute; reflexivity |].
  split; [vm_compute; reflexivity |].
  split; [vm_compute; reflexivity |].
  split.
  { intros m body Hm.
    split; [apply forUpTo_enough; [vm_compute; lia | exact Hm] |].
    split; [vm_compute; reflexivity |].
    split; [apply forUpTo_enough; [vm_compute; lia | exact Hm] |].
    vm_compute; reflexivity. }
  unfold generateCourtPreview, generateVolleyballCourt.
  change (Canvas.setDimension 300 canvasWidth) with 660.
  change (Canvas.setDimension 150 canvasHeight) with 390.
  destruct (hasContext env); cbn [negb];
    [| split; [reflexivity | left; split; reflexivity]].
  destruct (encode env 660 390 drawCourt "image/png" 0.95%float) as [size |];
    [| split; [reflexivity | right; repeat split] ].
  cbn [file_size file_name file_type]. repeat split.
  - unfold ImageUtils.validateImageFile. cbn [file_type file_size].
    change (JS.includes_elem ImageUtils.validTypes "image/png") with true.
    cbn [negb]. unfold ImageUtils.maxSize.
    destruct (Z.gtb_spec size (10 * 1024 * 1024)); cbn; [discriminate | lia].
  - unfold ImageUtils.validateImageFile. cbn [file_type file_size].
    change (JS.includes_elem ImageUtils.validTypes "image/png") with true.
    cbn [negb]. unfold ImageUtils.maxSize.
    destruct (Z.gtb_spec size (10 * 1024 * 1024)); cbn; [lia | reflexivity].
Qed.

End CourtProps.

(** ** The image selection modal *)

Module ModalProps.

Import ImageSelectionModal.

Definition isSelect (c : Callback) : bool :=
  match c with OnImageSelect _ => true | _ => false end.

Definition isClose (c : Callback) : bool :=
  match c with OnClose => true | _ => false end.

Definition isCloseClick (a : Action) : bool :=
  match a with ClickClose => true | _ => false end.

(** A file the modal may hand on: one the validator accepts, or the
    generated court. *)
Definition handedOn (file : File) : Prop :=
  ImageUtils.isValid (ImageUtils.validateImageFile file) = true
  \/ (file_name file = "volleyball-court-default.png"
      /\ file_type file = "image/png").

(** The calls of one action: none, a hand-over followed by the request to
    close, one logged error, or the request to close alone. *)
Definition handsOnOrNothing (calls : list Callback) : Prop :=
  calls = []
  \/ (exists file, handedOn file /\ calls = [OnImageSelect file; OnClose])
  \/ (exists e, calls = [LogError e])
  \/ calls = [OnClose].

(** The requests to close of one action: one for each hand-over, and one
    for a click on the button of the header. *)
Definition closesMatch (a : Action) (calls : list Callback) : Prop :=
  List.length (filter isClose calls)
  = (List.length (filter isSelect calls)
     + (if isCloseClick a then 1 else 0))%nat.

Lemma handleFileSelect_calls (file : File) (st : State) :
  handsOnOrNothing (snd (handleFileSelect file st))
  /\ isGeneratingCourt (fst (handleFileSelect file st)) = isGeneratingCourt st
  /\ List.length (filter isClose (snd (handleFileSelect file st)))
     = List.length (filter isSelect (snd (handleFileSelect file st))).
Proof.
  unfold handleFileSelect, handsOnOrNothing.
  destruct (ImageUtils.isValid (ImageUtils.validateImageFile file)) eqn:Hv;
    cbn.
  - split; [right; left; exists file; split; [now left | reflexivity] |].
    split; reflexivity.
  - split; [now left |]. split; reflexivity.
Qed.

Lemma step_calls (a : Action) (st : State) :
  handsOnOrNothing (snd (step a st))
  /\ closesMatch a (snd (step a st))
  /\ (isGeneratingCourt st = false ->
      isGeneratingCourt (fst (step a st)) = false).
Proof.
  unfold closesMatch.
  destruct a as [eventType | files | files | env |]; cbn [step isCloseClick].
  - unfold handleDrag, handsOnOrNothing.
    destruct (_ || _); [cbn; tauto |].
    destruct (String.eqb eventType "dragleave"); cbn; tauto.
  - unfold handleDrop. destruct files as [| file files].
    + cbn. split; [now left | tauto].
    + destruct (handleFileSelect_calls file
                  (setError None (setDragActive false st))) as (H1 & H2 & H3).
      split; [exact H1 |]. split; [rewrite H3; lia |].
      intros Hg; rewrite H2; exact Hg.
  - unfold handleFileInput. destruct files as [| file files].
    + cbn. split; [now left | tauto].
    + destruct (handleFileSelect_calls file st) as (H1 & H2 & H3).
      split; [exact H1 |]. split; [rewrite H3; lia |].
      intros Hg; rewrite H2; exact Hg.
  - unfold handleDefaultImageSelect, CourtGenerator.generateVolleyballCourt,
      handsOnOrNothing.
    destruct (CourtGenerator.hasContext env); cbn [negb];
      [| cbn; split; [right; right; left; eexists; reflexivity | tauto]].
    destruct (CourtGenerator.encode env _ _ _ _ _) as [size |]; cbn.
    + split; [| tauto]. right; left. eexists. split; [| reflexivity].
      right. split; reflexivity.
    + split; [right; right; left; eexists; reflexivity | tauto].
  - cbn. split; [right; right; right; reflexivity | tauto].
Qed.

(** Whatever is done to the open modal, every file it hands to its
    owner is one the validator accepts or the generated court (a PNG named
    volleyball-court-default.png, handed on without validation); each
    hand-over is followed at once by the request to close, and the only
    other requests to close are the clicks on the button of the header.
    A dropped or chosen file the validator rejects is not handed on, and
    its reason is shown as the error; one the validator accepts is handed
    on and the error is cleared.  The generating flag is down after every
    action. *)
Theorem modal_hands_on_valid_or_generated
        (actions : list Action) (st : State) :
  let out := run actions st in
  (forall file, In (OnImageSelect file) (snd out) -> handedOn file)
  /\ (exists groups,
         snd out = List.concat groups
         /\ Forall handsOnOrNothing groups
         /\ List.length groups = List.length actions)
  /\ List.length (filter isClose (snd out))
     = (List.length (filter isSelect (snd out))
        + List.length (filter isCloseClick actions))%nat
  /\ (isGeneratingCourt st = false -> isGeneratingCourt (fst out) = false)
  /\ (forall file files st0 a,
         a = Drop (file :: files) \/ a = FileInput (file :: files) ->
         (ImageUtils.isValid (ImageUtils.validateImageFile file) = false ->
          snd (step a st0) = []
          /\ error (fst (step a st0))
             = ImageUtils.error (ImageUtils.validateImageFile file)
          /\ error (fst (step a st0)) <> None)
         /\ (ImageUtils.isValid (ImageUtils.validateImageFile file) = true ->
             snd (step a st0) = [OnImageSelect file; OnClose]
             /\ error (fst (step a st0)) = None)).
Proof.
  cbv zeta.
  assert (Hgroups :
            exists groups,
              snd (run actions st) = List.concat groups
              /\ Forall handsOnOrNothing groups
              /\ List.length groups = List.length actions
              /\ List.length (filter isClose (snd (run actions st)))
                 = (List.length (filter isSelect (snd (run actions st)))
                    + List.length (filter isCloseClick actions))%nat
              /\ (isGeneratingCourt st = false ->
                  isGeneratingCourt (fst (run actions st)) = false)).
  { revert st. induction actions as [| a actions IH]; intros st.
    - exists []. cbn. repeat split; auto.
    - cbn [run]. destruct (step_calls a st) as (Hc & Hm & Hg).
      unfold closesMatch in Hm.
      destruct (step a st) as [st1 calls1]. cbn [fst snd] in Hc, Hm, Hg.
      destruct (IH st1) as (groups & Hs & Hf & Hl & Hcount & Hgen).
      destruct (run actions st1) as [st2 calls2]. cbn [fst snd] in *.
      exists (calls1 :: groups). cbn [List.concat List.length filter].
      rewrite Hs. split; [reflexivity |]. split; [now constructor |].
      split; [congruence |]. split; [| tauto].
      rewrite <- Hs, !filter_app, !length_app, Hcount, Hm.
      destruct (isCloseClick a); cbn [List.length]; lia. }
  destruct Hgroups as (groups & Hs & Hf & Hl & Hcount & Hgen).
  split; [| split; [| split; [| split]]].
  - intros file Hin. rewrite Hs in Hin. clear Hs Hl Hcount.
    induction Hf as [| g groups Hg Hf IH]; [destruct Hin |].
    cbn [List.concat] in Hin. apply in_app_or in Hin.
    destruct Hin as [Hin | Hin]; [| exact (IH Hin)].
    destruct Hg as [-> | [(f & Hfile & ->) | [(e & ->) | ->]]]; cbn in Hin.
    + destruct Hin.
    + destruct Hin as [Hin | [Hin | []]]; [| discriminate].
      inversion Hin; subst. exact Hfile.
    + destruct Hin as [Hin | []]. discriminate.
    + destruct Hin as [Hin | []]. discriminate.
  - exists groups. repeat split; assumption.
  - exact Hcount.
  - exact Hgen.
  - intros file files st0 a Ha.
    assert (Hr : ImageUtils.isValid (ImageUtils.validateImageFile file) = false ->
                 ImageUtils.error (ImageUtils.validateImageFile file) <> None
                 /\ Some (JS.or_string
                            (ImageUtils.error (ImageUtils.validateImageFile file))
                            "Invalid file")
                    = ImageUtils.error (ImageUtils.validateImageFile file)).
    { unfold ImageUtils.validateImageFile.
      destruct (negb _); [cbn; split; [discriminate | reflexivity] |].
      destruct (_ >? _); [cbn; split; [discriminate | reflexivity] |].
      discriminate. }
    destruct Ha as [-> | ->]; cbn [step];
      unfold handleDrop, handleFileInput, handleFileSelect;
      destruct (ImageUtils.isValid (ImageUtils.validateImageFile file)) eqn:Hv;
      cbn [negb fst snd setError error].
    all: split; intros Hx; try discriminate Hx.
    all: try (split; reflexivity).
    all: destruct (Hr eq_refl) as [Hne Heq]; rewrite Heq.
    all: repeat split; assumption.
Qed.

End ModalProps.

(** ** The upload panel *)

Module UploadProps.

Import ImageUpload.

(** The file an action offers to the panel, if any: the first file of a
    drop or of the file input while the drop zone is not disabled, the
    first file picked through Upload Own. *)
Definition offered (da : bool * Action) : list File :=
  match da with
  | (false, Drop (file :: _)) | (false, FileInput (file :: _))
  | (_, ClickUploadOwn (file :: _)) => [file]
  | _ => []
  end.

Definition isHandOver (c : Callback) : bool :=
  match c with
  | OnImageSelect _ _ | OnImageAnnotate _ => true
  | OnDefaultImageSelect => false
  end.

Definition handedFile (c : Callback) : list File :=
  match c with
  | OnImageSelect file _ | OnImageAnnotate file => [file]
  | OnDefaultImageSelect => []
  end.

Definition selected (st : State) : nat :=
  match selectedFile st with Some _ => 1 | None => 0 end.

(** The options are shown exactly when a file is selected. *)
Definition consistent (st : State) : Prop :=
  showOptions st = true <-> selectedFile st <> None.

Definition promptOk (c : Callback) : Prop :=
  match c with
  | OnImageSelect _ p => p <> Some ""
  | _ => True
  end.

Lemma promptOrUndefined_ok (s : string) : promptOrUndefined s <> Some "".
Proof.
  unfold promptOrUndefined. destruct (String.eqb_spec s ""); congruence.
Qed.

Ltac step_cases disabled a st :=
  destruct st as [da cp [|] [sf |] [|] [|]], a as
      [eventType | [| f fs] | | [| f fs] | | value | | [| f fs] | | | | ],
      disabled;
  unfold step, view; cbn;
  try match goal with
      | |- context [handleDrag ?t ?s] =>
          unfold handleDrag;
          destruct (String.eqb t "dragenter" || String.eqb t "dragover");
          [| destruct (String.eqb t "dragleave")]; cbn
      end.

Lemma step_facts (disabled : bool) (a : Action) (st : State) :
  consistent st ->
  let out := step disabled a st in
  consistent (fst out)
  /\ Forall promptOk (snd out)
  /\ (forall file, In file (flat_map handedFile (snd out)) ->
                   selectedFile st = Some file)
  /\ (forall file, selectedFile (fst out) = Some file ->
                   selectedFile st = Some file
                   \/ In file (offered (disabled, a)))
  /\ (List.length (filter isHandOver (snd out)) + selected (fst out)
      <= List.length (offered (disabled, a)) + selected st)%nat.
Proof.
  intros Hc. cbv zeta. unfold consistent in *.
  step_cases disabled a st.
  all: cbn in Hc.
  all: repeat split; try discriminate; try congruence; try tauto; try lia;
    try (intros; exfalso; intuition congruence);
    try (intros ? [<- | []]; reflexivity);
    try (intros ? [[= <-] | []]; reflexivity);
    try (intros ? H; inversion H; subst; tauto);
    try (repeat constructor; apply promptOrUndefined_ok).
Qed.

(** On the drop zone, while [disabled] is set, no action selects a file,
    opens the image choice or makes a call. *)
Lemma disabled_drop_zone (a : Action) (st : State) :
  view st = DropZone ->
  snd (step true a st) = []
  /\ selectedFile (fst (step true a st)) = selectedFile st
  /\ showOptions (fst (step true a st)) = showOptions st
  /\ showImageChoice (fst (step true a st)) = showImageChoice st.
Proof.
  unfold step. intros ->.
  destruct a as
    [eventType | files | | files | | value | | files | | | | ];
    cbn; try (repeat split; reflexivity).
  - unfold handleDrag.
    destruct (_ || _); [repeat split |].
    destruct (String.eqb eventType "dragleave"); repeat split.
  - destruct (showCustomPrompt st); repeat split.
Qed.

(** The other two renderings do not look at [disabled]. *)
Lemma disabled_elsewhere (d : bool) (a : Action) (st : State) :
  view st <> DropZone -> step d a st = step false a st.
Proof.
  unfold step. destruct (view st); [reflexivity | reflexivity |].
  intros H. now elim H.
Qed.

(** Whatever the user does to the upload panel from its first rendering,
    and whatever the [disabled] prop is from one rendering to the next:
    the options are shown exactly when a file is selected; every file
    handed on for analysis or annotation is a file the user offered before
    (dropped or picked on the drop zone while it was not disabled, or
    picked through Upload Own), and there are no more hand-overs than
    offers; the prompt handed on is never the empty string, an empty
    prompt field being passed as undefined.  The [disabled] prop guards
    the drop zone only: while it is set, no action on the drop zone
    selects a file or makes a call, but the buttons of the options and of
    the image choice act as ever, so that a file selected before is still
    handed on by Direct Analysis. *)
Theorem upload_panel_hands_on_offered_files
        (actions : list (bool * Action)) :
  let out := run actions initialState in
  consistent (fst out)
  /\ Forall promptOk (snd out)
  /\ (forall file, In file (flat_map handedFile (snd out)) ->
                   In file (flat_map offered actions))
  /\ (List.length (filter isHandOver (snd out))
      <= List.length (flat_map offered actions))%nat
  /\ (forall a st,
        view st = DropZone ->
        snd (step true a st) = []
        /\ selectedFile (fst (step true a st)) = selectedFile st
        /\ showOptions (fst (step true a st)) = showOptions st
        /\ showImageChoice (fst (step true a st)) = showImageChoice st)
  /\ (forall d a st, view st <> DropZone -> step d a st = step false a st)
  /\ (forall file files,
        snd (run [(false, Drop (file :: files)); (true, ClickDirectAnalysis)]
                 initialState)
        = [OnImageSelect file None]).
Proof.
  cbv zeta.
  assert (Hgen :
            forall st,
              consistent st ->
              let out := run actions st in
              consistent (fst out)
              /\ Forall promptOk (snd out)
              /\ (forall file,
                    In file (flat_map handedFile (snd out)) ->
                    selectedFile st = Some file
                    \/ In file (flat_map offered actions))
              /\ (List.length (filter isHandOver (snd out)) + selected (fst out)
                  <= List.length (flat_map offered actions) + selected st)%nat).
  { induction actions as [| [d a] actions IH]; intros st Hc; cbv zeta.
    - cbn. repeat split; auto; try apply Hc; try tauto.
    - cbn [run].
      destruct (step_facts d a st Hc) as (Hc1 & Hp1 & Hh1 & Hs1 & Hn1).
      destruct (step d a st) as [st1 calls1]. cbn [fst snd] in *.
      destruct (IH st1 Hc1) as (Hc2 & Hp2 & Hh2 & Hn2).
      destruct (run actions st1) as [st2 calls2]. cbn [fst snd] in *.
      split; [exact Hc2 |]. split; [apply Forall_app; now split |].
      split.
      + intros file Hin. rewrite flat_map_app in Hin.
        cbn [flat_map]. apply in_app_or in Hin. destruct Hin as [Hin | Hin].
        * left. now apply Hh1.
        * destruct (Hh2 file Hin) as [Hsel | Hoff].
          -- destruct (Hs1 file Hsel) as [H | H]; [now left |].
             right. apply in_or_app. now left.
          -- right. apply in_or_app. now right.
      + rewrite filter_app, !length_app. cbn [flat_map].
        rewrite length_app. lia. }
  assert (Hinit : consistent initialState)
    by (unfold consistent; cbn; split; [discriminate | intros H; now elim H]).
  destruct (Hgen initialState Hinit) as (Hc & Hp & Hh & Hn).
  split; [exact Hc |]. split; [exact Hp |].
  split; [| split; [| split; [| split]]].
  - intros file Hin. destruct (Hh file Hin) as [H | H]; [discriminate H | exact H].
  - cbn [selected initialState selectedFile] in Hn. lia.
  - exact disabled_drop_zone.
  - exact disabled_elsewhere.
  - reflexivity.
Qed.

End UploadProps.

(** ** Rounding to nearest under a bound of the format *)

Module Division.

Import Rounding.

(** The bit shifted out last by [shr_1]. *)
Lemma shr_1_r (mrs : shr_record) :
  0 <= shr_m mrs -> shr_r (shr_1 mrs) = Z.odd (shr_m mrs).
Proof.
  destruct mrs as [m r s]. cbn [shr_m]. intros Hm.
  destruct m as [| [p | p |] | p]; try lia; reflexivity.
Qed.

Lemma iter_shr_1_r (n : nat) (mrs : shr_record) :
  0 <= shr_m mrs ->
  shr_r (Nat.iter (S n) shr_1 mrs) = Z.odd (shr_m mrs / 2 ^ Z.of_nat n).
Proof.
  intros Hm. rewrite Nat.iter_succ, shr_1_r.
  - now rewrite iter_shr_1_m.
  - rewrite iter_shr_1_m by assumption. apply Z.div_pos; lia.
Qed.

(** When the last bit shifted out is set, the quotient times the power
    shifted out is strictly below the number. *)
Lemma shr_r_strict (p : positive) (mrs : shr_record) :
  0 <= shr_m mrs ->
  shr_r (iter_pos shr_1 p mrs) = true ->
  shr_m mrs / 2 ^ Zpos p * 2 ^ Zpos p < shr_m mrs.
Proof.
  intros Hm. rewrite iter_pos_nat.
  destruct (Pos.to_nat p) as [| n] eqn:Hn; [lia |].
  rewrite iter_shr_1_r by assumption. intros Hodd.
  assert (Hp : Zpos p = Z.of_nat n + 1) by lia.
  rewrite Hp, Z.pow_add_r, Z.pow_1_r by lia.
  set (a := 2 ^ Z.of_nat n) in *.
  assert (Ha : 0 < a) by (apply Z.pow_pos_nonneg; lia).
  set (m := shr_m mrs) in *.
  rewrite <- Z.div_div by lia.
  set (k := m / a) in *.
  assert (Hk : k * a <= m) by (unfold k; rewrite Z.mul_comm; apply Z.mul_div_le; lia).
  rewrite (Z.div_mod k 2) in Hk by lia.
  rewrite Zmod_odd, Hodd in Hk. nia.
Qed.

Lemma round_up_bit (mrs : shr_record) :
  round_nearest_even (shr_m mrs) (loc_of_shr_record mrs) <> shr_m mrs ->
  shr_r mrs = true.
Proof.
  destruct mrs as [m [|] [|]]; cbn; try reflexivity; intros H; now elim H.
Qed.

Lemma digits_le_53 (q : Z) : 0 <= q -> Zdigits2 q <= 53 -> q < 2 ^ 53.
Proof.
  intros Hq Hd. destruct q as [| p | p]; [reflexivity | | lia].
  cbn [Zdigits2] in Hd. pose proof (digits2_pos_bounds p) as [_ Hp].
  eapply Z.lt_le_trans; [exact Hp |]. apply Z.pow_le_mono_r; lia.
Qed.

Lemma digits_pos_le_53 (p : positive) :
  Zpos p < 2 ^ 53 -> Zpos (digits2_pos p) <= 53.
Proof.
  intros Hp. pose proof (digits2_pos_bounds p) as [Hlo _].
  destruct (Z.le_gt_cases (Zpos (digits2_pos p)) 53); auto. exfalso.
  assert (2 ^ 53 <= 2 ^ (Zpos (digits2_pos p) - 1))
    by (apply Z.pow_le_mono_r; lia).
  lia.
Qed.

(** The second half of [binary_round_aux]: a rounded mantissa of at most
    54 digits is renormalised. *)
Lemma round_finish (s : bool) (rho e1 : Z) :
  0 <= rho <= 2 ^ 53 -> -1074 <= e1 -> e1 < 971 ->
  (let '(mrs, e) := shr_fexp prec emax rho e1 loc_Exact in
   match shr_m mrs with
   | 0 => S754_zero s
   | Zpos m =>
       if e <=? emax - prec then S754_finite s m e else S754_infinity s
   | Zneg _ => S754_nan
   end)
  = if rho =? 0 then S754_zero s
    else if rho =? 2 ^ 53 then S754_finite s 4503599627370496 (e1 + 1)
    else S754_finite s (Z.to_pos rho) e1.
Proof.
  intros Hr He Hhi. unfold shr_fexp. rewrite fexp_eq.
  cbn [shr_record_of_loc].
  destruct (Z.eqb_spec rho 0) as [H0 | H0].
  - rewrite H0. cbn [Zdigits2]. rewrite shr_no_shift by lia. reflexivity.
  - destruct (Z.eqb_spec rho (2 ^ 53)) as [H53 | H53].
    + rewrite H53. change (Zdigits2 (2 ^ 53)) with 54.
      replace (Z.max (54 + e1 - 53) (-1074) - e1) with 1 by lia.
      cbn [shr iter_pos shr_1 shr_m].
      change (2 ^ 53) with 9007199254740992. cbn [shr_1 shr_m].
      replace (e1 + 1 <=? emax - prec) with true; [reflexivity |].
      symmetry. apply Z.leb_le. change (emax - prec) with 971. lia.
    + destruct rho as [| pr | pr] eqn:Hrho; try lia.
      cbn [Zdigits2].
      assert (Hd : Zpos (digits2_pos pr) <= 53) by (apply digits_pos_le_53; lia).
      rewrite shr_no_shift by lia. cbn [shr_m Z.to_pos].
      replace (e1 <=? emax - prec) with true; [reflexivity |].
      symmetry. apply Z.leb_le. change (emax - prec) with 971. lia.
Qed.

(** Rounding to nearest of a mantissa with a location: the result is the
    quotient by the power of two shifted out, or its successor; and the
    successor only when something is lost. *)
Lemma binary_round_aux_any (s : bool) (q E : Z) (l : location) :
  let e1 := Z.max E (Z.max (Zdigits2 q + E - 53) (-1074)) in
  let m1 := q / 2 ^ (e1 - E) in
  0 <= q -> e1 < 971 ->
  exists rho,
    (rho = m1 \/ (rho = m1 + 1 /\ (m1 * 2 ^ (e1 - E) < q \/ l <> loc_Exact)))
    /\ 0 <= rho <= 2 ^ 53
    /\ binary_round_aux prec emax s q E l
       = if rho =? 0 then S754_zero s
         else if rho =? 2 ^ 53 then S754_finite s 4503599627370496 (e1 + 1)
         else S754_finite s (Z.to_pos rho) e1.
Proof.
  intros e1 m1 Hq He1.
  unfold binary_round_aux. unfold shr_fexp at 1. rewrite fexp_eq.
  set (f := Z.max (Zdigits2 q + E - 53) (-1074)) in *.
  destruct (f - E) as [| p | p] eqn:Hp.
  - (* no shift *)
    cbn [shr]. assert (He : e1 = E) by lia.
    assert (Hm : m1 = q) by (unfold m1; rewrite He, Z.sub_diag; apply Z.div_1_r).
    assert (Hq53 : q < 2 ^ 53) by (apply digits_le_53; lia).
    set (rho := round_nearest_even (shr_m (shr_record_of_loc q l))
                  (loc_of_shr_record (shr_record_of_loc q l))).
    assert (Hrange : rho = q \/ rho = q + 1).
    { pose proof (round_nearest_even_range
                    (shr_m (shr_record_of_loc q l))
                    (loc_of_shr_record (shr_record_of_loc q l))) as H.
      fold rho in H.
      replace (shr_m (shr_record_of_loc q l)) with q in H
        by (destruct l as [| []]; reflexivity).
      exact H. }
    exists rho. rewrite Hm. split; [| split; [lia |]].
    + destruct Hrange as [H | H]; [now left | right].
      split; [exact H |]. right. intros ->. unfold rho in H. cbn in H. lia.
    + rewrite <- He. apply round_finish; lia.
  - (* a shift by p *)
    cbn [shr]. assert (He : e1 = f) by lia.
    set (mrs := iter_pos shr_1 p (shr_record_of_loc q l)).
    assert (Hin : shr_m (shr_record_of_loc q l) = q)
      by (destruct l as [| []]; reflexivity).
    assert (Hmq : shr_m mrs = m1).
    { unfold mrs. rewrite shr_m_iter_pos by lia. rewrite Hin.
      unfold m1. do 2 f_equal. lia. }
    assert (Hm0 : 0 <= m1).
    { unfold m1. apply Z.div_pos; [lia | apply Z.pow_pos_nonneg; lia]. }
    assert (Hm53 : m1 < 2 ^ 53).
    { unfold m1. destruct q as [| pq | pq]; [now rewrite Z.div_0_l by lia | | lia].
      cbn [Zdigits2] in *. pose proof (digits2_pos_bounds pq) as [_ HM].
      apply (div_pow2_lt _ (Zpos (digits2_pos pq))); lia. }
    set (rho := round_nearest_even (shr_m mrs) (loc_of_shr_record mrs)).
    assert (Hrange : rho = m1 \/ rho = m1 + 1).
    { unfold rho. rewrite <- Hmq. apply round_nearest_even_range. }
    exists rho. split; [| split; [lia |]].
    + destruct Hrange as [H | H]; [now left | right].
      split; [exact H |]. left.
      assert (Hbit : shr_r mrs = true).
      { apply round_up_bit. fold rho. rewrite Hmq. lia. }
      pose proof (shr_r_strict p (shr_record_of_loc q l)) as Hs.
      rewrite Hin in Hs. specialize (Hs Hq Hbit).
      unfold m1. replace (e1 - E) with (Zpos p) by lia. exact Hs.
    + replace (E + Zpos p) with e1 by lia. apply round_finish; lia.
  - (* [f <= E] here too *)
    cbn [shr]. assert (He : e1 = E) by lia.
    assert (Hm : m1 = q) by (unfold m1; rewrite He, Z.sub_diag; apply Z.div_1_r).
    assert (Hq53 : q < 2 ^ 53) by (apply digits_le_53; lia).
    set (rho := round_nearest_even (shr_m (shr_record_of_loc q l))
                  (loc_of_shr_record (shr_record_of_loc q l))).
    assert (Hrange : rho = q \/ rho = q + 1).
    { pose proof (round_nearest_even_range
                    (shr_m (shr_record_of_loc q l))
                    (loc_of_shr_record (shr_record_of_loc q l))) as H.
      fold rho in H.
      replace (shr_m (shr_record_of_loc q l)) with q in H
        by (destruct l as [| []]; reflexivity).
      exact H. }
    exists rho. rewrite Hm. split; [| split; [lia |]].
    + destruct Hrange as [H | H]; [now left | right].
      split; [exact H |]. right. intros ->. unfold rho in H. cbn in H. lia.
    + rewrite <- He. apply round_finish; lia.
Qed.

Lemma pow2_pos (a : Z) : 0 <= a -> 0 < 2 ^ a.
Proof. intros. apply Z.pow_pos_nonneg; lia. Qed.

Lemma pow2_lt_inv (a b : Z) : 0 <= a -> 0 <= b -> 2 ^ a < 2 ^ b -> a < b.
Proof. intros Ha Hb H. apply (Z.pow_lt_mono_r_iff 2); lia. Qed.

Lemma new_location_exact (nb k : Z) :
  new_location nb k <> loc_Exact -> k <> 0.
Proof.
  unfold new_location, new_location_even, new_location_odd.
  intros H ->. destruct (Z.even nb); cbn in H; now elim H.
Qed.

(** The offset that makes every exponent of this section non-negative. *)
Definition K : Z := 4000.

Lemma K_value : K = 4000.
Proof. reflexivity. Qed.

(** Zero or a positive finite number. *)
Definition nonneg_finite (x : spec_float) : Prop :=
  x = S754_zero false \/ exists m e, x = S754_finite false m e.

(** Rounding to nearest never goes above a number of the format that the
    exact value does not exceed.  The exact value is [N / D * 2 ^ E], the
    mantissa handed to the rounding is the integer quotient, and the
    location is exact whenever the division is; the bound is the positive
    finite number [mv * 2 ^ ev]. *)
Lemma round_le_bound (q E N D : Z) (l : location) (mv : positive) (ev : Z) :
  0 < D -> 0 <= N -> q = N / D ->
  (l <> loc_Exact -> N mod D <> 0) ->
  bounded prec emax mv ev = true -> ev < 971 ->
  - K <= E -> E <= ev ->
  N * 2 ^ (E + K) <= Zpos mv * 2 ^ (ev + K) * D ->
  SFleb (binary_round_aux prec emax false q E l) (S754_finite false mv ev)
    = true
  /\ nonneg_finite (binary_round_aux prec emax false q E l).
Proof.
  pose proof K_value as HK4.
  intros HD HN Hq Hl Hbv Hev HEK HEv Hle.
  destruct (canonical_facts mv ev Hbv) as (Hdv & Hcv & Hev' & Hmv).
  pose proof (digits2_pos_bounds mv) as [Hv1 Hv2].
  set (dv := Zpos (digits2_pos mv)) in *.
  assert (Hdv1 : 1 <= dv) by (unfold dv; lia).
  pose proof (Z.div_mod N D ltac:(lia)) as Hdm.
  pose proof (Z.mod_pos_bound N D HD) as Hmod.
  rewrite <- Hq in Hdm.
  assert (Hq0 : 0 <= q) by (rewrite Hq; apply Z.div_pos; lia).
  set (A := 2 ^ (E + K)) in *.
  assert (HA : 0 < A) by (apply pow2_pos; lia).
  assert (I2 : Z.max (Zdigits2 q + E - 53) (-1074) <= ev).
  { destruct q as [| pq | pq]; [cbn [Zdigits2]; lia | | lia].
    cbn [Zdigits2]. pose proof (digits2_pos_bounds pq) as [Hq1 _].
    set (dq := Zpos (digits2_pos pq)) in *.
    assert (Hdq : 1 <= dq) by (unfold dq; lia).
    assert (H1 : 2 ^ (dq - 1) * D * A <= N * A).
    { apply Z.mul_le_mono_nonneg_r; [lia |]. nia. }
    assert (H2 : Zpos mv * 2 ^ (ev + K) * D < 2 ^ dv * 2 ^ (ev + K) * D).
    { pose proof (pow2_pos (ev + K) ltac:(lia)).
      apply Z.mul_lt_mono_pos_r; [assumption |].
      apply Z.mul_lt_mono_pos_r; [assumption |]. assumption. }
    assert (H3 : 2 ^ (dq - 1) * A < 2 ^ dv * 2 ^ (ev + K)).
    { apply (Z.mul_lt_mono_pos_r D); [lia |]. nia. }
    unfold A in H3.
    rewrite <- (Z.pow_add_r 2 (dq - 1) (E + K)) in H3 by lia.
    rewrite <- (Z.pow_add_r 2 dv (ev + K)) in H3 by lia.
    apply pow2_lt_inv in H3; lia. }
  destruct (binary_round_aux_any false q E l Hq0)
    as (rho & Hrho & Hrange & ->); [lia |].
  set (e1 := Z.max E (Z.max (Zdigits2 q + E - 53) (-1074))) in *.
  assert (He1v : e1 <= ev) by (unfold e1; lia).
  set (t := e1 - E) in *.
  assert (Ht : 0 <= t) by (unfold t, e1; lia).
  set (m1 := q / 2 ^ t) in *.
  set (j := Zpos mv * 2 ^ (ev - e1)).
  pose proof (pow2_pos t Ht) as HT.
  pose proof (pow2_pos (ev - e1) ltac:(lia)) as HJ.
  assert (HNj : N <= j * (D * 2 ^ t)).
  { assert (HvA : 2 ^ (ev + K) = 2 ^ (ev - e1) * 2 ^ t * A).
    { unfold A. rewrite <- (Z.pow_add_r 2 (ev - e1) t) by lia.
      rewrite <- (Z.pow_add_r 2 (ev - e1 + t) (E + K)) by lia.
      f_equal. unfold t. lia. }
    rewrite HvA in Hle.
    apply (Z.mul_le_mono_pos_r _ _ A); [exact HA |].
    unfold j. nia. }
  assert (Hm1q : m1 * 2 ^ t <= q).
  { unfold m1. rewrite Z.mul_comm. apply Z.mul_div_le. lia. }
  assert (Hm1 : 0 <= m1) by (unfold m1; apply Z.div_pos; lia).
  assert (Hrj : rho <= j).
  { destruct Hrho as [-> | [-> Hstrict]].
    - apply (Z.mul_le_mono_pos_r _ _ (D * 2 ^ t)); [nia |]. nia.
    - assert (m1 * (D * 2 ^ t) < N).
      { destruct Hstrict as [Hs | Hs]; [nia |].
        specialize (Hl Hs). nia. }
      assert (m1 < j); [| lia].
      apply (Z.mul_lt_mono_pos_r (D * 2 ^ t)); [nia |]. lia. }
  destruct (Z.eqb_spec rho 0) as [H0 | H0];
    [split; [reflexivity | now left] |].
  destruct (Z.eqb_spec rho (2 ^ 53)) as [H53 | H53].
  - split; [| right; eexists; eexists; reflexivity].
    unfold SFleb, SFcompare.
    destruct (Z.compare_spec (e1 + 1) ev) as [He | He | He]; [| reflexivity |].
    + assert (Hj2 : j = Zpos mv * 2)
        by (unfold j; replace (ev - e1) with 1 by lia; reflexivity).
      assert (Hmv52 : 4503599627370496 <= Zpos mv)
        by (change (2 ^ 53) with 9007199254740992 in *; lia).
      destruct (Pos.compare_cont Eq 4503599627370496 mv) eqn:Hc;
        try reflexivity.
      apply Pos.compare_gt_iff in Hc. apply Pos2Z.pos_lt_pos in Hc.
      clear - Hc Hmv52. lia.
    + exfalso. assert (e1 = ev) by lia.
      assert (j = Zpos mv)
        by (unfold j; replace (ev - e1) with 0 by lia; lia).
      change (2 ^ 53) with 9007199254740992 in *. clear - H53 Hrj H1 Hmv. lia.
  - destruct rho as [| pr | pr] eqn:Hrp; try lia.
    split; [| right; eexists; eexists; reflexivity].
    cbn [Z.to_pos]. unfold SFleb, SFcompare.
    destruct (Z.compare_spec e1 ev) as [He | He | He]; [| reflexivity | lia].
    assert (j = Zpos mv)
      by (unfold j; replace (ev - e1) with 0 by lia; lia).
    destruct (Pos.compare_cont Eq pr mv) eqn:Hc; try reflexivity.
    apply Pos.compare_gt_iff in Hc. apply Pos2Z.pos_lt_pos in Hc. lia.
Qed.

(** Division: if [x / y <= v], the computed quotient is at most [v]. *)
Lemma SFdiv_le_bound (mx my mv : positive) (ex ey ev : Z) :
  bounded prec emax mx ex = true ->
  bounded prec emax my ey = true ->
  bounded prec emax mv ev = true ->
  ev < 971 ->
  Zpos mx * 2 ^ (ex + K) <= Zpos mv * Zpos my * 2 ^ (ev + ey + K) ->
  let z := SFdiv prec emax (S754_finite false mx ex) (S754_finite false my ey) in
  SFleb z (S754_finite false mv ev) = true /\ nonneg_finite z.
Proof.
  pose proof K_value as HK4.
  intros Hbx Hby Hbv Hev Hle. cbv zeta.
  destruct (canonical_facts mx ex Hbx) as (Hdx & _ & Hex & Hmx).
  destruct (canonical_facts my ey Hby) as (Hdy & _ & Hey & Hmy).
  destruct (canonical_facts mv ev Hbv) as (Hdv & Hcv & Hev' & Hmv).
  pose proof (digits2_pos_bounds mx) as [Hx1 Hx2].
  pose proof (digits2_pos_bounds my) as [Hy1 Hy2].
  pose proof (digits2_pos_bounds mv) as [Hv1 Hv2].
  set (d1 := Zpos (digits2_pos mx)) in *.
  set (d2 := Zpos (digits2_pos my)) in *.
  set (dv := Zpos (digits2_pos mv)) in *.
  assert (Hd1 : 1 <= d1) by (unfold d1; lia).
  assert (Hd2 : 1 <= d2) by (unfold d2; lia).
  assert (Hdv1 : 1 <= dv) by (unfold dv; lia).
  unfold SFdiv, SFdiv_core_binary. cbn [Zdigits2 xorb]. fold d1 d2.
  rewrite fexp_eq.
  set (e' := Z.min (Z.max (d1 + ex - (d2 + ey) - 53) (-1074)) (ex - ey)).
  set (sh := ex - ey - e').
  assert (Hsh : 0 <= sh) by (unfold sh, e'; lia).
  set (m' := match sh with
             | 0 => Zpos mx
             | Zpos _ => Z.shiftl (Zpos mx) sh
             | Zneg _ => 0
             end).
  assert (Hm' : m' = Zpos mx * 2 ^ sh).
  { unfold m'. destruct sh as [| p | p] eqn:Hs; [lia | | lia].
    apply Z.shiftl_mul_pow2. lia. }
  pose proof (Z_div_mod m' (Zpos my) ltac:(lia)) as Hdiv.
  pose proof (Z.div_mod m' (Zpos my) ltac:(lia)) as Hdm.
  destruct (Z.div_eucl m' (Zpos my)) as [q r]. destruct Hdiv as [Hqr Hr].
  assert (Hm'0 : 0 < m') by (rewrite Hm'; pose proof (pow2_pos sh Hsh); nia).
  assert (Hquot : q = m' / Zpos my /\ r = m' mod Zpos my).
  { split; [apply (Z.div_unique_pos m' (Zpos my) q r)
           | apply (Z.mod_unique_pos m' (Zpos my) q r)]; lia. }
  destruct Hquot as [Hq Hrm].
  assert (He'lo : -2045 <= e') by (unfold e'; lia).
  assert (HxA : 2 ^ (ex + K) = 2 ^ sh * 2 ^ (e' + ey + K)).
  { rewrite <- (Z.pow_add_r 2 sh (e' + ey + K)) by lia.
    f_equal. unfold sh. lia. }
  assert (I1 : d1 + ex - (d2 + ey) <= dv + ev).
  { assert (H1 : 2 ^ (d1 - 1 + (ex + K)) <= Zpos mx * 2 ^ (ex + K)).
    { rewrite (Z.pow_add_r 2 (d1 - 1) (ex + K)) by lia.
      apply Z.mul_le_mono_nonneg_r; [apply Z.pow_nonneg; lia | lia]. }
    assert (H2 : Zpos mv * Zpos my * 2 ^ (ev + ey + K)
                 < 2 ^ (dv + d2 + (ev + ey + K))).
    { rewrite (Z.pow_add_r 2 (dv + d2) (ev + ey + K)) by lia.
      rewrite (Z.pow_add_r 2 dv d2) by lia.
      pose proof (pow2_pos (ev + ey + K) ltac:(lia)).
      pose proof (pow2_pos dv ltac:(lia)). pose proof (pow2_pos d2 ltac:(lia)).
      apply Z.mul_lt_mono_pos_r; [assumption |]. nia. }
    assert (H3 : d1 - 1 + (ex + K) < dv + d2 + (ev + ey + K))
      by (apply pow2_lt_inv; lia).
    lia. }
  assert (He'v : e' <= ev) by (unfold e'; lia).
  apply (round_le_bound q e' m' (Zpos my) (new_location (Zpos my) r) mv ev);
    try assumption; try lia.
  - intros Hloc. apply new_location_exact in Hloc. lia.
  - idtac.
    assert (HvA : 2 ^ (ev + ey + K) * 2 ^ (e' + K)
                  = 2 ^ (ev + K) * 2 ^ (e' + ey + K)).
    { rewrite <- !Z.pow_add_r by lia. f_equal. lia. }
    pose proof (pow2_pos (e' + ey + K) ltac:(lia)) as HA.
    pose proof (pow2_pos (e' + K) ltac:(lia)) as HB.
    pose proof (pow2_pos (ev + K) ltac:(lia)) as HC.
    apply (Z.mul_le_mono_pos_r _ _ (2 ^ (e' + ey + K))); [exact HA |].
    rewrite Hm'.
    replace (Zpos mx * 2 ^ sh * 2 ^ (e' + K) * 2 ^ (e' + ey + K))
      with (Zpos mx * 2 ^ (ex + K) * 2 ^ (e' + K))
      by (rewrite HxA; ring).
    replace (Zpos mv * 2 ^ (ev + K) * Zpos my * 2 ^ (e' + ey + K))
      with (Zpos mv * Zpos my * 2 ^ (ev + ey + K) * 2 ^ (e' + K))
      by (rewrite <- Z.mul_assoc, HvA; ring).
    apply Z.mul_le_mono_nonneg_r; lia.
Qed.

(** Multiplication: if [x * y <= v], the computed product is at most [v]. *)
Lemma SFmul_le_bound (mx my mv : positive) (ex ey ev : Z) :
  bounded prec emax mv ev = true ->
  ev < 971 ->
  - K <= ex + ey -> ex + ey <= ev ->
  Zpos mx * Zpos my * 2 ^ (ex + ey + K) <= Zpos mv * 2 ^ (ev + K) ->
  let z := SFmul prec emax (S754_finite false mx ex) (S754_finite false my ey) in
  SFleb z (S754_finite false mv ev) = true /\ nonneg_finite z.
Proof.
  pose proof K_value as HK4.
  intros Hbv Hev Hlo Hhi Hle. cbv zeta.
  unfold SFmul. cbn [xorb].
  apply (round_le_bound (Zpos (mx * my)) (ex + ey) (Zpos mx * Zpos my) 1
           loc_Exact mv ev); try assumption; try lia.
  all: try (now rewrite Z.div_1_r).
  intros H. now elim H.
Qed.

(** *** Numbers by their value *)

(** [x] is the positive integer [n]. *)
Definition fvalue (x : float) (n : Z) : Prop :=
  exists m e, Prim2SF x = S754_finite false m e
              /\ Zpos m * 2 ^ (e + K) = n * 2 ^ K.

(** [x] is zero or a positive finite number that is at most [n]. *)
Definition fat_most (x : float) (n : Z) : Prop :=
  Prim2SF x = S754_zero false
  \/ exists m e, Prim2SF x = S754_finite false m e
                 /\ Zpos m * 2 ^ (e + K) <= n * 2 ^ K.

(** [x] is plus infinity or a positive finite number that is at least
    [n], strictly above it when [strict] is set. *)
Definition fat_least (strict : bool) (x : float) (n : Z) : Prop :=
  Prim2SF x = S754_infinity false
  \/ exists m e, Prim2SF x = S754_finite false m e
                 /\ if strict then n * 2 ^ K < Zpos m * 2 ^ (e + K)
                    else n * 2 ^ K <= Zpos m * 2 ^ (e + K).

Lemma valid_finite (x : float) (s : bool) (m : positive) (e : Z) :
  Prim2SF x = S754_finite s m e -> bounded prec emax m e = true.
Proof.
  intros H. pose proof (FloatAxioms.Prim2SF_valid x) as Hv.
  rewrite H in Hv. exact Hv.
Qed.

Lemma scale_lt (ma mb A B c : Z) :
  0 < A -> 1 <= B -> 0 < c -> ma < 2 * c -> c <= mb ->
  ma * A < mb * (B * 2 * A).
Proof.
  intros HA HB Hc Hma Hmb.
  assert (H1 : ma * A < 2 * c * A) by (apply Z.mul_lt_mono_pos_r; lia).
  assert (H2 : 2 * c * A <= 2 * mb * A) by (apply Z.mul_le_mono_nonneg_r; lia).
  assert (H3 : 2 * mb * A * 1 <= 2 * mb * A * B)
    by (apply Z.mul_le_mono_nonneg_l; nia).
  lia.
Qed.

(** Comparison of two positive finite numbers of the format is the
    comparison of their values. *)
Lemma SFcompare_value (ma mb : positive) (ea eb : Z) :
  bounded prec emax ma ea = true -> bounded prec emax mb eb = true ->
  SFcompare (S754_finite false ma ea) (S754_finite false mb eb)
  = Some (Zpos ma * 2 ^ (ea + K) ?= Zpos mb * 2 ^ (eb + K)).
Proof.
  pose proof K_value as HK4.
  intros Ha Hb.
  destruct (canonical_facts ma ea Ha) as (Hda & Hca & Hea & Hma).
  destruct (canonical_facts mb eb Hb) as (Hdb & Hcb & Heb & Hmb).
  pose proof (digits2_pos_bounds ma) as [Ha1 Ha2].
  pose proof (digits2_pos_bounds mb) as [Hb1 Hb2].
  cbn [SFcompare]. f_equal.
  destruct (Z.compare_spec ea eb) as [He | He | He].
  - subst eb. rewrite <- Zmult_compare_compat_r
      by (apply Z.lt_gt, pow2_pos; lia).
    reflexivity.
  - symmetry. apply Z.compare_lt_iff.
    assert (Hd : Zpos (digits2_pos mb) = 53) by lia.
    rewrite Hd in Hb1. change (2 ^ (53 - 1)) with 4503599627370496 in Hb1.
    change (2 ^ 53) with 9007199254740992 in Hma.
    replace (eb + K) with (eb - ea - 1 + 1 + (ea + K)) by lia.
    rewrite (Z.pow_add_r 2 (eb - ea - 1 + 1) (ea + K)) by lia.
    rewrite (Z.pow_add_r 2 (eb - ea - 1) 1) by lia.
    pose proof (pow2_pos (ea + K) ltac:(lia)).
    pose proof (pow2_pos (eb - ea - 1) ltac:(lia)).
    change (2 ^ 1) with 2.
    apply (scale_lt _ _ _ _ 4503599627370496); lia.
  - symmetry. apply Z.compare_gt_iff.
    assert (Hd : Zpos (digits2_pos ma) = 53) by lia.
    rewrite Hd in Ha1. change (2 ^ (53 - 1)) with 4503599627370496 in Ha1.
    change (2 ^ 53) with 9007199254740992 in Hmb.
    replace (ea + K) with (ea - eb - 1 + 1 + (eb + K)) by lia.
    rewrite (Z.pow_add_r 2 (ea - eb - 1 + 1) (eb + K)) by lia.
    rewrite (Z.pow_add_r 2 (ea - eb - 1) 1) by lia.
    pose proof (pow2_pos (eb + K) ltac:(lia)).
    pose proof (pow2_pos (ea - eb - 1) ltac:(lia)).
    change (2 ^ 1) with 2.
    apply (scale_lt _ _ _ _ 4503599627370496); lia.
Qed.

(** An integer below [2 ^ 53] is converted without rounding. *)
Lemma of_Z_value (n : Z) : 1 <= n < 2 ^ 53 -> fvalue (Number.of_Z n) n.
Proof.
  pose proof K_value as HK4.
  intros Hn. unfold fvalue, Number.of_Z.
  rewrite FloatAxioms.of_uint63_spec, Uint63.of_Z_spec.
  rewrite Z.mod_small
    by (change wB with 9223372036854775808;
        change (2 ^ 53) with 9007199254740992 in Hn; lia).
  destruct n as [| p | p]; try lia.
  cbn [binary_normalize]. unfold binary_round. rewrite fexp_eq.
  pose proof (digits2_pos_bounds p) as [Hp1 Hp2].
  assert (Hd53 : Zpos (digits2_pos p) <= 53) by (apply digits_pos_le_53; lia).
  set (d := Zpos (digits2_pos p)) in *.
  assert (Hd1 : 1 <= d) by (unfold d; lia).
  replace (Z.max (d + 0 - 53) (-1074)) with (d - 53) by lia.
  assert (Hshape :
            exists mz, shl_align p 0 (d - 53) = (mz, d - 53)
                       /\ Zpos mz = Zpos p * 2 ^ (53 - d)).
  { destruct (Z.eq_dec d 53) as [He | He].
    - exists p. rewrite He. split; [reflexivity |]. cbn. lia.
    - destruct (d - 53 - 0) as [| k | k] eqn:Hk; try lia.
      exists (Pos.iter xO p k). rewrite (shl_align_shift p 0 (d - 53) k Hk).
      split; [reflexivity |]. rewrite iter_xO_pow. f_equal. f_equal. lia. }
  destruct Hshape as (mz & -> & Hmz).
  assert (Hmz53 : 2 ^ 52 <= Zpos mz < 2 ^ 53).
  { rewrite Hmz. split.
    - replace 52 with (d - 1 + (53 - d)) by lia.
      rewrite Z.pow_add_r by lia.
      apply Z.mul_le_mono_nonneg_r; [apply Z.pow_nonneg; lia | lia].
    - replace 53 with (d + (53 - d)) at 2 by lia.
      rewrite Z.pow_add_r by lia.
      apply Z.mul_lt_mono_pos_r; [apply pow2_pos; lia | lia]. }
  assert (Hdz : Zpos (digits2_pos mz) = 53)
    by (apply digits2_pos_unique; exact Hmz53).
  destruct (binary_round_aux_any false (Zpos mz) (d - 53) loc_Exact)
    as (rho & Hrho & Hrange & ->); [lia | cbn [Zdigits2]; lia |].
  cbn [Zdigits2] in Hrho. rewrite Hdz in Hrho.
  replace (Z.max (d - 53) (Z.max (53 + (d - 53) - 53) (-1074)) - (d - 53))
    with 0 in Hrho by lia.
  rewrite Z.pow_0_r, Z.div_1_r, Z.mul_1_r in Hrho.
  assert (Hr : rho = Zpos mz).
  { destruct Hrho as [H | [_ [H | H]]]; [exact H | lia | now elim H]. }
  rewrite Hr.
  destruct (Z.eqb_spec (Zpos mz) 0) as [H0 | _]; [lia |].
  destruct (Z.eqb_spec (Zpos mz) (2 ^ 53)) as [H53 | _]; [lia |].
  cbn [Zdigits2]. rewrite Hdz.
  replace (Z.max (d - 53) (Z.max (53 + (d - 53) - 53) (-1074))) with (d - 53)
    by lia.
  exists mz, (d - 53). split; [reflexivity |].
  rewrite Hmz.
  replace (2 ^ K) with (2 ^ (53 - d) * 2 ^ (d - 53 + K)).
  - ring.
  - rewrite <- Z.pow_add_r by lia. f_equal. lia.
Qed.

Lemma fvalue_at_most (x : float) (a b : Z) :
  fvalue x a -> a <= b -> fat_most x b.
Proof.
  pose proof K_value as HK4.
  intros (m & e & Hx & Hv) Hab. right. exists m, e. split; [exact Hx |].
  rewrite Hv. apply Z.mul_le_mono_nonneg_r; [apply Z.pow_nonneg; lia | lia].
Qed.

Lemma fvalue_at_least (x : float) (a b : Z) :
  fvalue x a -> b <= a -> fat_least false x b.
Proof.
  pose proof K_value as HK4.
  intros (m & e & Hx & Hv) Hab. right. exists m, e. split; [exact Hx |].
  rewrite Hv. apply Z.mul_le_mono_nonneg_r; [apply Z.pow_nonneg; lia | lia].
Qed.

Lemma fvalue_above (x : float) (a b : Z) :
  fvalue x a -> b < a -> fat_least true x b.
Proof.
  pose proof K_value as HK4.
  intros (m & e & Hx & Hv) Hab. right. exists m, e. split; [exact Hx |].
  rewrite Hv. apply Z.mul_lt_mono_pos_r; [apply pow2_pos; lia | lia].
Qed.

Lemma fat_most_nonneg (x : float) (n : Z) :
  fat_most x n -> nonneg_finite (Prim2SF x).
Proof.
  pose proof K_value as HK4.
  intros [H | (m & e & H & _)]; [now left | right; now exists m, e].
Qed.

(** The comparison of two integers. *)
Lemma ltb_values (x y : float) (a b : Z) :
  fvalue x a -> fvalue y b -> (x <? y)%float = (a <? b).
Proof.
  pose proof K_value as HK4.
  intros (mx & ex & Hx & Hvx) (my & ey & Hy & Hvy).
  rewrite FloatAxioms.ltb_spec, Hx, Hy. unfold SFltb.
  rewrite (SFcompare_value mx my ex ey (valid_finite _ _ _ _ Hx)
             (valid_finite _ _ _ _ Hy)), Hvx, Hvy.
  rewrite <- Zmult_compare_compat_r by (apply Z.lt_gt, pow2_pos; lia).
  unfold Z.ltb. destruct (a ?= b); reflexivity.
Qed.

(** What is above an integer in the comparison is above it in value. *)
Lemma ltb_above (x y : float) (a : Z) :
  fvalue x a -> (x <? y)%float = true -> fat_least true y a.
Proof.
  pose proof K_value as HK4.
  intros (mx & ex & Hx & Hvx). rewrite FloatAxioms.ltb_spec, Hx. unfold SFltb.
  destruct (Prim2SF y) as [s | s | | s my ey] eqn:Hy.
  - destruct s; discriminate.
  - destruct s; [discriminate | intros _; left; exact Hy].
  - discriminate.
  - destruct s; [discriminate |].
    rewrite (SFcompare_value mx my ex ey (valid_finite _ _ _ _ Hx)
               (valid_finite _ _ _ _ Hy)).
    destruct (Z.compare_spec (Zpos mx * 2 ^ (ex + K)) (Zpos my * 2 ^ (ey + K)))
      as [H | H | H]; try discriminate.
    intros _. right. exists my, ey. split; [exact Hy | lia].
Qed.

(** What is not above an integer in the comparison, and is zero or a
    positive finite number, is at most that integer. *)
Lemma not_ltb_at_most (x y : float) (a : Z) :
  fvalue x a -> nonneg_finite (Prim2SF y) -> (x <? y)%float = false ->
  fat_most y a.
Proof.
  pose proof K_value as HK4.
  intros (mx & ex & Hx & Hvx) Hy. rewrite FloatAxioms.ltb_spec, Hx. unfold SFltb.
  destruct Hy as [Hy | (my & ey & Hy)]; [intros _; now left |].
  rewrite Hy.
  rewrite (SFcompare_value mx my ex ey (valid_finite _ _ _ _ Hx)
             (valid_finite _ _ _ _ Hy)).
  destruct (Z.compare_spec (Zpos mx * 2 ^ (ex + K)) (Zpos my * 2 ^ (ey + K)))
    as [H | H | H]; try discriminate; intros _; right; exists my, ey;
    (split; [exact Hy | lia]).
Qed.

Lemma at_most_leb (y v : float) (a b : Z) :
  fat_most y a -> fvalue v b -> a <= b -> (y <=? v)%float = true.
Proof.
  pose proof K_value as HK4.
  intros Hy (mv & ev & Hv & Hvv) Hab.
  rewrite FloatAxioms.leb_spec, Hv. unfold SFleb.
  destruct Hy as [Hy | (my & ey & Hy & Hvy)]; rewrite Hy; [reflexivity |].
  rewrite (SFcompare_value my mv ey ev (valid_finite _ _ _ _ Hy)
             (valid_finite _ _ _ _ Hv)).
  assert (Hle : Zpos my * 2 ^ (ey + K) <= Zpos mv * 2 ^ (ev + K)).
  { rewrite Hvv. etransitivity; [exact Hvy |].
    apply Z.mul_le_mono_nonneg_r; [apply Z.pow_nonneg; lia | lia]. }
  destruct (Z.compare_spec (Zpos my * 2 ^ (ey + K)) (Zpos mv * 2 ^ (ev + K)));
    try reflexivity. lia.
Qed.

(** From a bound in the comparison of the format to a bound in value. *)
Lemma leb_at_most (z : spec_float) (x v : float) (c : Z) :
  Prim2SF x = z -> fvalue v c ->
  SFleb z (Prim2SF v) = true -> nonneg_finite z -> fat_most x c.
Proof.
  pose proof K_value as HK4.
  intros Hx (mv & ev & Hv & Hvv) Hle [Hz | (m & e & Hz)]; subst z.
  - now left.
  - right. exists m, e. split; [exact Hz |].
    rewrite Hz, Hv in Hle. unfold SFleb in Hle.
    rewrite (SFcompare_value m mv e ev (valid_finite _ _ _ _ Hz)
               (valid_finite _ _ _ _ Hv)) in Hle.
    rewrite <- Hvv.
    destruct (Z.compare_spec (Zpos m * 2 ^ (e + K)) (Zpos mv * 2 ^ (ev + K)));
      try discriminate; lia.
Qed.

(** The exponent of an integer below [2 ^ 64]. *)
Lemma fvalue_exponent (m : positive) (e c : Z) :
  bounded prec emax m e = true ->
  Zpos m * 2 ^ (e + K) = c * 2 ^ K -> 1 <= c < 2 ^ 64 ->
  -52 <= e < 64 /\ 2 ^ 52 <= Zpos m.
Proof.
  pose proof K_value as HK4.
  intros Hb Hv Hc.
  destruct (canonical_facts m e Hb) as (Hd & Hcan & He & Hm).
  pose proof (digits2_pos_bounds m) as [Hm1 Hm2].
  pose proof (pow2_pos K ltac:(lia)) as HK.
  assert (Hlt : e < 64).
  { destruct (Z.lt_ge_cases e 64) as [H | H]; [exact H | exfalso].
    assert (2 ^ (64 + K) <= 2 ^ (e + K)) by (apply Z.pow_le_mono_r; lia).
    rewrite (Z.pow_add_r 2 64 K) in H0 by lia.
    assert (c * 2 ^ K < 2 ^ 64 * 2 ^ K)
      by (apply Z.mul_lt_mono_pos_r; lia).
    pose proof (pow2_pos (e + K) ltac:(lia)). nia. }
  assert (Hge : -52 <= e).
  { destruct (Z.le_gt_cases (-52) e) as [H | H]; [exact H | exfalso].
    assert (2 ^ (e + K) * 2 ^ 53 <= 2 ^ K).
    { rewrite <- Z.pow_add_r by lia. apply Z.pow_le_mono_r; lia. }
    assert (Zpos m * 2 ^ (e + K) < 2 ^ 53 * 2 ^ (e + K))
      by (apply Z.mul_lt_mono_pos_r; [apply pow2_pos; lia | lia]).
    assert (1 * 2 ^ K <= c * 2 ^ K)
      by (apply Z.mul_le_mono_nonneg_r; lia).
    lia. }
  split; [lia |].
  assert (Hd53 : Zpos (digits2_pos m) = 53) by lia.
  rewrite Hd53 in Hm1. exact Hm1.
Qed.

(** The product of two integers is at most every integer of the format
    that their exact product does not exceed. *)
Lemma mul_at_most (x y v : float) (a b c : Z) :
  fvalue x a -> fvalue y b -> fvalue v c ->
  1 <= a < 2 ^ 64 -> 1 <= b < 2 ^ 64 -> 1 <= c < 2 ^ 64 -> a * b <= c ->
  fat_most (x * y) c.
Proof.
  pose proof K_value as HK4.
  intros (mx & ex & Hx & Hvx) (my & ey & Hy & Hvy) Hv Ha Hb Hc Hab.
  pose proof Hv as (mv & ev & Hv' & Hvv).
  destruct (fvalue_exponent mx ex a (valid_finite _ _ _ _ Hx) Hvx Ha)
    as [Hex Hmx].
  destruct (fvalue_exponent my ey b (valid_finite _ _ _ _ Hy) Hvy Hb)
    as [Hey Hmy].
  destruct (fvalue_exponent mv ev c (valid_finite _ _ _ _ Hv') Hvv Hc)
    as [Hev Hmv].
  destruct (canonical_facts mv ev (valid_finite _ _ _ _ Hv')) as (_ & _ & _ & Hmv53).
 
  pose proof (pow2_pos K ltac:(lia)) as HK.
  pose proof (pow2_pos (ex + K) ltac:(lia)) as HX.
  pose proof (pow2_pos (ey + K) ltac:(lia)) as HY.
  pose proof (pow2_pos (ev + K) ltac:(lia)) as HV.
  assert (Hsplit : 2 ^ (ex + ey + K) * 2 ^ K
                   = 2 ^ (ex + K) * 2 ^ (ey + K)).
  { rewrite <- !Z.pow_add_r by lia. f_equal. lia. }
  assert (Hmain : Zpos mx * Zpos my * 2 ^ (ex + ey + K)
                  <= Zpos mv * 2 ^ (ev + K)).
  { apply (Z.mul_le_mono_pos_r _ _ (2 ^ K)); [exact HK |].
    replace (Zpos mx * Zpos my * 2 ^ (ex + ey + K) * 2 ^ K)
      with ((Zpos mx * 2 ^ (ex + K)) * (Zpos my * 2 ^ (ey + K)))
      by (replace (Zpos mx * Zpos my * 2 ^ (ex + ey + K) * 2 ^ K)
            with (Zpos mx * Zpos my * (2 ^ (ex + ey + K) * 2 ^ K))
            by ring;
          rewrite Hsplit; ring).
    rewrite Hvx, Hvy, Hvv.
    replace (a * 2 ^ K * (b * 2 ^ K))
      with (a * b * 2 ^ K * 2 ^ K) by ring.
    apply Z.mul_le_mono_nonneg_r; [lia |].
    apply Z.mul_le_mono_nonneg_r; lia. }
  assert (Hexp : ex + ey <= ev).
  { destruct (Z.le_gt_cases (ex + ey) ev) as [H | H]; [exact H | exfalso].
    assert (H1 : 2 ^ (ev + K) <= 2 ^ (ex + ey + K))
      by (apply Z.pow_le_mono_r; lia).
    pose proof (pow2_pos (ex + ey + K) ltac:(lia)) as HXY.
    assert (H2 : Zpos mv * 2 ^ (ev + K) < 2 ^ 53 * 2 ^ (ex + ey + K)).
    { eapply Z.lt_le_trans;
        [apply Z.mul_lt_mono_pos_r; [exact HV | exact Hmv53] |].
      apply Z.mul_le_mono_nonneg_l; lia. }
    assert (H3 : 2 ^ 53 * 2 ^ (ex + ey + K)
                 <= Zpos mx * Zpos my * 2 ^ (ex + ey + K)).
    { apply Z.mul_le_mono_nonneg_r; [lia |].
      change (2 ^ 53) with 9007199254740992.
      change (2 ^ 52) with 4503599627370496 in *. nia. }
    lia. }
  destruct (SFmul_le_bound mx my mv ex ey ev (valid_finite _ _ _ _ Hv'))
    as [Hle Hnn]; try lia.
  apply (leb_at_most
           (SFmul prec emax (S754_finite false mx ex) (S754_finite false my ey))
           (x * y) v c); try assumption.
  - rewrite FloatAxioms.mul_spec, Hx, Hy. reflexivity.
  - rewrite Hv'. exact Hle.
Qed.

(** The quotient of a number that is at most [n] by a number that is at
    least [d] is at most every integer [c] of the format with
    [n <= c * d]. *)
Lemma div_at_most (strict : bool) (x y v : float) (n d c : Z) :
  fat_most x n -> fat_least strict y d -> fvalue v c ->
  0 <= n -> 1 <= d -> 1 <= c < 2 ^ 64 -> n <= c * d ->
  fat_most (x / y) c.
Proof.
  pose proof K_value as HK4.
  intros Hx Hy Hv Hn Hd Hc Hncd.
  pose proof Hv as (mv & ev & Hv' & Hvv).
  destruct (fvalue_exponent mv ev c (valid_finite _ _ _ _ Hv') Hvv Hc)
    as [Hev Hmv].
  destruct Hx as [Hx | (mx & ex & Hx & Hvx)].
  { left. rewrite FloatAxioms.div_spec, Hx.
    destruct Hy as [-> | (my & ey & -> & _)]; reflexivity. }
  destruct Hy as [Hy | (my & ey & Hy & Hvy)].
  { left. rewrite FloatAxioms.div_spec, Hx, Hy. reflexivity. }
  assert (Hvy' : d * 2 ^ K <= Zpos my * 2 ^ (ey + K))
    by (destruct strict; lia).
  destruct (canonical_facts mx ex (valid_finite _ _ _ _ Hx)) as (_ & _ & Hex & _).
  destruct (canonical_facts my ey (valid_finite _ _ _ _ Hy)) as (_ & _ & Hey & _).
 
  pose proof (pow2_pos K ltac:(lia)) as HK.
  pose proof (pow2_pos (ey + K) ltac:(lia)) as HY.
  pose proof (pow2_pos (ev + K) ltac:(lia)) as HV.
  assert (Hsplit : 2 ^ (ev + ey + K) * 2 ^ K
                   = 2 ^ (ev + K) * 2 ^ (ey + K)).
  { rewrite <- !Z.pow_add_r by lia. f_equal. lia. }
  assert (Hmain : Zpos mx * 2 ^ (ex + K)
                  <= Zpos mv * Zpos my * 2 ^ (ev + ey + K)).
  { apply (Z.mul_le_mono_pos_r _ _ (2 ^ K)); [exact HK |].
    replace (Zpos mv * Zpos my * 2 ^ (ev + ey + K) * 2 ^ K)
      with ((Zpos mv * 2 ^ (ev + K)) * (Zpos my * 2 ^ (ey + K)))
      by (replace (Zpos mv * Zpos my * 2 ^ (ev + ey + K) * 2 ^ K)
            with (Zpos mv * Zpos my * (2 ^ (ev + ey + K) * 2 ^ K))
            by ring;
          rewrite Hsplit; ring).
    rewrite Hvv.
    assert (H1 : Zpos mx * 2 ^ (ex + K) * 2 ^ K
                 <= n * 2 ^ K * 2 ^ K)
      by (apply Z.mul_le_mono_nonneg_r; lia).
    assert (H2 : n * 2 ^ K * 2 ^ K <= c * d * 2 ^ K * 2 ^ K).
    { apply Z.mul_le_mono_nonneg_r; [lia |].
      apply Z.mul_le_mono_nonneg_r; lia. }
    assert (H3 : c * 2 ^ K * (d * 2 ^ K)
                 <= c * 2 ^ K * (Zpos my * 2 ^ (ey + K))).
    { apply Z.mul_le_mono_nonneg_l; [| exact Hvy'].
      apply Z.mul_nonneg_nonneg; lia. }
    replace (c * d * 2 ^ K * 2 ^ K)
      with (c * 2 ^ K * (d * 2 ^ K)) in H2 by ring.
    lia. }
  destruct (SFdiv_le_bound mx my mv ex ey ev
              (valid_finite _ _ _ _ Hx) (valid_finite _ _ _ _ Hy)
              (valid_finite _ _ _ _ Hv'))
    as [Hle Hnn]; try lia.
  apply (leb_at_most
           (SFdiv prec emax (S754_finite false mx ex) (S754_finite false my ey))
           (x / y) v c); try assumption.
  - rewrite FloatAxioms.div_spec, Hx, Hy. reflexivity.
  - rewrite Hv'. exact Hle.
Qed.

(** The integer part of a number that is at most [n], and of an integer. *)
Lemma truncate_at_most (x : float) (n : Z) :
  0 <= n -> fat_most x n -> 0 <= Number.truncate x <= n.
Proof.
  pose proof K_value as HK4.
  intros Hn [Hx | (m & e & Hx & Hv)]; unfold Number.truncate; rewrite Hx;
    [lia |].
  destruct (canonical_facts m e (valid_finite _ _ _ _ Hx)) as (_ & _ & He & _).
  cbv zeta.
  pose proof (pow2_pos (e + K) ltac:(lia)) as HE.
  destruct (Z.le_gt_cases 0 e) as [Hpos | Hneg].
  - rewrite Z.shiftl_mul_pow2 by lia.
    pose proof (pow2_pos e Hpos) as Hp.
    split; [lia |].
    rewrite (Z.pow_add_r 2 e K) in Hv by lia.
    apply (Z.mul_le_mono_pos_r _ _ (2 ^ K)); [apply pow2_pos; lia |].
    lia.
  - rewrite Z.shiftl_div_pow2 by lia.
    pose proof (pow2_pos (- e) ltac:(lia)) as Hp.
    split; [apply Z.div_pos; lia |].
    apply Z.div_le_upper_bound; [exact Hp |].
    assert (Hs : 2 ^ K = 2 ^ (- e) * 2 ^ (e + K)).
    { rewrite <- Z.pow_add_r by lia. f_equal. lia. }
    rewrite Hs in Hv.
    apply (Z.mul_le_mono_pos_r _ _ (2 ^ (e + K))); [exact HE |].
    lia.
Qed.

Lemma truncate_value (x : float) (n : Z) :
  fvalue x n -> Number.truncate x = n.
Proof.
  pose proof K_value as HK4.
  intros (m & e & Hx & Hv). unfold Number.truncate. rewrite Hx.
  destruct (canonical_facts m e (valid_finite _ _ _ _ Hx)) as (_ & _ & He & _).
  cbv zeta.
  pose proof (pow2_pos (e + K) ltac:(lia)) as HE.
  destruct (Z.le_gt_cases 0 e) as [Hpos | Hneg].
  - rewrite Z.shiftl_mul_pow2 by lia.
    rewrite (Z.pow_add_r 2 e K) in Hv by lia.
    apply (Z.mul_cancel_r _ _ (2 ^ K)); [apply Z.pow_nonzero; lia | lia].
  - rewrite Z.shiftl_div_pow2 by lia.
    pose proof (pow2_pos (- e) ltac:(lia)) as Hp.
    assert (Hs : 2 ^ K = 2 ^ (- e) * 2 ^ (e + K)).
    { rewrite <- Z.pow_add_r by lia. f_equal. lia. }
    rewrite Hs in Hv.
    assert (Hm : Zpos m = n * 2 ^ (- e)).
    { apply (Z.mul_cancel_r _ _ (2 ^ (e + K))); lia. }
    rewrite Hm. apply Z.div_mul. lia.
Qed.

(** A number with a negative exponent is the integer [n] when its
    mantissa is [n] shifted. *)
Lemma fvalue_intro (x : float) (m : positive) (e n : Z) :
  Prim2SF x = S754_finite false m e ->
  - K <= e <= 0 -> Zpos m = n * 2 ^ (- e) -> fvalue x n.
Proof.
  pose proof K_value as HK4.
  intros Hx He Hm. exists m, e. split; [exact Hx |].
  rewrite Hm, <- Z.mul_assoc, <- Z.pow_add_r by lia.
  do 2 f_equal. lia.
Qed.

Lemma fvalue_intro_shifted (x : float) (m : positive) (e n : Z) :
  Prim2SF x = S754_finite false m e ->
  0 <= e -> Zpos m * 2 ^ e = n -> fvalue x n.
Proof.
  pose proof K_value as HK4.
  intros Hx He Hm. exists m, e. split; [exact Hx |].
  rewrite Z.pow_add_r, Z.mul_assoc, Hm by lia. reflexivity.
Qed.

(** *** The constants of the sizing *)

Lemma maxWidth_value : fvalue AnnotationView.maxWidth 800.
Proof.
  apply (fvalue_intro _ 7036874417766400%positive (-43));
    [vm_compute; reflexivity | rewrite K_value; lia | reflexivity].
Qed.

Lemma maxHeight_value : fvalue AnnotationView.maxHeight 600.
Proof.
  apply (fvalue_intro _ 5277655813324800%positive (-43));
    [vm_compute; reflexivity | rewrite K_value; lia | reflexivity].
Qed.

Lemma area_value :
  fvalue (AnnotationView.maxWidth * AnnotationView.maxHeight) 480000.
Proof.
  apply (fvalue_intro _ 8246337208320000%positive (-34));
    [vm_compute; reflexivity | rewrite K_value; lia | reflexivity].
Qed.

Definition two63 : float := 0x1p63%float.

Lemma two63_value : fvalue two63 (2 ^ 63).
Proof.
  apply (fvalue_intro_shifted _ 4503599627370496%positive 11);
    [vm_compute; reflexivity | lia | reflexivity].
Qed.

Lemma area480000_value : fvalue 480000%float 480000.
Proof.
  apply (fvalue_intro _ 8246337208320000%positive (-34));
    [vm_compute; reflexivity | rewrite K_value; lia | reflexivity].
Qed.

End Division.

(** ** The distance test at integer coordinates *)

Module IntegerDistance.

Import Rounding Division AnnotationCanvas.

(** The mantissa and the exponent of a positive integer below [2 ^ 53] in
    the format, and the number itself. *)
Definition mant (n : Z) : positive := Z.to_pos (n * 2 ^ (53 - Zdigits2 n)).
Definition expo (n : Z) : Z := Zdigits2 n - 53.

Definition intS (n : Z) : spec_float :=
  match n with
  | 0 => S754_zero false
  | Zpos _ => S754_finite false (mant n) (expo n)
  | Zneg _ => S754_finite true (mant (- n)) (expo (- n))
  end.

Lemma digits_range (n : Z) :
  1 <= n < 2 ^ 53 ->
  1 <= Zdigits2 n <= 53 /\ 2 ^ (Zdigits2 n - 1) <= n < 2 ^ Zdigits2 n.
Proof.
  intros Hn. destruct n as [| p | p]; try lia. cbn [Zdigits2].
  pose proof (digits2_pos_bounds p) as Hp.
  pose proof (digits_pos_le_53 p ltac:(lia)). lia.
Qed.

(** Shifting a number to the left adds to its digits. *)
Lemma digits_shift (n k : Z) :
  1 <= n -> 0 <= k -> Zdigits2 (n * 2 ^ k) = Zdigits2 n + k.
Proof.
  intros Hn Hk. destruct n as [| p | p]; try lia.
  pose proof (pow2_pos k Hk) as HP.
  destruct (Zpos p * 2 ^ k) as [| q | q] eqn:Hq; try lia.
  cbn [Zdigits2]. apply digits2_pos_unique.
  pose proof (digits2_pos_bounds p) as [Hlo Hhi].
  rewrite <- Hq.
  replace (Zpos (digits2_pos p) + k - 1) with (Zpos (digits2_pos p) - 1 + k)
    by lia.
  rewrite !Z.pow_add_r by lia. split.
  - apply Z.mul_le_mono_nonneg_r; lia.
  - apply Z.mul_lt_mono_pos_r; lia.
Qed.

Lemma mant_value (n : Z) :
  1 <= n < 2 ^ 53 ->
  Zpos (mant n) = n * 2 ^ (- expo n) /\ 2 ^ 52 <= Zpos (mant n) < 2 ^ 53.
Proof.
  intros Hn. destruct (digits_range n Hn) as [Hd [Hlo Hhi]].
  unfold mant, expo. set (d := Zdigits2 n) in *.
  pose proof (pow2_pos (53 - d) ltac:(lia)) as HP.
  rewrite Z2Pos.id by nia.
  replace (- (d - 53)) with (53 - d) by lia. split; [reflexivity |].
  split.
  - replace 52 with (d - 1 + (53 - d)) by lia. rewrite Z.pow_add_r by lia.
    apply Z.mul_le_mono_nonneg_r; lia.
  - replace 53 with (d + (53 - d)) at 2 by lia. rewrite Z.pow_add_r by lia.
    apply Z.mul_lt_mono_pos_r; lia.
Qed.

(** Rounding an integer below [2 ^ 53] that is handed over with enough
    digits gives the integer. *)
Lemma round_exact (s : bool) (n E q : Z) :
  1 <= n < 2 ^ 53 -> E <= expo n -> q = n * 2 ^ (- E) ->
  binary_round_aux prec emax s q E loc_Exact = S754_finite s (mant n) (expo n).
Proof.
  intros Hn HE Hq. destruct (digits_range n Hn) as [Hd [Hlo Hhi]].
  destruct (mant_value n Hn) as [Hm Hm53].
  unfold expo in *. set (d := Zdigits2 n) in *.
  pose proof (pow2_pos (- E) ltac:(lia)) as HP.
  assert (Hq0 : 0 <= q) by nia.
  assert (Hdq : Zdigits2 q = d - E).
  { rewrite Hq, digits_shift by lia. fold d. lia. }
  pose proof (binary_round_aux_any s q E loc_Exact) as Hany.
  cbv zeta in Hany. rewrite Hdq in Hany.
  replace (Z.max E (Z.max (d - E + E - 53) (-1074))) with (d - 53) in Hany
    by lia.
  destruct (Hany Hq0 ltac:(lia)) as (rho & Hrho & Hrange & ->).
  set (t := d - 53 - E) in *.
  pose proof (pow2_pos t ltac:(unfold t; lia)) as HT.
  assert (Hsplit : 2 ^ (- E) = 2 ^ (- (d - 53)) * 2 ^ t).
  { rewrite <- Z.pow_add_r by (unfold t; lia). f_equal. unfold t. lia. }
  assert (Hq' : q = Zpos (mant n) * 2 ^ t).
  { rewrite Hq, Hm, Hsplit. ring. }
  assert (Hm1 : q / 2 ^ t = Zpos (mant n)).
  { rewrite Hq'. apply Z.div_mul. lia. }
  rewrite Hm1 in Hrho.
  assert (Hr : rho = Zpos (mant n)).
  { destruct Hrho as [H | [_ [H | H]]]; [exact H | lia | now elim H]. }
  rewrite Hr.
  destruct (Z.eqb_spec (Zpos (mant n)) 0) as [H0 | _]; [lia |].
  destruct (Z.eqb_spec (Zpos (mant n)) (2 ^ 53)) as [H53 | _]; [lia |].
  reflexivity.
Qed.

Lemma binary_round_exact (s : bool) (p : positive) (e n : Z) :
  1 <= n < 2 ^ 53 -> e <= 0 -> Zpos p = n * 2 ^ (- e) ->
  binary_round prec emax s p e = S754_finite s (mant n) (expo n).
Proof.
  intros Hn He Hp. destruct (digits_range n Hn) as [Hd _].
  unfold binary_round. rewrite fexp_eq.
  assert (Hdp : Zpos (digits2_pos p) = Zdigits2 n - e).
  { change (Zpos (digits2_pos p)) with (Zdigits2 (Zpos p)).
    rewrite Hp, digits_shift by lia. lia. }
  rewrite Hdp.
  replace (Z.max (Zdigits2 n - e + e - 53) (-1074)) with (expo n)
    by (unfold expo; lia).
  destruct (Z.le_gt_cases e (expo n)) as [Hle | Hgt].
  - rewrite shl_align_no_shift by exact Hle.
    now apply round_exact.
  - destruct (expo n - e) as [| k | k] eqn:Hk; try lia.
    rewrite (shl_align_shift p e (expo n) k Hk).
    apply round_exact; [exact Hn | lia |].
    rewrite iter_xO_pow, Hp, <- Z.mul_assoc, <- Z.pow_add_r
      by (unfold expo in *; lia).
    do 2 f_equal. lia.
Qed.

(** Normalising an integer of less than 54 bits, handed over with a
    negative exponent, gives the integer. *)
Lemma binary_normalize_exact (m e n : Z) :
  - 2 ^ 53 < n < 2 ^ 53 -> e <= 0 -> m = n * 2 ^ (- e) ->
  binary_normalize prec emax m e false = intS n.
Proof.
  intros Hn He Hm. pose proof (pow2_pos (- e) ltac:(lia)) as HP.
  destruct n as [| pn | pn]; cbn [intS].
  - rewrite Hm. reflexivity.
  - destruct m as [| p | p]; try nia. cbn [binary_normalize].
    apply binary_round_exact; [lia | exact He | exact Hm].
  - destruct m as [| p | p]; try nia. cbn [binary_normalize].
    apply binary_round_exact; [cbn; lia | exact He |].
    cbn [Z.opp]. pose proof (Pos2Z.opp_pos p). pose proof (Pos2Z.opp_pos pn).
    nia.
Qed.

(** An integer attribute is read without rounding. *)
Lemma of_Z_int (n : Z) :
  0 <= n < 2 ^ 53 -> Prim2SF (Number.of_Z n) = intS n.
Proof.
  intros Hn. unfold Number.of_Z.
  rewrite FloatAxioms.of_uint63_spec, Uint63.of_Z_spec.
  rewrite Z.mod_small
    by (change wB with 9223372036854775808;
        change (2 ^ 53) with 9007199254740992 in Hn; lia).
  apply binary_normalize_exact; [lia | lia |].
  change (2 ^ (- 0)) with 1. lia.
Qed.

(** The aligned mantissa of an integer. *)
Lemma align_int (n ez : Z) :
  1 <= n < 2 ^ 53 -> ez <= expo n ->
  Zpos (fst (shl_align (mant n) (expo n) ez)) = n * 2 ^ (- ez).
Proof.
  intros Hn Hez. destruct (digits_range n Hn) as [Hd _].
  destruct (mant_value n Hn) as [Hm _].
  destruct (ez - expo n) as [| k | k] eqn:Hk; try lia.
  - replace ez with (expo n) by lia. rewrite shl_align_same. exact Hm.
  - rewrite (shl_align_shift _ _ _ k Hk). cbn [fst].
    rewrite iter_xO_pow, Hm, <- Z.mul_assoc, <- Z.pow_add_r
      by (unfold expo in *; lia).
    do 2 f_equal. lia.
Qed.

Lemma expo_range (n : Z) : 1 <= n < 2 ^ 53 -> -52 <= expo n <= 0.
Proof. intros Hn. destruct (digits_range n Hn). unfold expo. lia. Qed.

(** The difference of two integers is computed without rounding. *)
Lemma sub_int (x y : float) (a b : Z) :
  0 <= a < 2 ^ 53 -> 0 <= b < 2 ^ 53 ->
  Prim2SF x = intS a -> Prim2SF y = intS b ->
  Prim2SF (x - y) = intS (a - b).
Proof.
  intros Ha Hb Hx Hy. rewrite FloatAxioms.sub_spec, Hx, Hy.
  unfold SF64sub.
  destruct a as [| pa | pa], b as [| pb | pb]; try lia; cbn [intS SFsub].
  - reflexivity.
  - reflexivity.
  - rewrite Z.sub_0_r. reflexivity.
  - cbn [cond_Zopp].
    pose proof (expo_range (Zpos pa) ltac:(lia)).
    pose proof (expo_range (Zpos pb) ltac:(lia)).
    rewrite !align_int by lia.
    apply binary_normalize_exact; [lia | lia | ring].
Qed.

(** So is the sum of two integers that are not negative. *)
Lemma add_int (x y : float) (a b : Z) :
  0 <= a -> 0 <= b -> a + b < 2 ^ 53 ->
  Prim2SF x = intS a -> Prim2SF y = intS b ->
  Prim2SF (x + y) = intS (a + b).
Proof.
  intros Ha Hb Hab Hx Hy. rewrite FloatAxioms.add_spec, Hx, Hy.
  unfold SF64add.
  destruct a as [| pa | pa], b as [| pb | pb]; try lia; cbn [intS SFadd].
  - reflexivity.
  - reflexivity.
  - reflexivity.
  - cbn [cond_Zopp].
    pose proof (expo_range (Zpos pa) ltac:(lia)).
    pose proof (expo_range (Zpos pb) ltac:(lia)).
    rewrite !align_int by lia.
    apply binary_normalize_exact; [lia | lia | ring].
Qed.

(** And the square of an integer of at most 26 bits. *)
Lemma square_int (x : float) (n : Z) :
  - 2 ^ 26 < n < 2 ^ 26 ->
  Prim2SF x = intS n -> Prim2SF (square x) = intS (n * n).
Proof.
  intros Hn Hx. unfold square. rewrite FloatAxioms.mul_spec, Hx.
  unfold SF64mul.
  assert (Hsq : forall k sx, 1 <= k < 2 ^ 26 ->
             SFmul prec emax (S754_finite sx (mant k) (expo k))
                   (S754_finite sx (mant k) (expo k))
             = S754_finite false (mant (k * k)) (expo (k * k))).
  { intros k sx Hk.
    assert (Hk53 : 1 <= k < 2 ^ 53)
      by (change (2 ^ 26) with 67108864 in Hk;
          change (2 ^ 53) with 9007199254740992; lia).
    assert (Hkk : 1 <= k * k < 2 ^ 53)
      by (change (2 ^ 26) with 67108864 in Hk;
          change (2 ^ 53) with 9007199254740992; nia).
    destruct (mant_value k Hk53) as [Hm _].
    pose proof (expo_range k Hk53). pose proof (expo_range (k * k) Hkk).
    assert (Hdk : Zdigits2 k <= 26).
    { destruct (digits_range k Hk53) as [_ [Hlow _]].
      destruct (Z.le_gt_cases (Zdigits2 k) 26) as [Hle | Hgt]; [exact Hle |].
      pose proof (Z.pow_le_mono_r 2 26 (Zdigits2 k - 1) ltac:(lia) ltac:(lia)).
      lia. }
    destruct (digits_range (k * k) Hkk) as [Hdkk _].
    cbn [SFmul]. rewrite xorb_nilpotent.
    apply round_exact; [exact Hkk | unfold expo; lia |].
    rewrite Pos2Z.inj_mul, Hm.
    replace (- (expo k + expo k)) with (- expo k + - expo k) by lia.
    rewrite Z.pow_add_r by lia. ring. }
  destruct n as [| p | p]; cbn [intS].
  - reflexivity.
  - rewrite (Hsq (Zpos p) false) by lia.
    destruct (Zpos p * Zpos p) eqn:H; try lia. reflexivity.
  - cbn [Z.opp]. rewrite (Hsq (Zpos p) true) by lia.
    replace (Zneg p * Zneg p) with (Zpos p * Zpos p) by lia.
    destruct (Zpos p * Zpos p) eqn:H; try lia. reflexivity.
Qed.

Lemma square_lt_inv (a b : Z) : 0 <= a -> 0 <= b -> a * a < b * b -> a < b.
Proof. intros. nia. Qed.

(** The integer square root the format's square root starts from, for an
    integer above 225: it has 53 digits and lies above 15. *)
Lemma sqrt_core_large (n : Z) :
  226 <= n < 2 ^ 53 ->
  exists q e' l,
    SFsqrt_core_binary prec emax (Zpos (mant n)) (expo n) = (q, e', l)
    /\ -52 <= e' <= -26
    /\ 2 ^ 52 <= q < 2 ^ 53
    /\ 15 * 2 ^ (- e') < q.
Proof.
  intros Hn. assert (Hn1 : 1 <= n < 2 ^ 53) by lia.
  destruct (digits_range n Hn1) as [Hd _].
  destruct (mant_value n Hn1) as [Hm Hmr].
  assert (Hdm : Zdigits2 (Zpos (mant n)) = 53).
  { cbn [Zdigits2]. apply digits2_pos_unique. exact Hmr. }
  unfold SFsqrt_core_binary. rewrite Hdm, fexp_eq.
  change IntDef.Z.div2 with Z.div2. change IntDef.Z.min with Z.min.
  change IntDef.Z.shiftl with Z.shiftl. change IntDef.Z.sqrtrem with Z.sqrtrem.
  rewrite !Z.div2_div.
  set (e' := Z.min (Z.max ((53 + expo n + 1) / 2 - 53) (-1074)) (expo n / 2)).
  assert (He' : -52 <= e' <= -26 /\ 52 <= expo n - 2 * e' <= 53).
  { unfold e', expo.
    pose proof (Z.div_mod (Zdigits2 n - 53) 2 ltac:(lia)).
    pose proof (Z.mod_pos_bound (Zdigits2 n - 53) 2 ltac:(lia)).
    pose proof (Z.div_mod (53 + (Zdigits2 n - 53) + 1) 2 ltac:(lia)).
    pose proof (Z.mod_pos_bound (53 + (Zdigits2 n - 53) + 1) 2 ltac:(lia)).
    lia. }
  destruct (expo n - 2 * e') as [| s | s] eqn:Hs; try lia.
  rewrite Z.shiftl_mul_pow2 by lia.
  set (P := 2 ^ (- e')).
  assert (HP : 2 ^ 26 <= P <= 2 ^ 52)
    by (unfold P; split; apply Z.pow_le_mono_r; lia).
  assert (Hm' : Zpos (mant n) * 2 ^ Zpos s = n * (P * P)).
  { rewrite Hm, <- Z.mul_assoc. f_equal. unfold P.
    rewrite <- !Z.pow_add_r by (unfold expo; lia). f_equal. lia. }
  rewrite Hm'.
  assert (Hlow : 2 ^ 52 * 2 ^ 52 <= n * (P * P)).
  { rewrite <- Hm'. apply Z.mul_le_mono_nonneg; try lia.
    apply Z.pow_le_mono_r; lia. }
  assert (Hhigh : n * (P * P) < 2 ^ 53 * 2 ^ 53).
  { rewrite <- Hm'. pose proof (pow2_pos (Zpos s) ltac:(lia)).
    apply Z.lt_le_trans with (2 ^ 53 * 2 ^ Zpos s).
    - apply Z.mul_lt_mono_pos_r; lia.
    - apply Z.mul_le_mono_nonneg_l; [lia | apply Z.pow_le_mono_r; lia]. }
  pose proof (Z.sqrtrem_spec (n * (P * P)) ltac:(nia)) as Hsq.
  destruct (Z.sqrtrem (n * (P * P))) as [q r]. destruct Hsq as [Hq Hr].
  eexists q, e', _. split; [reflexivity |]. split; [lia |].
  assert (H32 : 32 <= P) by (change (2 ^ 26) with 67108864 in HP; lia).
  pose proof (pow2_pos 52 ltac:(lia)) as HA.
  pose proof (pow2_pos 53 ltac:(lia)) as HB.
  revert HA HB Hlow Hhigh. generalize (2 ^ 52) (2 ^ 53).
  intros A B HA HB Hlow Hhigh.
  assert (Hq0 : 0 <= q) by nia.
  split; [split |].
  - assert (A < q + 1); [| lia].
    apply square_lt_inv; nia.
  - apply square_lt_inv; nia.
  - assert (15 * P + 1 < q + 1); [| lia].
    apply square_lt_inv; nia.
Qed.

Lemma fifteen : Prim2SF 15 = S754_finite false 8444249301319680 (-49).
Proof. reflexivity. Qed.

(** The rounded square root of an integer above 225 is above 15. *)
Lemma sqrt_above_15 (n : Z) :
  226 <= n < 2 ^ 53 ->
  (PrimFloat.sqrt (Number.of_Z n) <=? 15)%float = false.
Proof.
  intros Hn. pose proof K_value as HK.
  destruct (sqrt_core_large n Hn) as (q & e' & l & Hcore & He' & Hq & H15).
  assert (Hs : Prim2SF (PrimFloat.sqrt (Number.of_Z n))
               = binary_round_aux prec emax false q e' l).
  { rewrite FloatAxioms.sqrt_spec, of_Z_int by lia.
    destruct n as [| p | p]; try lia.
    cbn [intS]. unfold SF64sqrt, SFsqrt. rewrite Hcore. reflexivity. }
  assert (Hdq : Zdigits2 q = 53).
  { destruct q as [| pq | pq]; try lia.
    cbn [Zdigits2]. apply digits2_pos_unique. exact Hq. }
  destruct (binary_round_aux_any false q e' l)
    as (rho & Hrho & Hrange & Hround); [lia | rewrite Hdq; lia |].
  rewrite Hdq in Hrho, Hround.
  replace (Z.max e' (Z.max (53 + e' - 53) (-1074))) with e' in Hrho, Hround
    by lia.
  rewrite Z.sub_diag, Z.pow_0_r, Z.div_1_r in Hrho.
  assert (Hq_rho : q <= rho) by lia.
  rewrite Hround in Hs. clear Hround Hrho.
  pose proof (pow2_pos (e' + K) ltac:(lia)) as HX.
  pose proof (pow2_pos (- e') ltac:(lia)) as HP.
  assert (H49 : 8444249301319680 * 2 ^ (-49 + K) = 15 * 2 ^ (- e') * 2 ^ (e' + K)).
  { change 8444249301319680 with (15 * 2 ^ 49).
    rewrite <- !Z.mul_assoc, <- !Z.pow_add_r by lia. do 2 f_equal. lia. }
  destruct (Z.eqb_spec rho 0) as [H0 | _]; [lia |].
  rewrite FloatAxioms.leb_spec, fifteen. unfold SFleb.
  destruct (Z.eqb_spec rho (2 ^ 53)) as [H53 | _].
  - rewrite Hs, SFcompare_value
      by (first [exact (valid_finite _ _ _ _ Hs) | reflexivity]).
    assert (Hgt : 8444249301319680 * 2 ^ (-49 + K)
                  < 4503599627370496 * 2 ^ (e' + 1 + K)).
    { rewrite H49. change 4503599627370496 with (2 ^ 52).
      replace (e' + 1 + K) with (1 + (e' + K)) by lia.
      rewrite (Z.pow_add_r 2 1 (e' + K)), Z.mul_assoc by lia.
      apply Z.mul_lt_mono_pos_r; [exact HX |].
      change (2 ^ 52 * 2 ^ 1) with (2 ^ 53). lia. }
    apply Z.compare_gt_iff in Hgt. now rewrite Hgt.
  - rewrite Hs, SFcompare_value
      by (first [exact (valid_finite _ _ _ _ Hs) | reflexivity]).
    assert (Hgt : 8444249301319680 * 2 ^ (-49 + K)
                  < Zpos (Z.to_pos rho) * 2 ^ (e' + K)).
    { rewrite H49, Z2Pos.id by lia.
      apply Z.mul_lt_mono_pos_r; [exact HX | lia]. }
    apply Z.compare_gt_iff in Hgt. now rewrite Hgt.
Qed.

(** Up to 225 the rounded square root is at most 15. *)
Lemma sqrt_up_to_15 (n : Z) :
  0 <= n <= 225 -> (PrimFloat.sqrt (Number.of_Z n) <=? 15)%float = true.
Proof.
  intros Hn.
  assert (Hall : forallb (fun k => (PrimFloat.sqrt (Number.of_Z k) <=? 15)%float)
                         (map Z.of_nat (seq 0 226)) = true)
    by (vm_compute; reflexivity).
  rewrite forallb_forall in Hall. apply Hall.
  apply in_map_iff. exists (Z.to_nat n). split; [lia |].
  apply in_seq. lia.
Qed.

Lemma sqrt_leb_15 (n : Z) :
  0 <= n < 2 ^ 53 ->
  (PrimFloat.sqrt (Number.of_Z n) <=? 15)%float = (n <=? 225).
Proof.
  intros Hn. destruct (Z.leb_spec n 225).
  - apply sqrt_up_to_15. lia.
  - apply sqrt_above_15. lia.
Qed.

Lemma square_bound (u M : Z) : - M < u < M -> 0 <= u * u < M * M.
Proof. intros. nia. Qed.

(** At integer coordinates below [2 ^ 26] nothing in the handler's test is
    rounded but the square root, and the rounded root is at most 15 exactly
    when the sum of the squares is at most 225. *)
Lemma hit_integers (a b c d : Z) (tool : Tool) (name : string) :
  0 <= a < 2 ^ 26 -> 0 <= b < 2 ^ 26 -> 0 <= c < 2 ^ 26 -> 0 <= d < 2 ^ 26 ->
  hit (Number.of_Z b) (Number.of_Z d)
      {| x := Number.of_Z a; y := Number.of_Z c; type := tool; id := name |}
  = ((a - b) * (a - b) + (c - d) * (c - d) <=? 225).
Proof.
  intros Ha Hb Hc Hd.
  assert (H26 : 2 ^ 26 = 67108864) by reflexivity.
  assert (H53 : 2 ^ 53 = 9007199254740992) by reflexivity.
  set (n := (a - b) * (a - b) + (c - d) * (c - d)).
  assert (Hx : Prim2SF (square (Number.of_Z a - Number.of_Z b))
               = intS ((a - b) * (a - b))).
  { apply square_int; [lia |].
    apply sub_int; try apply of_Z_int; lia. }
  assert (Hy : Prim2SF (square (Number.of_Z c - Number.of_Z d))
               = intS ((c - d) * (c - d))).
  { apply square_int; [lia |].
    apply sub_int; try apply of_Z_int; lia. }
  pose proof (square_bound (a - b) 67108864 ltac:(lia)) as Hab.
  pose proof (square_bound (c - d) 67108864 ltac:(lia)) as Hcd.
  assert (Hn : 0 <= n < 2 ^ 53) by (unfold n; lia).
  assert (Hsum : (square (Number.of_Z a - Number.of_Z b)
                  + square (Number.of_Z c - Number.of_Z d))%float
                 = Number.of_Z n).
  { apply FloatAxioms.Prim2SF_inj. rewrite of_Z_int by exact Hn.
    apply add_int; try assumption; unfold n in Hn; lia. }
  unfold hit, distance. cbn [x y]. rewrite Hsum.
  apply sqrt_leb_15. exact Hn.
Qed.

(** The exact value of an integer attribute. *)
Lemma exactValue_int (n : Z) :
  0 <= n < 2 ^ 53 -> exactValue (Number.of_Z n) = Some (n * 2 ^ 1074).
Proof.
  intros Hn. unfold exactValue. rewrite of_Z_int by exact Hn.
  destruct n as [| p | p]; try lia; cbn [intS]; [reflexivity |].
  f_equal. assert (Hp : 1 <= Zpos p < 2 ^ 53) by lia.
  destruct (mant_value _ Hp) as [-> _]. pose proof (expo_range _ Hp).
  rewrite <- Z.mul_assoc, <- Z.pow_add_r by lia. do 2 f_equal. lia.
Qed.

Lemma scaled_leb (n k T : Z) : 0 < T -> (n * (T * T) <=? k * (T * T)) = (n <=? k).
Proof.
  intros HT. destruct (Z.leb_spec n k), (Z.leb_spec (n * (T * T)) (k * (T * T)));
    try reflexivity; nia.
Qed.

(** At integer coordinates the Euclidean test is the comparison of the sum
    of the squares with 225. *)
Lemma euclidean_integers (a b c d : Z) (tool : Tool) (name : string) :
  0 <= a < 2 ^ 53 -> 0 <= b < 2 ^ 53 -> 0 <= c < 2 ^ 53 -> 0 <= d < 2 ^ 53 ->
  withinEuclidean15 (Number.of_Z b) (Number.of_Z d)
      {| x := Number.of_Z a; y := Number.of_Z c; type := tool; id := name |}
  = Some ((a - b) * (a - b) + (c - d) * (c - d) <=? 225).
Proof.
  intros Ha Hb Hc Hd. unfold withinEuclidean15. cbn [x y].
  rewrite !exactValue_int by assumption. f_equal.
  pose proof (pow2_pos 1074 ltac:(lia)) as HT. revert HT.
  generalize (2 ^ 1074). intros T HT.
  rewrite !Z.pow_2_r.
  replace ((a * T - b * T) * (a * T - b * T) + (c * T - d * T) * (c * T - d * T))
    with (((a - b) * (a - b) + (c - d) * (c - d)) * (T * T)) by ring.
  change (15 * 15) with 225. now apply scaled_leb.
Qed.

(** The click position of an event at integer client coordinates on a
    canvas at an integer offset. *)
Lemma click_position_integer (c l : Z) :
  0 <= l -> l <= c < 2 ^ 53 ->
  (Number.of_Z c - Number.of_Z l)%float = Number.of_Z (c - l).
Proof.
  intros Hl Hc. apply FloatAxioms.Prim2SF_inj.
  rewrite (of_Z_int (c - l)) by lia.
  apply sub_int; try apply of_Z_int; lia.
Qed.

End IntegerDistance.

(** ** The marker toggle, with the distance test *)

Module MarkerToggle.

Import AnnotationCanvas CanvasClick IntegerDistance.

(** C1 (amended). A click at [(px, py)] on a marker list: when some marker
    passes the handler's test, its distance from the click as computed in
    binary64 being at most 15, exactly the first such marker in insertion
    order is removed and nothing is added; when none does, exactly one
    marker of the selected kind is appended at [(px, py)].  The selected
    kind starts as Success, and from the empty set a click at (100,100)
    adds one marker which a second click at (101,101) removes.  Where the
    marker and the click have integer coordinates from 0 to below
    [2 ^ 26], the handler's test is the Euclidean one: it holds exactly
    when the squares of the two differences sum to at most [15 ^ 2]; and
    an integer client coordinate less an integer canvas offset gives such
    a click coordinate. *)
Theorem click_toggles_marker
        (st : State) (e : MouseEvent) (rect : DOMRect) (now : Z) :
  let px := (clientX e - left rect)%float in
  let py := (clientY e - top rect)%float in
  let st' := click st e rect now in
  currentTool st' = currentTool st
  /\ ((exists q, In q (points st) /\ hit px py q = true) ->
      exists before p after,
        points st = before ++ p :: after
        /\ hit px py p = true
        /\ (forall q, In q before -> hit px py q = false)
        /\ points st' = before ++ after
        /\ List.length (points st) = S (List.length (points st')))
  /\ ((forall q, In q (points st) -> hit px py q = false) ->
      points st'
      = points st ++ [ {| x := px; y := py; type := currentTool st;
                          id := JS.string_of_Z now |} ])
  /\ currentTool initialState = success
  /\ (forall t1 t2 : Z,
        let '(e1, r1) := clickAt 100 100 in
        let '(e2, r2) := clickAt 101 101 in
        let st1 := click initialState e1 r1 t1 in
        points st1 = [ {| x := 100; y := 100; type := success;
                          id := JS.string_of_Z t1 |} ]
        /\ points (click st1 e2 r2 t2) = [])
  /\ (forall (a b c d : Z) (tool : Tool) (name : string),
        0 <= a < 2 ^ 26 -> 0 <= b < 2 ^ 26 ->
        0 <= c < 2 ^ 26 -> 0 <= d < 2 ^ 26 ->
        let q := {| x := Number.of_Z a; y := Number.of_Z c;
                    type := tool; id := name |} in
        hit (Number.of_Z b) (Number.of_Z d) q
        = ((a - b) ^ 2 + (c - d) ^ 2 <=? 15 ^ 2)
        /\ withinEuclidean15 (Number.of_Z b) (Number.of_Z d) q
           = Some (hit (Number.of_Z b) (Number.of_Z d) q))
  /\ (forall client offset : Z,
        0 <= offset <= client -> client < 2 ^ 26 ->
        (Number.of_Z client - Number.of_Z offset)%float
        = Number.of_Z (client - offset)).
Proof.
  cbv zeta. split; [reflexivity |].
  split; [| split; [| split; [| split; [| split]]]].
  - intros Hex. apply some_hit_findIndex in Hex.
    destruct (findIndex_first _ _ Hex)
      as (before & p & after & Hpts & Hp & Hbefore & Hidx).
    assert (Hres : points (click st e rect now) = before ++ after).
    { unfold click, handleCanvasClick; cbn [points].
      destruct (Z.eqb_spec
                  (JS.findIndex (hit (clientX e - left rect)
                                     (clientY e - top rect)) (points st))
                  (-1)) as [Heq | _]; [contradiction |].
      cbn [negb]. rewrite Hidx, Hpts.
      apply (filter_index_remove before after p 0). }
    exists before, p, after. repeat split; auto.
    rewrite Hres, Hpts, !length_app. cbn [List.length]. lia.
  - intros Hnone. apply no_hit_findIndex in Hnone.
    unfold click, handleCanvasClick; cbn [points].
    rewrite Hnone. reflexivity.
  - reflexivity.
  - intros t1 t2. split; vm_compute; reflexivity.
  - intros a b c d tool name Ha Hb Hc Hd.
    assert (H26 : 2 ^ 26 = 67108864) by reflexivity.
    assert (H53 : 2 ^ 53 = 9007199254740992) by reflexivity.
    rewrite euclidean_integers, hit_integers by lia.
    rewrite !Z.pow_2_r. split; reflexivity.
  - intros client offset Ho Hc.
    assert (H26 : 2 ^ 26 = 67108864) by reflexivity.
    assert (H53 : 2 ^ 53 = 9007199254740992) by reflexivity.
    apply click_position_integer; lia.
Qed.

(** The scenario of the claim, through the theorem: the second click finds
    the marker placed by the first within range and removes it. *)
Lemma click_toggles_marker_witness :
  let st1 := click initialState (fst (clickAt 100 100)) (snd (clickAt 100 100)) 1 in
  points (click st1 (fst (clickAt 101 101)) (snd (clickAt 101 101)) 2) = [].
Proof.
  cbv zeta.
  destruct (click_toggles_marker
              (click initialState (fst (clickAt 100 100))
                     (snd (clickAt 100 100)) 1)
              (fst (clickAt 101 101)) (snd (clickAt 101 101)) 2)
    as (_ & Hremove & _).
  cbv zeta in Hremove.
  destruct Hremove as (before & p & after & Hpts & _ & _ & Hres & _).
  - eexists. split; [left; reflexivity | vm_compute; reflexivity].
  - rewrite Hres.
    destruct before as [| b before]; cbn in Hpts.
    + injection Hpts as _ <-. reflexivity.
    + injection Hpts as _ Hrest. destruct before; discriminate.
Defined.

End MarkerToggle.

(** ** The size of the annotation canvas *)

Module SizingProps.

Import Division AnnotationView.

Lemma big (n : Z) : 1 <= n < 2 ^ 53 -> 1 <= n < 2 ^ 64.
Proof.
  change (2 ^ 53) with 9007199254740992.
  change (2 ^ 64) with 18446744073709551616. lia.
Qed.

(** The two numbers of the sizing, in value. *)
(** The numeric side conditions of the value lemmas. *)
Ltac side :=
  try assumption;
  try (change (2 ^ 64) with 18446744073709551616; lia).

Lemma fitSize_bounds (imgWidth imgHeight : Z) :
  1 <= imgWidth < 2 ^ 53 -> 1 <= imgHeight < 2 ^ 53 ->
  fat_most (fst (fitSize imgWidth imgHeight)) 800
  /\ fat_most (snd (fitSize imgWidth imgHeight)) 600
  /\ (imgWidth <= 800 -> imgHeight <= 600 ->
      fitSize imgWidth imgHeight
      = (Number.of_Z imgWidth, Number.of_Z imgHeight)).
Proof.
  pose proof K_value as HK4.
  intros Hw Hh.
  pose proof (of_Z_value imgWidth Hw) as Hfw.
  pose proof (of_Z_value imgHeight Hh) as Hfh.
  pose proof maxWidth_value as H800. pose proof maxHeight_value as H600.
  pose proof (big imgWidth Hw) as Hw64. pose proof (big imgHeight Hh) as Hh64.
  change (2 ^ 53) with 9007199254740992 in Hw, Hh.
  change (2 ^ 64) with 18446744073709551616 in Hw64, Hh64.
  unfold fitSize.
  rewrite (ltb_values _ _ _ _ H800 Hfw).
  destruct (Z.ltb_spec 800 imgWidth) as [Hwide | Hnarrow].
  - (* scaled to the maximum width *)
    assert (Hprod : fat_most (Number.of_Z imgHeight * maxWidth)
                             9223372036854775808).
    { apply (mul_at_most _ _ two63 imgHeight 800); side.
      apply two63_value. }
    assert (Hy1 : fat_most (Number.of_Z imgHeight * maxWidth
                            / Number.of_Z imgWidth) 9223372036854775808).
    { apply (div_at_most false _ _ two63 9223372036854775808 1); side.
      - apply (fvalue_at_least _ imgWidth); [assumption | lia].
      - apply two63_value. }
    destruct (maxHeight <? _)%float eqn:Htall; cbn [fst snd].
    + split; [| split; [| lia]].
      * apply (div_at_most true _ _ maxWidth 480000 600); side.
        -- apply (fvalue_at_most _ 480000); [apply area_value | lia].
        -- apply (ltb_above maxHeight); assumption.
      * apply (fvalue_at_most _ 600); [assumption | lia].
    + split; [| split; [| lia]].
      * apply (fvalue_at_most _ 800); [assumption | lia].
      * apply (not_ltb_at_most maxHeight); try assumption.
        apply (fat_most_nonneg _ _ Hy1).
  - (* the width is kept *)
    rewrite (ltb_values _ _ _ _ H600 Hfh).
    destruct (Z.ltb_spec 600 imgHeight) as [Htall | Hshort]; cbn [fst snd].
    + split; [| split; [| lia]].
      * apply (div_at_most true _ _ maxWidth 480000 600); side.
        -- apply (mul_at_most _ _ 480000%float imgWidth 600); side.
           apply area480000_value.
        -- apply (fvalue_above _ imgHeight); assumption.
      * apply (fvalue_at_most _ 600); [assumption | lia].
    + split; [| split; [| reflexivity]].
      * apply (fvalue_at_most _ imgWidth); assumption.
      * apply (fvalue_at_most _ imgHeight); assumption.
Qed.

Lemma setDimension_small (default n : Z) (x : float) :
  0 <= Number.truncate x <= n -> n <= 2147483647 ->
  Canvas.setDimension default x = Number.truncate x.
Proof.
  intros Ht Hn. unfold Canvas.setDimension, Number.toUnsignedLong.
  rewrite Z.mod_small by (change (2 ^ 32) with 4294967296; lia).
  destruct (Z.leb_spec (Number.truncate x) 2147483647); [reflexivity | lia].
Qed.

(** For every image of at least one pixel each way (and sides below
    [2 ^ 53]), the sizing of the annotation canvas yields a width of at
    most 800 and a height of at most 600, as numbers and as canvas
    attributes; an image that is within 800 by 600 keeps its size. *)
Theorem annotation_canvas_fits (imgWidth imgHeight : Z) :
  1 <= imgWidth < 2 ^ 53 -> 1 <= imgHeight < 2 ^ 53 ->
  let size := fitSize imgWidth imgHeight in
  let attributes := canvasAttributes imgWidth imgHeight in
  (fst size <=? maxWidth)%float = true
  /\ (snd size <=? maxHeight)%float = true
  /\ 0 <= fst attributes <= 800
  /\ 0 <= snd attributes <= 600
  /\ (imgWidth <= 800 -> imgHeight <= 600 ->
      attributes = (imgWidth, imgHeight)).
Proof.
  intros Hw Hh. cbv zeta.
  destruct (fitSize_bounds imgWidth imgHeight Hw Hh) as (HW & HH & Hsmall).
  pose proof (truncate_at_most _ 800 ltac:(lia) HW) as HtW.
  pose proof (truncate_at_most _ 600 ltac:(lia) HH) as HtH.
  unfold canvasAttributes.
  destruct (fitSize imgWidth imgHeight) as [width height] eqn:Hfit.
  cbn [fst snd] in *.
  rewrite (setDimension_small 300 800 width HtW) by lia.
  rewrite (setDimension_small 150 600 height HtH) by lia.
  split; [apply (at_most_leb _ _ 800 800); [assumption | apply maxWidth_value | lia] |].
  split; [apply (at_most_leb _ _ 600 600); [assumption | apply maxHeight_value | lia] |].
  split; [exact HtW |]. split; [exact HtH |].
  intros Hw8 Hh6. specialize (Hsmall Hw8 Hh6). inversion Hsmall; subst.
  rewrite (truncate_value _ _ (of_Z_value imgWidth Hw)).
  rewrite (truncate_value _ _ (of_Z_value imgHeight Hh)). reflexivity.
Qed.

(** A photo of 4000 by 3000 pixels is shown on a canvas of 800 by 600. *)
Lemma annotation_canvas_fits_witness :
  canvasAttributes 4000 3000 = (800, 600)
  /\ 0 <= fst (canvasAttributes 4000 3000) <= 800.
Proof.
  pose proof K_value as HK4.
  split; [vm_compute; reflexivity |].
  apply (annotation_canvas_fits 4000 3000); vm_compute; split; congruence.
Defined.

End SizingProps.

(** ** The size of the compressor's canvas *)

Module CompressSizeProps.

Import Rounding Division.

(** [x] is zero or a positive finite number that is at most
    [c * 2 ^ j]. *)
Definition below (x : float) (c j : Z) : Prop :=
  Prim2SF x = S754_zero false
  \/ exists m e, Prim2SF x = S754_finite false m e
                 /\ Zpos m * 2 ^ (e + K) <= c * 2 ^ (j + K).

(** An integer below [2 ^ 53] scaled by a power of two is a number of the
    format. *)
Lemma dyadic_representable (c j : Z) :
  1 <= c < 2 ^ 53 -> -1000 <= j <= 900 ->
  exists mv ev,
    bounded prec emax mv ev = true /\ ev < 971
    /\ Zpos mv * 2 ^ (ev + K) = c * 2 ^ (j + K).
Proof.
  pose proof K_value as HK4.
  intros Hc Hj. destruct c as [| p | p]; try lia.
  pose proof (digits2_pos_bounds p) as [Hp1 Hp2].
  assert (Hd53 : Zpos (digits2_pos p) <= 53) by (apply digits_pos_le_53; lia).
  set (d := Zpos (digits2_pos p)) in *.
  assert (Hd1 : 1 <= d) by (unfold d; lia).
  set (sh := 53 - d).
  assert (Hm : exists mv, Zpos mv = Zpos p * 2 ^ sh).
  { pose proof (pow2_pos sh ltac:(unfold sh; lia)) as Hs.
    exists (Z.to_pos (Zpos p * 2 ^ sh)). rewrite Z2Pos.id; [reflexivity | lia]. }
  destruct Hm as [mv Hmv].
  assert (Hmv53 : 2 ^ 52 <= Zpos mv < 2 ^ 53).
  { rewrite Hmv. unfold sh. split.
    - replace 52 with (d - 1 + (53 - d)) by lia.
      rewrite Z.pow_add_r by lia.
      apply Z.mul_le_mono_nonneg_r; [apply Z.pow_nonneg; lia | lia].
    - replace 53 with (d + (53 - d)) at 2 by lia.
      rewrite Z.pow_add_r by lia.
      apply Z.mul_lt_mono_pos_r; [apply pow2_pos; lia | lia]. }
  assert (Hdz : Zpos (digits2_pos mv) = 53)
    by (apply digits2_pos_unique; exact Hmv53).
  exists mv, (j - sh). split; [| split].
  - unfold bounded, canonical_mantissa. rewrite Hdz, fexp_eq.
    apply andb_true_iff. split; [apply Z.eqb_eq | apply Z.leb_le];
      change (emax - prec) with 971; unfold sh; lia.
  - unfold sh. lia.
  - rewrite Hmv, <- Z.mul_assoc, <- Z.pow_add_r by (unfold sh; lia).
    do 2 f_equal. unfold sh. lia.
Qed.

(** From a bound in the comparison of the format to a bound in value. *)
Lemma leb_below (z : spec_float) (x : float) (mv : positive) (ev c j : Z) :
  Prim2SF x = z -> bounded prec emax mv ev = true ->
  Zpos mv * 2 ^ (ev + K) = c * 2 ^ (j + K) ->
  SFleb z (S754_finite false mv ev) = true -> nonneg_finite z ->
  below x c j.
Proof.
  intros Hx Hb Hv Hle [Hz | (m & e & Hz)]; subst z.
  - now left.
  - right. exists m, e. split; [exact Hz |].
    rewrite Hz in Hle. unfold SFleb in Hle.
    rewrite (SFcompare_value m mv e ev (valid_finite _ _ _ _ Hz) Hb) in Hle.
    rewrite <- Hv.
    destruct (Z.compare_spec (Zpos m * 2 ^ (e + K)) (Zpos mv * 2 ^ (ev + K)));
      try discriminate; lia.
Qed.

(** The quotient of two integers is at most every [c * 2 ^ j] of the
    format that the exact quotient does not exceed. *)
Lemma div_below (x y : float) (n d c j : Z) :
  fvalue x n -> fvalue y d -> 1 <= n -> 1 <= d ->
  1 <= c < 2 ^ 53 -> -1000 <= j <= 0 -> n * 2 ^ (- j) <= c * d ->
  below (x / y) c j /\ nonneg_finite (Prim2SF (x / y)).
Proof.
  pose proof K_value as HK4.
  intros (mx & ex & Hx & Hvx) (my & ey & Hy & Hvy) Hn Hd Hc Hj Hle.
  destruct (dyadic_representable c j Hc ltac:(lia)) as (mv & ev & Hb & Hev & Hvv).
  destruct (canonical_facts mx ex (valid_finite _ _ _ _ Hx)) as (_ & _ & Hex & _).
  destruct (canonical_facts my ey (valid_finite _ _ _ _ Hy)) as (_ & _ & Hey & _).
  destruct (canonical_facts mv ev Hb) as (_ & _ & Hev' & _).
  pose proof (pow2_pos K ltac:(lia)) as HK.
  pose proof (pow2_pos (j + K) ltac:(lia)) as HJ.
  pose proof (pow2_pos (- j) ltac:(lia)) as HJ'.
  assert (Hsplit : 2 ^ (ev + ey + K) * 2 ^ K
                   = 2 ^ (ev + K) * 2 ^ (ey + K)).
  { rewrite <- !Z.pow_add_r by lia. f_equal. lia. }
  assert (HsK : 2 ^ K = 2 ^ (- j) * 2 ^ (j + K)).
  { rewrite <- Z.pow_add_r by lia. f_equal. lia. }
  assert (Hmain : Zpos mx * 2 ^ (ex + K)
                  <= Zpos mv * Zpos my * 2 ^ (ev + ey + K)).
  { apply (Z.mul_le_mono_pos_r _ _ (2 ^ K)); [exact HK |].
    replace (Zpos mv * Zpos my * 2 ^ (ev + ey + K) * 2 ^ K)
      with ((Zpos mv * 2 ^ (ev + K)) * (Zpos my * 2 ^ (ey + K)))
      by (replace (Zpos mv * Zpos my * 2 ^ (ev + ey + K) * 2 ^ K)
            with (Zpos mv * Zpos my * (2 ^ (ev + ey + K) * 2 ^ K))
            by ring;
          rewrite Hsplit; ring).
    rewrite Hvx, Hvv, Hvy.
    replace (c * 2 ^ (j + K) * (d * 2 ^ K))
      with (c * d * 2 ^ (j + K) * 2 ^ K) by ring.
    apply Z.mul_le_mono_nonneg_r; [lia |].
    rewrite HsK at 1.
    replace (n * (2 ^ (- j) * 2 ^ (j + K)))
      with (n * 2 ^ (- j) * 2 ^ (j + K)) by ring.
    apply Z.mul_le_mono_nonneg_r; lia. }
  destruct (SFdiv_le_bound mx my mv ex ey ev
              (valid_finite _ _ _ _ Hx) (valid_finite _ _ _ _ Hy) Hb Hev Hmain)
    as [Hle' Hnn].
  assert (Hq : Prim2SF (x / y)
               = SFdiv prec emax (S754_finite false mx ex)
                   (S754_finite false my ey))
    by (rewrite FloatAxioms.div_spec, Hx, Hy; reflexivity).
  split.
  - exact (leb_below _ (x / y) mv ev c j Hq Hb Hvv Hle' Hnn).
  - rewrite Hq. exact Hnn.
Qed.

(** The product of an integer and a number that is at most [c * 2 ^ j]
    is at most every [v * 2 ^ i] of the format that the exact bound of the
    product does not exceed. *)
Lemma mul_below (x y : float) (a c j v i : Z) :
  fvalue x a -> below y c j -> 1 <= a < 2 ^ 53 ->
  1 <= c -> -1000 <= j <= 0 -> 1 <= v < 2 ^ 53 -> -1000 <= i <= 0 ->
  a * c * 2 ^ (- i) <= v * 2 ^ (- j) ->
  below (x * y) v i.
Proof.
  pose proof K_value as HK4.
  intros (mx & ex & Hx & Hvx) Hy Ha Hc Hj Hv Hi Hle.
  destruct Hy as [Hy | (my & ey & Hy & Hvy)].
  { left. rewrite FloatAxioms.mul_spec, Hx, Hy. reflexivity. }
  destruct (dyadic_representable v i Hv ltac:(lia)) as (mv & ev & Hb & Hev & Hvv).
  destruct (fvalue_exponent mx ex a (valid_finite _ _ _ _ Hx) Hvx
              ltac:(change (2 ^ 53) with 9007199254740992 in Ha;
                    change (2 ^ 64) with 18446744073709551616; lia))
    as [Hex Hmx].
  destruct (canonical_facts my ey (valid_finite _ _ _ _ Hy)) as (_ & _ & Hey & _).
  destruct (canonical_facts mv ev Hb) as (_ & _ & Hev' & Hmv53).
  pose proof (pow2_pos K ltac:(lia)) as HK.
  pose proof (pow2_pos (ex + K) ltac:(lia)) as HX.
  pose proof (pow2_pos (ey + K) ltac:(lia)) as HY.
  pose proof (pow2_pos (ev + K) ltac:(lia)) as HV.
  pose proof (pow2_pos (i + j + K) ltac:(lia)) as HIJ.
  pose proof (pow2_pos (- i) ltac:(lia)) as HI'.
  pose proof (pow2_pos (- j) ltac:(lia)) as HJ'.
  assert (Hsplit : 2 ^ (ex + ey + K) * 2 ^ K
                   = 2 ^ (ex + K) * 2 ^ (ey + K)).
  { rewrite <- !Z.pow_add_r by lia. f_equal. lia. }
  assert (HsJ : 2 ^ (j + K) = 2 ^ (- i) * 2 ^ (i + j + K)).
  { rewrite <- Z.pow_add_r by lia. f_equal. lia. }
  assert (HsI : 2 ^ (i + K) = 2 ^ (- j) * 2 ^ (i + j + K)).
  { rewrite <- Z.pow_add_r by lia. f_equal. lia. }
  assert (Hmain : Zpos mx * Zpos my * 2 ^ (ex + ey + K)
                  <= Zpos mv * 2 ^ (ev + K)).
  { apply (Z.mul_le_mono_pos_r _ _ (2 ^ K)); [exact HK |].
    replace (Zpos mx * Zpos my * 2 ^ (ex + ey + K) * 2 ^ K)
      with ((Zpos mx * 2 ^ (ex + K)) * (Zpos my * 2 ^ (ey + K)))
      by (replace (Zpos mx * Zpos my * 2 ^ (ex + ey + K) * 2 ^ K)
            with (Zpos mx * Zpos my * (2 ^ (ex + ey + K) * 2 ^ K))
            by ring;
          rewrite Hsplit; ring).
    rewrite Hvx, Hvv.
    assert (H1 : a * 2 ^ K * (Zpos my * 2 ^ (ey + K))
                 <= a * 2 ^ K * (c * 2 ^ (j + K)))
      by (apply Z.mul_le_mono_nonneg_l; [lia | exact Hvy]).
    etransitivity; [exact H1 |].
    replace (a * 2 ^ K * (c * 2 ^ (j + K)))
      with (a * c * 2 ^ (j + K) * 2 ^ K) by ring.
    apply Z.mul_le_mono_nonneg_r; [lia |].
    rewrite HsJ, HsI.
    replace (a * c * (2 ^ (- i) * 2 ^ (i + j + K)))
      with (a * c * 2 ^ (- i) * 2 ^ (i + j + K)) by ring.
    replace (v * (2 ^ (- j) * 2 ^ (i + j + K)))
      with (v * 2 ^ (- j) * 2 ^ (i + j + K)) by ring.
    apply Z.mul_le_mono_nonneg_r; lia. }
  assert (Hexp : ex + ey <= ev).
  { destruct (Z.le_gt_cases (ex + ey) ev) as [H | H]; [exact H | exfalso].
    assert (H1 : 2 ^ (ev + 1 + K) <= 2 ^ (ex + ey + K))
      by (apply Z.pow_le_mono_r; lia).
    replace (ev + 1 + K) with (1 + (ev + K)) in H1 by lia.
    rewrite (Z.pow_add_r 2 1 (ev + K)) in H1 by lia.
    change (2 ^ 1) with 2 in H1.
    pose proof (pow2_pos (ex + ey + K) ltac:(lia)) as HXY.
    assert (H2 : Zpos mv * 2 ^ (ev + K) < 2 ^ 53 * 2 ^ (ev + K))
      by (apply Z.mul_lt_mono_pos_r; [exact HV | exact Hmv53]).
    assert (H3 : 2 ^ 52 * 2 ^ (ex + ey + K)
                 <= Zpos mx * Zpos my * 2 ^ (ex + ey + K)).
    { apply Z.mul_le_mono_nonneg_r; [lia |].
      change (2 ^ 52) with 4503599627370496 in *. nia. }
    assert (H4 : 2 ^ 52 * (2 * 2 ^ (ev + K)) <= 2 ^ 52 * 2 ^ (ex + ey + K))
      by (apply Z.mul_le_mono_nonneg_l; [apply Z.pow_nonneg; lia | exact H1]).
    change (2 ^ 53) with (2 ^ 52 * 2) in H2. lia. }
  destruct (SFmul_le_bound mx my mv ex ey ev Hb Hev ltac:(lia) Hexp Hmain)
    as [Hle' Hnn].
  apply (leb_below
           (SFmul prec emax (S754_finite false mx ex) (S754_finite false my ey))
           (x * y) mv ev v i); try assumption.
  rewrite FloatAxioms.mul_spec, Hx, Hy. reflexivity.
Qed.

(** The integer part of a number that is at most [c * 2 ^ j]. *)
Lemma truncate_below (x : float) (c j : Z) :
  0 <= c -> - K <= j <= 0 -> below x c j ->
  0 <= Number.truncate x <= c / 2 ^ (- j).
Proof.
  pose proof K_value as HK4.
  intros Hc Hj [Hx | (m & e & Hx & Hv)]; unfold Number.truncate; rewrite Hx.
  { split; [lia |]. apply Z.div_pos; [lia | apply pow2_pos; lia]. }
  destruct (canonical_facts m e (valid_finite _ _ _ _ Hx)) as (_ & _ & He & _).
  cbv zeta.
  pose proof (pow2_pos (e + K) ltac:(lia)) as HE.
  pose proof (pow2_pos (j + K) ltac:(lia)) as HJ.
  pose proof (pow2_pos (- j) ltac:(lia)) as HJ'.
  pose proof (pow2_pos K ltac:(lia)) as HK.
  assert (HsK : 2 ^ K = 2 ^ (- j) * 2 ^ (j + K)).
  { rewrite <- Z.pow_add_r by lia. f_equal. lia. }
  set (t := Z.shiftl (Zpos m) e).
  assert (Ht : 0 <= t /\ t * 2 ^ K <= Zpos m * 2 ^ (e + K)).
  { unfold t. destruct (Z.le_gt_cases 0 e) as [Hpos | Hneg].
    - rewrite Z.shiftl_mul_pow2 by lia.
      pose proof (pow2_pos e Hpos) as Hp.
      split; [lia |]. rewrite (Z.pow_add_r 2 e K) by lia. lia.
    - rewrite Z.shiftl_div_pow2 by lia.
      pose proof (pow2_pos (- e) ltac:(lia)) as Hp.
      split; [apply Z.div_pos; lia |].
      assert (Hs : 2 ^ K = 2 ^ (- e) * 2 ^ (e + K)).
      { rewrite <- Z.pow_add_r by lia. f_equal. lia. }
      rewrite Hs.
      pose proof (Z.mul_div_le (Zpos m) (2 ^ (- e)) Hp) as Hq.
      replace (Zpos m / 2 ^ (- e) * (2 ^ (- e) * 2 ^ (e + K)))
        with (2 ^ (- e) * (Zpos m / 2 ^ (- e)) * 2 ^ (e + K)) by ring.
      apply Z.mul_le_mono_nonneg_r; lia. }
  destruct Ht as [Ht0 Ht].
  split; [exact Ht0 |].
  apply Z.div_le_lower_bound; [exact HJ' |].
  apply (Z.mul_le_mono_pos_r _ _ (2 ^ (j + K))); [exact HJ |].
  replace (2 ^ (- j) * t * 2 ^ (j + K))
    with (t * (2 ^ (- j) * 2 ^ (j + K))) by ring.
  rewrite <- HsK. lia.
Qed.

(** *** The smaller of two numbers *)

(** Two numbers that are zero or positive and finite are comparable. *)
Lemma compare_nonneg (a b : float) :
  nonneg_finite (Prim2SF a) -> nonneg_finite (Prim2SF b) ->
  exists c, SFcompare (Prim2SF a) (Prim2SF b) = Some c
            /\ SFcompare (Prim2SF b) (Prim2SF a) = Some (CompOpp c).
Proof.
  intros [Ha | (ma & ea & Ha)] [Hb | (mb & eb & Hb)]; rewrite Ha, Hb.
  - exists Eq. split; reflexivity.
  - exists Lt. split; reflexivity.
  - exists Gt. split; reflexivity.
  - rewrite (SFcompare_value ma mb ea eb (valid_finite _ _ _ _ Ha)
               (valid_finite _ _ _ _ Hb)).
    rewrite (SFcompare_value mb ma eb ea (valid_finite _ _ _ _ Hb)
               (valid_finite _ _ _ _ Ha)).
    eexists. split; [reflexivity |]. f_equal. apply Z.compare_antisym.
Qed.

Lemma not_nan (a : float) :
  nonneg_finite (Prim2SF a) -> PrimFloat.is_nan a = false.
Proof.
  intros Ha. unfold PrimFloat.is_nan. rewrite FloatAxioms.eqb_spec.
  unfold SFeqb.
  destruct (compare_nonneg a a Ha Ha) as (c & Hc & Hc').
  rewrite Hc in *. destruct c; try reflexivity; discriminate.
Qed.

(** [Math.min] of two such numbers is one of them, and at most each. *)
Lemma min_nonneg (a b : float) :
  nonneg_finite (Prim2SF a) -> nonneg_finite (Prim2SF b) ->
  let r := Number.min a b in
  (r = a \/ r = b)
  /\ SFleb (Prim2SF r) (Prim2SF a) = true
  /\ SFleb (Prim2SF r) (Prim2SF b) = true.
Proof.
  intros Ha Hb. cbv zeta. unfold Number.min.
  rewrite (not_nan a Ha), (not_nan b Hb). cbn [orb].
  rewrite !FloatAxioms.ltb_spec. unfold SFltb, SFleb.
  destruct (compare_nonneg a b Ha Hb) as (c & Hab & Hba).
  destruct (compare_nonneg a a Ha Ha) as (ca & Haa & Haa').
  destruct (compare_nonneg b b Hb Hb) as (cb & Hbb & Hbb').
  assert (Hca : ca = Eq)
    by (destruct ca; cbn [CompOpp] in Haa'; congruence).
  assert (Hcb : cb = Eq)
    by (destruct cb; cbn [CompOpp] in Hbb'; congruence).
  subst ca cb.
  rewrite Hab, Hba. destruct c; cbn [CompOpp].
  - destruct (PrimFloat.get_sign a).
    + rewrite Haa, Hab. auto.
    + rewrite Hba, Hbb. auto.
  - rewrite Haa, Hab. auto.
  - rewrite Hba, Hbb. auto.
Qed.

(** What is at most a number that is at most [c * 2 ^ j] is so too. *)
Lemma below_leb (r a : float) (c j : Z) :
  nonneg_finite (Prim2SF r) -> SFleb (Prim2SF r) (Prim2SF a) = true ->
  below a c j -> below r c j.
Proof.
  intros [Hr | (mr & er & Hr)] Hle Ha; [now left |].
  right. exists mr, er. split; [exact Hr |].
  rewrite Hr in Hle. unfold SFleb in Hle.
  destruct Ha as [Ha | (ma & ea & Ha & Hva)]; rewrite Ha in Hle.
  - discriminate.
  - rewrite (SFcompare_value mr ma er ea (valid_finite _ _ _ _ Hr)
               (valid_finite _ _ _ _ Ha)) in Hle.
    destruct (Z.compare_spec (Zpos mr * 2 ^ (er + K)) (Zpos ma * 2 ^ (ea + K)));
      try discriminate; lia.
Qed.

(** *** The two sides of the canvas *)

(** A power of two between twice and four times a positive integer. *)
Lemma scale_exists (n : Z) :
  1 <= n < 2 ^ 53 -> exists k, 1 <= k <= 60 /\ 2 * n <= 2 ^ k <= 4 * n.
Proof.
  intros Hn. destruct n as [| p | p]; try lia.
  pose proof (digits2_pos_bounds p) as [Hp1 Hp2].
  assert (Hd53 : Zpos (digits2_pos p) <= 53) by (apply digits_pos_le_53; lia).
  set (d := Zpos (digits2_pos p)) in *.
  assert (Hd1 : 1 <= d) by (unfold d; lia).
  exists (d + 1). split; [lia |].
  replace (d + 1) with (1 + 1 + (d - 1)) at 2 by lia.
  rewrite (Z.pow_add_r 2 d 1), (Z.pow_add_r 2 (1 + 1) (d - 1)) by lia.
  change (2 ^ 1) with 2. change (2 ^ (1 + 1)) with 4. lia.
Qed.

(** The quotient of the limit by a side is at most a number of the format
    that, multiplied by the side, stays below the limit plus one half. *)
Lemma ratio_below (n limit : Z) :
  1 <= n < 2 ^ 53 -> 1 <= limit <= 2147483647 ->
  exists c k,
    1 <= c < 2 ^ 53 /\ 1 <= k <= 60
    /\ 2 * n * c <= (2 * limit + 1) * 2 ^ k
    /\ below (Number.of_Z limit / Number.of_Z n) c (- k)
    /\ nonneg_finite (Prim2SF (Number.of_Z limit / Number.of_Z n)).
Proof.
  intros Hn Hl.
  destruct (scale_exists n Hn) as (k & Hk & Hlo & Hhi).
  assert (Hl53 : 1 <= limit < 2 ^ 53)
    by (change (2 ^ 53) with 9007199254740992; lia).
  set (P := 2 ^ k) in *.
  pose proof (Z.div_mod (limit * P) n ltac:(lia)) as Hdm.
  pose proof (Z.mod_pos_bound (limit * P) n ltac:(lia)) as Hr.
  set (q := limit * P / n) in *. set (r := (limit * P) mod n) in *.
  assert (Hq0 : 0 <= q) by (apply Z.div_pos; nia).
  assert (Hq4 : q <= 4 * limit).
  { apply Z.div_le_upper_bound; [lia |]. nia. }
  exists (q + 1), k.
  split; [change (2 ^ 53) with 9007199254740992; lia |].
  split; [exact Hk |].
  split; [nia |].
  apply (div_below _ _ limit n (q + 1) (- k)); try lia.
  - apply of_Z_value; exact Hl53.
  - apply of_Z_value; exact Hn.
  - rewrite Z.opp_involutive. fold P. nia.
Qed.

(** A side multiplied by a ratio within that bound has an integer part
    of at most the limit. *)
Lemma side_within (n limit c k : Z) (ratio : float) :
  1 <= n < 2 ^ 53 -> 1 <= limit <= 2147483647 ->
  1 <= c < 2 ^ 53 -> 1 <= k <= 60 ->
  2 * n * c <= (2 * limit + 1) * 2 ^ k -> below ratio c (- k) ->
  0 <= Number.truncate (Number.of_Z n * ratio)%float <= limit.
Proof.
  pose proof K_value as HK4.
  intros Hn Hl Hc Hk Hle Hr.
  assert (Hb : below (Number.of_Z n * ratio)%float (2 * limit + 1) (-1)).
  { apply (mul_below _ _ n c (- k)); try lia; try assumption.
    - apply of_Z_value; exact Hn.
    - rewrite Z.opp_involutive. change (2 ^ (- -1)) with 2. lia. }
  pose proof (truncate_below _ (2 * limit + 1) (-1) ltac:(lia) ltac:(lia) Hb)
    as Ht.
  change (2 ^ (- -1)) with 2 in Ht.
  assert (Hd : (2 * limit + 1) / 2 = limit)
    by (symmetry; apply (Z.div_unique_pos _ _ _ 1); lia).
  rewrite Hd in Ht. exact Ht.
Qed.

Lemma defaultMaxWidth_of_Z : Compress.defaultMaxWidth = Number.of_Z 1920.
Proof. vm_compute. reflexivity. Qed.

(** With an integer of at most 2147483647 as [maxWidth], and an image of
    at least one pixel each way (sides below [2 ^ 53]), the canvas the
    compressor draws on is at most [maxWidth] wide and at most [maxWidth]
    high, whichever side of the image is the longer; the two attributes
    are the integer parts of the two products with the same ratio. *)
Theorem compressed_size_within_limit
  (imgWidth imgHeight limit : Z) (maxWidth : float) :
  1 <= imgWidth < 2 ^ 53 -> 1 <= imgHeight < 2 ^ 53 ->
  1 <= limit <= 2147483647 -> maxWidth = Number.of_Z limit ->
  let size := Compress.canvasSize imgWidth imgHeight maxWidth in
  let ratio := Number.min (maxWidth / Number.of_Z imgWidth)%float
                          (maxWidth / Number.of_Z imgHeight)%float in
  0 <= fst size <= limit /\ 0 <= snd size <= limit
  /\ size = (Number.truncate (Number.of_Z imgWidth * ratio)%float,
             Number.truncate (Number.of_Z imgHeight * ratio)%float).
Proof.
  intros Hw Hh Hl ->. cbv zeta. unfold Compress.canvasSize.
  destruct (ratio_below imgWidth limit Hw Hl)
    as (cw & kw & Hcw & Hkw & Hlew & Hbw & Hnw).
  destruct (ratio_below imgHeight limit Hh Hl)
    as (ch & kh & Hch & Hkh & Hleh & Hbh & Hnh).
  destruct (min_nonneg _ _ Hnw Hnh) as (Hsel & Hra & Hrb).
  set (ratio := Number.min _ _) in *.
  assert (Hnn : nonneg_finite (Prim2SF ratio))
    by (destruct Hsel as [-> | ->]; assumption).
  pose proof (side_within imgWidth limit cw kw ratio Hw Hl Hcw Hkw Hlew
                (below_leb _ _ _ _ Hnn Hra Hbw)) as HtW.
  pose proof (side_within imgHeight limit ch kh ratio Hh Hl Hch Hkh Hleh
                (below_leb _ _ _ _ Hnn Hrb Hbh)) as HtH.
  cbn [fst snd].
  rewrite (SizingProps.setDimension_small 300 limit _ HtW) by lia.
  rewrite (SizingProps.setDimension_small 150 limit _ HtH) by lia.
  split; [exact HtW |]. split; [exact HtH | reflexivity].
Qed.

(** A photo of 3000 by 2000 pixels is drawn on a canvas of 1920 by 1280
    with the default [maxWidth]. *)
Lemma compressed_size_within_limit_witness :
  Compress.canvasSize 3000 2000 Compress.defaultMaxWidth = (1920, 1280)
  /\ 0 <= snd (Compress.canvasSize 3000 2000 Compress.defaultMaxWidth) <= 1920.
Proof.
  split; [vm_compute; reflexivity |].
  apply (compressed_size_within_limit 3000 2000 1920 Compress.defaultMaxWidth);
    vm_compute; try split; congruence.
Defined.

End CompressSizeProps.
